(** * Event extraction pipeline of the Mospolytech events bot

    A shallow embedding of [src/parser/llm_event_extractor.py],
    [src/parser/huggingface_handler.py] and
    [src/parser/telegram_parser_v2.py], followed by the properties that the
    specification states about them.

    Conventions.
    - A Python [str] is the list of its Unicode code points ([N]); literals
      are written in UTF-8 and decoded by [u].
    - A Python [float] is a binary64 primitive float.
    - The regular expressions are the strings of the source, read by
      [re_parse] and matched by the backtracking matcher [run].
    - What the code obtains from elsewhere is an explicit parameter: the
      Unicode database ([Unicode]), [json] and [hashlib] ([Lib]), the
      parsed page and the timestamps ([Page_lib]), the language model
      ([Model]), the clock, the network and the file system ([World]).
    - An object that the code mutates is a record that the functions take
      and give back ([Extractor], [TelegramParserV2]).
    - The channels of a run are taken one after the other; the code runs
      up to three of them interleaved at their awaits. *)

From Stdlib Require Import ZArith NArith List String Ascii Bool Lia PrimFloat
  Sorted.
From stdpp Require Import gmap.

Set Warnings "-inexact-float,-register-all".
Set Default Proof Using "Type".

Local Open Scope N_scope.

(* ================================================================== *)
(** * Python strings *)
(* ================================================================== *)

(** A [str]: the sequence of its code points. *)
Abbreviation str := (list N).

(** ** UTF-8 decoding of source literals *)

Definition cont (b : N) : N := N.land b 63.

Fixpoint utf8_decode (bs : list N) : str :=
  match bs with
  | [] => []
  | b :: r =>
      if b <? 128 then b :: utf8_decode r
      else if b <? 224 then
        match r with
        | b1 :: r1 => (N.land b 31 * 64 + cont b1) :: utf8_decode r1
        | _ => []
        end
      else if b <? 240 then
        match r with
        | b1 :: b2 :: r2 =>
            (N.land b 15 * 4096 + cont b1 * 64 + cont b2) :: utf8_decode r2
        | _ => []
        end
      else
        match r with
        | b1 :: b2 :: b3 :: r3 =>
            (N.land b 7 * 262144 + cont b1 * 4096 + cont b2 * 64 + cont b3)
              :: utf8_decode r3
        | _ => []
        end
  end.

Definition u (s : string) : str :=
  utf8_decode (List.map N_of_ascii (list_ascii_of_string s)).
Arguments u s%_string.

Definition NL : N := 10.

(** ** The Unicode database, as far as the code consults it *)

Class Unicode := {
  (** [str.lower()], [str.upper()], [str.capitalize()] *)
  str_lower : str -> str;
  str_upper : str -> str;
  str_capitalize : str -> str;
  (** simple case mappings of one code point, used by [re.IGNORECASE] *)
  cp_lower : N -> N;
  cp_upper : N -> N;
  (** decimal value of a code point of category Nd ([\d], [int()]) *)
  cp_digit : N -> option Z;
  (** [str.isalnum] of one code point ([\w] is this or the underscore) *)
  cp_alnum : N -> bool;
  (** [str.isspace] of one code point ([\s], [str.strip], [str.split]) *)
  cp_space : N -> bool
}.

(** The restriction of the database to the Basic Latin and Cyrillic blocks
    and to the letters that [re.IGNORECASE] takes for letters of these
    blocks although they lower to themselves: the dotless i, the long s
    and the old letters of Cyrillic Extended-C; it serves to evaluate the
    model on closed inputs. *)
Definition in_range (lo hi c : N) : bool := (lo <=? c) && (c <=? hi).

Definition basic_lower (c : N) : N :=
  if in_range 65 90 c then c + 32          (* A-Z *)
  else if in_range 1040 1071 c then c + 32 (* А-Я *)
  else if in_range 1024 1039 c then c + 80 (* Ѐ-Џ, Ё among them *)
  else c.

(** The upper case of the letters U+1C80 to U+1C88. *)
Definition old_cyrillic_upper : list N :=
  [1042; 1044; 1054; 1057; 1058; 1058; 1066; 1122; 42570].

Definition basic_upper (c : N) : N :=
  if in_range 97 122 c then c - 32
  else if in_range 1072 1103 c then c - 32
  else if in_range 1104 1119 c then c - 80
  else if c =? 305 then 73                 (* dotless i *)
  else if c =? 383 then 83                 (* long s *)
  else if in_range 7296 7304 c then
    nth (N.to_nat (c - 7296)) old_cyrillic_upper c
  else c.

Definition basic_digit (c : N) : option Z :=
  if in_range 48 57 c then Some (Z.of_N (c - 48)) else None.

Definition basic_alnum (c : N) : bool :=
  in_range 48 57 c || in_range 65 90 c || in_range 97 122 c
  || (c =? 305) || (c =? 383)
  || in_range 1024 1153 c || in_range 1162 1327 c || in_range 7296 7304 c.

Definition basic_space (c : N) : bool :=
  in_range 9 13 c || in_range 28 32 c || (c =? 133) || (c =? 160).

Definition basic_capitalize (s : str) : str :=
  match s with
  | [] => []
  | c :: r => basic_upper c :: List.map basic_lower r
  end.

#[export] Instance basic_unicode : Unicode := {|
  str_lower := List.map basic_lower;
  str_upper := List.map basic_upper;
  str_capitalize := basic_capitalize;
  cp_lower := basic_lower;
  cp_upper := basic_upper;
  cp_digit := basic_digit;
  cp_alnum := basic_alnum;
  cp_space := basic_space
|}.

(** ** String operations *)

Definition str_eqb (a b : str) : bool := bool_decide (a = b).

Fixpoint starts_with (p s : str) : bool :=
  match p, s with
  | [], _ => true
  | _ :: _, [] => false
  | a :: p', b :: s' => (a =? b) && starts_with p' s'
  end.

(** [sub in s] *)
Fixpoint contains (sub s : str) : bool :=
  starts_with sub s ||
  match s with
  | [] => false
  | _ :: s' => contains sub s'
  end.

(** [s.split(sep)] for a one-character separator: never the empty list. *)
Fixpoint split_on (sep : N) (s : str) : list str :=
  match s with
  | [] => [[]]
  | c :: r =>
      if c =? sep then [] :: split_on sep r
      else match split_on sep r with
           | [] => [[c]]
           | l :: ls => (c :: l) :: ls
           end
  end.

Fixpoint join (sep : str) (l : list str) : str :=
  match l with
  | [] => []
  | [x] => x
  | x :: r => x ++ sep ++ join sep r
  end.

Fixpoint zfill_pad (n : nat) (s : str) : str :=
  match n with
  | O => s
  | S k => 48 :: zfill_pad k s
  end.

(** [s.zfill(w)] for an [s] without sign, which is all the code pads. *)
Definition zfill (w : nat) (s : str) : str :=
  zfill_pad (w - length s) s.

Section StrUnicode.
Context {U : Unicode}.

Fixpoint lstrip (s : str) : str :=
  match s with
  | [] => []
  | c :: r => if cp_space c then lstrip r else s
  end.

Definition rstrip (s : str) : str := rev (lstrip (rev s)).

(** [s.strip()] *)
Definition strip (s : str) : str := rstrip (lstrip s).

(** [s.split()]: maximal runs of non-whitespace. *)
Fixpoint words_aux (cur : str) (s : str) : list str :=
  match s with
  | [] => match cur with [] => [] | _ => [rev cur] end
  | c :: r =>
      if cp_space c
      then match cur with
           | [] => words_aux [] r
           | _ => rev cur :: words_aux [] r
           end
      else words_aux (c :: cur) r
  end.

Definition split_ws (s : str) : list str := words_aux [] s.

(** [int(s)] of a digit string; [None] is [ValueError]. *)
Fixpoint int_digits (acc : Z) (s : str) : option Z :=
  match s with
  | [] => Some acc
  | c :: r =>
      match cp_digit c with
      | Some d => int_digits (acc * 10 + d)%Z r
      | None => None
      end
  end.

Definition py_int (s : str) : option Z :=
  match strip s with
  | [] => None
  | ds => int_digits 0%Z ds
  end.
End StrUnicode.

(** [str(n)] of an integer that is not negative. *)
Fixpoint digits_of (fuel : nat) (n : N) (acc : str) : str :=
  match fuel with
  | O => acc
  | S f =>
      let acc' := (48 + n mod 10) :: acc in
      if n <? 10 then acc' else digits_of f (n / 10) acc'
  end.

Definition str_of_Z (z : Z) : str :=
  let n := Z.to_N z in digits_of (S (N.to_nat (N.log2 n))) n [].

(* ================================================================== *)
(** * Regular expressions ([re]) *)
(* ================================================================== *)

(** The patterns of the source are kept as the strings they are written
    as; [re_parse] reads the part of Python's pattern syntax that they use,
    and [run] is a backtracking matcher that lists the ways a pattern
    matches at a position in the order in which [re] tries them, so that
    the head of the list is the match [re] reports. *)

Inductive cls_item :=
| CChar (c : N)
| CRange (lo hi : N)
| CDigit
| CSpace
| CWord.

Inductive re :=
| REps
| RLit (c : N)
| RDot
| RSet (neg : bool) (items : list cls_item)
| RBoundary
| REnd
| RCat (a b : re)
| RAlt (a b : re)
| RRep (lo : nat) (hi : option nat) (greedy : bool) (a : re)
| RGroup (i : nat) (a : re)
| RNotAhead (a : re).

(** ** Pattern syntax *)

Definition is_ascii_digit (c : N) : bool := in_range 48 57 c.

Fixpoint p_nat (acc : nat) (s : str) : nat * str :=
  match s with
  | c :: r =>
      if is_ascii_digit c then p_nat (acc * 10 + N.to_nat (c - 48)) r
      else (acc, s)
  | [] => (acc, s)
  end.

(** An escape inside or outside a set. *)
Definition p_escape (c : N) : cls_item :=
  if c =? 100 then CDigit        (* \d *)
  else if c =? 115 then CSpace   (* \s *)
  else if c =? 119 then CWord    (* \w *)
  else if c =? 110 then CChar NL (* \n *)
  else CChar c.

(** The items of a set, up to the closing bracket. *)
Fixpoint p_items (fuel : nat) (s : str) : option (list cls_item * str) :=
  match fuel with
  | O => None
  | S f =>
      match s with
      | [] => None
      | 93 :: r => Some ([], r)
      | 92 :: c :: r =>
          match p_items f r with
          | Some (l, r') => Some (p_escape c :: l, r')
          | None => None
          end
      | lo :: 45 :: hi :: r =>
          if hi =? 93 then
            match p_items f (45 :: hi :: r) with
            | Some (l, r') => Some (CChar lo :: l, r')
            | None => None
            end
          else
            match p_items f r with
            | Some (l, r') => Some (CRange lo hi :: l, r')
            | None => None
            end
      | c :: r =>
          match p_items f r with
          | Some (l, r') => Some (CChar c :: l, r')
          | None => None
          end
      end
  end.

Definition p_set (s : str) : option (re * str) :=
  match s with
  | 94 :: r =>
      match p_items (S (length r)) r with
      | Some (l, r') => Some (RSet true l, r')
      | None => None
      end
  | _ =>
      match p_items (S (length s)) s with
      | Some (l, r') => Some (RSet false l, r')
      | None => None
      end
  end.

(** A trailing [?] makes a quantifier lazy. *)
Definition p_lazy (lo : nat) (hi : option nat) (a : re) (s : str) : re * str :=
  match s with
  | 63 :: r => (RRep lo hi false a, r)
  | _ => (RRep lo hi true a, s)
  end.

(** The quantifier after an atom, when there is one. *)
Definition p_quant (a : re) (s : str) : re * str :=
  match s with
  | 42 :: r => p_lazy 0 None a r
  | 43 :: r => p_lazy 1 None a r
  | 63 :: r => p_lazy 0 (Some 1%nat) a r
  | 123 :: r =>
      let '(lo, r1) := p_nat 0 r in
      match r1 with
      | 125 :: r2 => p_lazy lo (Some lo) a r2
      | 44 :: r2 =>
          let '(hi, r3) := p_nat 0 r2 in
          match r3 with
          | 125 :: r4 => p_lazy lo (Some hi) a r4
          | _ => (a, s)
          end
      | _ => (a, s)
      end
  | _ => (a, s)
  end.

(** Alternatives, sequences and atoms; [g] is the number the next capturing
    group gets. *)
Fixpoint p_alt (fuel : nat) (s : str) (g : nat) : option (re * str * nat) :=
  match fuel with
  | O => None
  | S f =>
      match p_seq f s g with
      | Some (a, 124 :: s1, g1) =>
          match p_alt f s1 g1 with
          | Some (b, s2, g2) => Some (RAlt a b, s2, g2)
          | None => None
          end
      | other => other
      end
  end
with p_seq (fuel : nat) (s : str) (g : nat) : option (re * str * nat) :=
  match fuel with
  | O => None
  | S f =>
      match s with
      | [] => Some (REps, s, g)
      | 41 :: _ => Some (REps, s, g)
      | 124 :: _ => Some (REps, s, g)
      | _ =>
          match p_atom f s g with
          | Some (a, s1, g1) =>
              let '(q, s2) := p_quant a s1 in
              match p_seq f s2 g1 with
              | Some (REps, s3, g3) => Some (q, s3, g3)
              | Some (b, s3, g3) => Some (RCat q b, s3, g3)
              | None => None
              end
          | None => None
          end
      end
  end
with p_atom (fuel : nat) (s : str) (g : nat) : option (re * str * nat) :=
  match fuel with
  | O => None
  | S f =>
      match s with
      | [] => None
      | 40 :: 63 :: 58 :: r =>                       (* (?:...) *)
          match p_alt f r g with
          | Some (a, 41 :: r1, g1) => Some (a, r1, g1)
          | _ => None
          end
      | 40 :: 63 :: 33 :: r =>                       (* (?!...) *)
          match p_alt f r g with
          | Some (a, 41 :: r1, g1) => Some (RNotAhead a, r1, g1)
          | _ => None
          end
      | 40 :: r =>                                   (* (...) *)
          match p_alt f r (S g) with
          | Some (a, 41 :: r1, g1) => Some (RGroup g a, r1, g1)
          | _ => None
          end
      | 91 :: r =>
          match p_set r with
          | Some (a, r1) => Some (a, r1, g)
          | None => None
          end
      | 92 :: 98 :: r => Some (RBoundary, r, g)      (* \b *)
      | 92 :: c :: r =>
          match p_escape c with
          | CChar c' => Some (RLit c', r, g)
          | item => Some (RSet false [item], r, g)
          end
      | 36 :: r => Some (REnd, r, g)
      | 46 :: r => Some (RDot, r, g)
      | c :: r => Some (RLit c, r, g)
      end
  end.

(** [re.compile(pattern)]; [None] for a pattern outside the syntax read. *)
Definition re_parse (pattern : str) : option re :=
  match p_alt (4 * length pattern + 4) pattern 1 with
  | Some (r, [], _) => Some r
  | _ => None
  end.

(** ** Matching *)

(** A position of the matcher: the character before it, the text after it
    and the groups captured so far (latest first). *)
Record mstate := MState {
  ms_prev : option N;
  ms_rest : str;
  ms_caps : list (nat * str)
}.

(** The text between two positions, the second reached from the first. *)
Definition consumed (st st' : mstate) : str :=
  firstn (length (ms_rest st) - length (ms_rest st')) (ms_rest st).

Definition capture (i : nat) (st st' : mstate) : mstate :=
  MState (ms_prev st') (ms_rest st') ((i, consumed st st') :: ms_caps st').

Definition pred_hi (hi : option nat) : option nat :=
  match hi with
  | Some n => Some (Nat.pred n)
  | None => None
  end.

(** Repetition of [step] between [lo] and [hi] times. An iteration that
    consumes nothing ends an optional repetition, as it does in [re]. *)
Fixpoint rep_loop (step : mstate -> list mstate) (fuel lo : nat)
    (hi : option nat) (greedy : bool) (st : mstate) : list mstate :=
  match fuel with
  | O => []
  | S f =>
      match lo with
      | S lo' => flat_map (rep_loop step f lo' (pred_hi hi) greedy) (step st)
      | O =>
          match hi with
          | Some O => [st]
          | _ =>
              let more :=
                flat_map
                  (fun st' =>
                     if (length (ms_rest st') <? length (ms_rest st))%nat
                     then rep_loop step f 0 (pred_hi hi) greedy st'
                     else [])
                  (step st) in
              if greedy then more ++ [st] else st :: more
          end
      end
  end.

(** A match object: [m.group()] and the captured groups. *)
Record rmatch := RMatch {
  m_text : str;
  m_caps : list (nat * str)
}.

(** [re/_casefix.py]: for the lower case of a character, the other
    lower-case characters that have the same upper case. *)
Definition _EXTRA_CASES : list (N * list N) := [
  (105, [305]); (115, [383]); (181, [956]); (305, [105]); (383, [115]);
  (837, [953; 8126]); (912, [8147]); (944, [8163]); (946, [976]);
  (949, [1013]); (952, [977]); (953, [837; 8126]); (954, [1008]);
  (956, [181]); (960, [982]); (961, [1009]); (962, [963]); (963, [962]);
  (966, [981]); (976, [946]); (977, [952]); (981, [966]); (982, [960]);
  (1008, [954]); (1009, [961]); (1013, [949]); (1074, [7296]);
  (1076, [7297]); (1086, [7298]); (1089, [7299]); (1090, [7300; 7301]);
  (1098, [7302]); (1123, [7303]); (7296, [1074]); (7297, [1076]);
  (7298, [1086]); (7299, [1089]); (7300, [1090; 7301]);
  (7301, [1090; 7300]); (7302, [1098]); (7303, [1123]); (7304, [42571]);
  (7777, [7835]); (7835, [7777]); (8126, [837; 953]); (8147, [912]);
  (8163, [944]); (42571, [7304]); (64261, [64262]); (64262, [64261])
].

Definition extra_cases (lo : N) : list N :=
  match List.find (fun kv => fst kv =? lo) _EXTRA_CASES with
  | Some kv => snd kv
  | None => []
  end.

Section Matcher.
Context {U : Unicode}.
(** [re.IGNORECASE] *)
Variable ic : bool.

Definition is_word (c : N) : bool := cp_alnum c || (c =? 95).

(** Whether [re] takes a character of a pattern to have two cases. *)
Definition iscased (c : N) : bool :=
  negb (c =? cp_lower c) || negb (c =? cp_upper c).

(** A lowered character [y] of the text against the character [c] of a
    pattern: the lower case of [c], or one of its extra cases. *)
Definition folds_to (c y : N) : bool :=
  (y =? cp_lower c) || existsb (N.eqb y) (extra_cases (cp_lower c)).

(** A literal. Under [re.IGNORECASE] a character with two cases is
    compared in lower case. *)
Definition lit_match (c x : N) : bool :=
  if ic && iscased c then folds_to c (cp_lower x) else x =? c.

(** An item of a set against the character itself. *)
Definition item_match (x : N) (it : cls_item) : bool :=
  match it with
  | CChar c => x =? c
  | CRange lo hi => in_range lo hi x
  | CDigit => match cp_digit x with Some _ => true | None => false end
  | CSpace => cp_space x
  | CWord => is_word x
  end.

(** The set that [re.IGNORECASE] makes of the items is a table of the
    characters of the Basic Multilingual Plane: an item whose lower case
    lies outside is kept beside the table as it is written. *)
Definition in_table (c : N) : bool := cp_lower c <? 65536.

Definition range_length (lo hi : N) : nat := N.to_nat (hi + 1 - lo).

(** The characters [i], [i + 1], ... of a range, [n] of them, that are
    entered in the table: those before the first that is not. *)
Fixpoint range_folds (y : N) (n : nat) (i : N) : bool :=
  match n with
  | O => false
  | S k => in_table i && (folds_to i y || range_folds y k (i + 1))
  end.

Fixpoint range_has (ok : N -> bool) (n : nat) (i : N) : bool :=
  match n with
  | O => false
  | S k => ok i || range_has ok k (i + 1)
  end.

(** Whether an item makes its set one that is matched in lower case. *)
Definition item_cased (it : cls_item) : bool :=
  match it with
  | CChar c => iscased c || negb (in_table c)
  | CRange lo hi =>
      range_has (fun i => iscased i || negb (in_table i))
        (range_length lo hi) lo
  | _ => false
  end.

(** An item of such a set against the lowered character [y]. *)
Definition item_match_folded (y : N) (it : cls_item) : bool :=
  match it with
  | CChar c => if in_table c then folds_to c y else y =? c
  | CRange lo hi =>
      range_folds y (range_length lo hi) lo
      || (range_has (fun i => negb (in_table i)) (range_length lo hi) lo
          && (in_range lo hi y || in_range lo hi (cp_upper y)))
  | _ => item_match y it
  end.

(** The character of a set that holds one character and nothing else,
    however often it is written. *)
Definition single_literal (items : list cls_item) : option N :=
  match items with
  | CChar c :: r =>
      if forallb (fun it => match it with
                            | CChar c' => c' =? c
                            | _ => false
                            end) r
      then Some c else None
  | _ => None
  end.

(** A set; a set of one character is the literal or its negation. *)
Definition set_match (neg : bool) (items : list cls_item) (x : N) : bool :=
  xorb neg
    match single_literal items with
    | Some c => lit_match c x
    | None =>
        if ic && existsb item_cased items
        then existsb (item_match_folded (cp_lower x)) items
        else existsb (item_match x) items
    end.

Definition word_opt (c : option N) : bool :=
  match c with
  | Some x => is_word x
  | None => false
  end.

(** One character, when [ok] accepts it. *)
Definition eat (ok : N -> bool) (st : mstate) : list mstate :=
  match ms_rest st with
  | x :: t => if ok x then [MState (Some x) t (ms_caps st)] else []
  | [] => []
  end.

Fixpoint run (r : re) (st : mstate) : list mstate :=
  match r with
  | REps => [st]
  | RLit c => eat (lit_match c) st
  | RDot => eat (fun x => negb (x =? NL)) st
  | RSet neg items => eat (set_match neg items) st
  | RBoundary =>
      if xorb (word_opt (ms_prev st)) (word_opt (head (ms_rest st)))
      then [st] else []
  | REnd =>
      match ms_rest st with
      | [] => [st]
      | [c] => if c =? NL then [st] else []
      | _ => []
      end
  | RCat a b => flat_map (run b) (run a st)
  | RAlt a b => run a st ++ run b st
  | RRep lo hi greedy a =>
      rep_loop (run a) (lo + S (length (ms_rest st))) lo hi greedy st
  | RGroup i a => List.map (capture i st) (run a st)
  | RNotAhead a =>
      match run a st with
      | [] => [st]
      | _ :: _ => []
      end
  end.

(** The leftmost position at which the pattern matches. *)
Fixpoint search_from (r : re) (prev : option N) (s : str) : option rmatch :=
  match run r (MState prev s []) with
  | st' :: _ =>
      Some (RMatch (consumed (MState prev s []) st') (ms_caps st'))
  | [] =>
      match s with
      | [] => None
      | c :: t => search_from r (Some c) t
      end
  end.

(** [re.search(pattern, s)]; a pattern that does not compile finds
    nothing. *)
Definition re_search (pattern : str) (s : str) : option rmatch :=
  match re_parse pattern with
  | Some r => search_from r None s
  | None => None
  end.
End Matcher.

(** [m.group(i)] for a capturing group; [None] when it took no part. *)
Fixpoint assoc_group (i : nat) (caps : list (nat * str)) : option str :=
  match caps with
  | [] => None
  | (j, s) :: r => if Nat.eqb i j then Some s else assoc_group i r
  end.

Definition group (m : rmatch) (i : nat) : option str :=
  assoc_group i (m_caps m).

(** A literal with double quotes in it: each backtick stands for one. *)
Definition uq (s : string) : str :=
  List.map (fun c => if c =? 96 then 34 else c) (u s).
Arguments uq s%_string.

(* ================================================================== *)
(** * Calendar dates ([datetime]) *)
(* ================================================================== *)

Local Open Scope Z_scope.

Record date := Date { d_year : Z; d_month : Z; d_day : Z }.

Definition is_leap (y : Z) : bool :=
  ((y mod 4 =? 0) && negb (y mod 100 =? 0)) || (y mod 400 =? 0).

Definition days_in_month (y m : Z) : Z :=
  if m =? 2 then (if is_leap y then 29 else 28)
  else if (m =? 4) || (m =? 6) || (m =? 9) || (m =? 11) then 30
  else 31.

(** [datetime(year, month, day)]; [None] is [ValueError]. *)
Definition mk_date (y m d : Z) : option date :=
  if (1 <=? y) && (y <=? 9999) && (1 <=? m) && (m <=? 12)
     && (1 <=? d) && (d <=? days_in_month y m)
  then Some (Date y m d) else None.

Definition next_day (d : date) : date :=
  if d_day d <? days_in_month (d_year d) (d_month d)
  then Date (d_year d) (d_month d) (d_day d + 1)
  else if d_month d <? 12 then Date (d_year d) (d_month d + 1) 1
  else Date (d_year d + 1) 1 1.

(** [d + timedelta(days=n)]; the clock is taken to be far from
    [datetime.max], where the sum would overflow. *)
Fixpoint add_days (n : nat) (d : date) : date :=
  match n with
  | O => d
  | S k => add_days k (next_day d)
  end.

(** [d.strftime('%d.%m.%Y')] *)
Definition strftime_dmy (d : date) : str :=
  zfill 2 (str_of_Z (d_day d)) ++ u "." ++ zfill 2 (str_of_Z (d_month d))
  ++ u "." ++ str_of_Z (d_year d).

(* ================================================================== *)
(** * [llm_event_extractor.py]: the field extractors *)
(* ================================================================== *)

(** ** Patterns and keyword tables of [_compile_patterns] and [__init__] *)

Definition date_patterns : list str := [
  u "\b(\d{1,2})\.(\d{1,2})\.(\d{4})\b";
  u "\b(\d{1,2})\.(\d{1,2})\b(?!\.)";
  u "\b(понедельник|вторник|среда|четверг|пятница|суббота|воскресенье)\b";
  u "\b(\d{1,2})(\s+)(января|февраля|марта|апреля|мая|июня|июля|августа|сентября|октября|ноября|декабря)(\s+)?(\d{4})?\b";
  u "\b(завтра|сегодня|послезавтра|сейчас)\b";
  u "\b(на|в)\s+(следующей|этой|этой\s+)?[^.]*?(неделе|дню|дата)\b"
].

Definition time_patterns : list str := [
  u "\b(\d{1,2}):(\d{2})\b";
  u "\b(в|с|с\s+|до|по)\s+(\d{1,2}):(\d{2})\b";
  u "\b(\d{1,2}):(\d{2})\s*-\s*(\d{1,2}):(\d{2})\b";
  u "\b(утром|днём|днем|вечером|ночью|с\s+утра|до\s+вечера)\b"
].

Definition location_patterns : list str := [
  u "\b(в|на)\s+(аудитори[яе]|корпус[еа]|зал[еа]|помещени[яе]|кабинет[еа]|комнат[еа]|спортзал[еа]|актовом\s+зал[еа]|конференц-зал[еа]|амфитеатр[еа])\s+([№#]?\d+|\w+)";
  u "\b(на|в|при)\s+(стадион[еа]|театр[еа]|кинотеатр[еа]|музе[еа]|парк[еа]|сквер[еа]|центр[еа]|офис[еа]|ресторан[еа]|кафе)";
  u "\b(онлайн|zoom|microsoft\s+teams|skype|discord|youtube|трансляция|вебинар|видеоконференция)\b";
  u "\b(ул\.|улиц[аи])\s+([А-Яа-яЁё\s]+?)(?:,|$)";
  u "\b(мосполитех|мос\s?политех|московск[ий]?\s+политех)"
].

Definition event_keywords : list str := [
  u "мероприятие"; u "событие"; u "встреча"; u "проводит"; u "приглашаем";
  u "приглашает"; u "состоится"; u "пройдет"; u "проводится"; u "организуют";
  u "объявляет"; u "объявляют"; u "запись"; u "регистрация"; u "анонс";
  u "устраивает"; u "устраивают"; u "расписание"; u "график";
  u "начинается"; u "начало"; u "стартует"; u "запускаем"
].

Definition category_keywords : list (str * list str) := [
  (u "education",
   [u "лекция"; u "семинар"; u "мастер-класс"; u "тренинг"; u "курс";
    u "школа"; u "конференция"; u "дебаты"; u "практикум"; u "консультация"]);
  (u "career",
   [u "профориентация"; u "карьера"; u "стажировка"; u "интернш";
    u "собеседование"; u "работа"; u "вакансия"; u "центр карьеры"]);
  (u "competitions",
   [u "конкурс"; u "фестиваль"; u "олимпиада"; u "чемпионат"; u "турнир";
    u "соревнование"; u "конкурс творчества"; u "конкурс проектов"]);
  (u "exhibitions",
   [u "выставка"; u "экспозиция"; u "выставочный"; u "галерея";
    u "инсталляция"]);
  (u "culture",
   [u "концерт"; u "выступление"; u "танец"; u "танцевальный"; u "кино";
    u "фильм"; u "иллюзион"; u "шоу"; u "перформанс"; u "представление";
    u "спектакль"; u "творческий"; u "вокальный"]);
  (u "volunteering",
   [u "волонтер"; u "волонтёрск"; u "социальн"; u "благотворител";
    u "помощь"; u "акция"; u "инициатива"; u "проект"; u "общественн"]);
  (u "student_life",
   [u "студенческ"; u "студент"; u "встреча"; u "клуб"; u "сообщество";
    u "творческая мастерская"; u "собрание"; u "самоуправлени";
    u "соуправлени"])
].

Definition b2n (b : bool) : nat := if b then 1%nat else 0%nat.

Section Extractors.
Context {U : Unicode}.

(** A group that takes part in every match of its pattern. *)
Definition grp (m : rmatch) (i : nat) : str :=
  match group m i with
  | Some s => s
  | None => []
  end.

Definition matches (ic : bool) (pattern text : str) : bool :=
  match re_search ic pattern text with
  | Some _ => true
  | None => false
  end.

(** ** [is_event_text] *)

Definition event_score (text_lower : str) : nat :=
  length (List.filter (fun keyword => contains keyword text_lower)
            event_keywords).

(** [any(re.search(pattern, text, re.IGNORECASE) for pattern in patterns)] *)
Definition any_match (patterns : list str) (text : str) : bool :=
  existsb (fun pattern => matches true pattern text) patterns.

Definition is_event_text (text : str) : bool :=
  let text_lower := str_lower text in
  let event_score := event_score text_lower in
  let has_date := any_match date_patterns text in
  let has_time := any_match time_patterns text in
  let has_location := any_match location_patterns text in
  let has_keywords := (0 <? event_score)%nat in
  let elements_found :=
    (b2n has_date + b2n has_time + b2n has_location)%nat in
  (has_keywords && (1 <=? elements_found)%nat) || (2 <=? event_score)%nat.

(** ** [extract_date] *)

(** [DD.MM.YYYY], accepted when it is a date of the calendar. *)
Definition date_numeric_full (text : str) : option (str * float) :=
  match re_search false (u "(\d{1,2})\.(\d{1,2})\.(\d{4})") text with
  | Some m =>
      let day := grp m 1 in
      let month := grp m 2 in
      let year := grp m 3 in
      match py_int year, py_int month, py_int day with
      | Some y, Some mo, Some d =>
          match mk_date y mo d with
          | Some _ =>
              Some (zfill 2 day ++ u "." ++ zfill 2 month ++ u "." ++ year,
                    0.95%float)
          | None => None
          end
      | _, _, _ => None
      end
  | None => None
  end.

(** [DD.MM] of the current year. *)
Definition date_numeric_short (now : date) (text : str)
  : option (str * float) :=
  match re_search false (u "(\d{1,2})\.(\d{1,2})(?!\.)") text with
  | Some m =>
      let day := grp m 1 in
      let month := grp m 2 in
      let year := d_year now in
      match py_int month, py_int day with
      | Some mo, Some d =>
          match mk_date year mo d with
          | Some _ =>
              Some (zfill 2 day ++ u "." ++ zfill 2 month ++ u "."
                      ++ str_of_Z year,
                    0.85%float)
          | None => None
          end
      | _, _ => None
      end
  | None => None
  end.

Definition month_names : list (str * Z) := [
  (u "января", 1); (u "февраля", 2); (u "марта", 3); (u "апреля", 4);
  (u "мая", 5); (u "июня", 6); (u "июля", 7); (u "августа", 8);
  (u "сентября", 9); (u "октября", 10); (u "ноября", 11); (u "декабря", 12)
].

Fixpoint dict_get {V} (d : list (str * V)) (k : str) : option V :=
  match d with
  | [] => None
  | (k', v) :: r => if str_eqb k k' then Some v else dict_get r k
  end.

(** [DD <month name> [YYYY]], searched in the lowered text. *)
Definition date_month_name (now : date) (text_lower : str)
  : option (str * float) :=
  match re_search false
          (u "(\d{1,2})\s+(января|февраля|марта|апреля|мая|июня|июля|августа|сентября|октября|ноября|декабря)(?:\s+(\d{4}))?")
          text_lower with
  | Some m =>
      let day := grp m 1 in
      let month_name := grp m 2 in
      let year :=
        match group m 3 with
        | Some y => y
        | None => str_of_Z (d_year now)
        end in
      match dict_get month_names month_name, py_int year, py_int day with
      | Some month, Some y, Some d =>
          match mk_date y month d with
          | Some _ =>
              Some (zfill 2 day ++ u "." ++ zfill 2 (str_of_Z month)
                      ++ u "." ++ year,
                    0.90%float)
          | None => None
          end
      | _, _, _ => None
      end
  | None => None
  end.

(** [now] is [datetime.now(self.moscow_tz)], the date in Moscow. *)
Definition extract_date (now : date) (text : str) : str * float :=
  let text_lower := str_lower text in
  if contains (u "завтра") text_lower then
    (strftime_dmy (add_days 1 now), 0.95%float)
  else if contains (u "сегодня") text_lower then
    (strftime_dmy now, 0.95%float)
  else if contains (u "послезавтра") text_lower then
    (strftime_dmy (add_days 2 now), 0.95%float)
  else
    match date_numeric_full text with
    | Some r => r
    | None =>
        match date_numeric_short now text with
        | Some r => r
        | None =>
            match date_month_name now text_lower with
            | Some r => r
            | None => (u "Не указана", 0%float)
            end
        end
    end.

(** ** [extract_time] *)

Definition time_words : list (str * str) := [
  (u "утро", u "09:00"); (u "днём", u "14:00"); (u "днем", u "14:00");
  (u "вечер", u "18:00"); (u "ночь", u "20:00")
].

(** The single [HH:MM]: the conversions to [int] are all the checking
    the code does. *)
Definition time_single (text : str) : option (str * float) :=
  match re_search false (u "\b(\d{1,2}):(\d{2})\b") text with
  | Some m =>
      let hour := grp m 1 in
      let minute := grp m 2 in
      match py_int hour, py_int minute with
      | Some _, Some _ => Some (zfill 2 hour ++ u ":" ++ minute, 0.90%float)
      | _, _ => None
      end
  | None => None
  end.

Definition extract_time (text : str) : str * float :=
  let text_lower := str_lower text in
  match re_search false (u "(\d{1,2}):(\d{2})\s*-\s*(\d{1,2}):(\d{2})")
          text with
  | Some m =>
      (zfill 2 (grp m 1) ++ u ":" ++ grp m 2 ++ u " - "
         ++ zfill 2 (grp m 3) ++ u ":" ++ grp m 4,
       0.95%float)
  | None =>
      match time_single text with
      | Some r => r
      | None =>
          match List.find (fun wt => contains (fst wt) text_lower)
                  time_words with
          | Some (_, time_val) => (time_val, 0.70%float)
          | None => (u "Не указано", 0%float)
          end
      end
  end.
End Extractors.

Section PlaceCategoryTitle.
Context {U : Unicode}.

(** ** [extract_location] *)

Definition online_platforms : list str :=
  [u "zoom"; u "teams"; u "skype"; u "discord"; u "youtube";
   u "youtube live"].

Definition locations_keywords : list (str * str) := [
  (u "стадион", u "Стадион Политеха");
  (u "театр", u "Театр");
  (u "концертный зал", u "Концертный зал");
  (u "спортзал", u "Спортзал");
  (u "актовый зал", u "Актовый зал");
  (u "конференц-зал", u "Конференц-зал")
].

Definition extract_location (text : str) : str * float :=
  let text_lower := str_lower text in
  match List.find (fun platform => contains platform text_lower)
          online_platforms with
  | Some platform =>
      (u "Онлайн (" ++ str_upper platform ++ u ")", 0.95%float)
  | None =>
      if contains (u "онлайн") text_lower
         || contains (u "трансляция") text_lower
         || contains (u "вебинар") text_lower
      then (u "Онлайн", 0.90%float)
      else
        match re_search true
                (u "\b(аудитори[яе]|корпус[еа]|кабинет[еа]|помещени[яе]|зал[еа])\s+([№#]?[\dА-Яа-яЁё\s\-/]+?)(?:\n|,|\.|$)")
                text with
        | Some m =>
            let location_type := grp m 1 in
            let location_num := strip (grp m 2) in
            (str_capitalize location_type ++ u " " ++ location_num,
             0.90%float)
        | None =>
            match List.find (fun kl => contains (fst kl) text_lower)
                    locations_keywords with
            | Some (_, location_name) => (location_name, 0.85%float)
            | None =>
                if contains (u "мосполитех") text_lower
                   || contains (u "политех") text_lower
                then (u "Московский Политех", 0.70%float)
                else (u "Не указано", 0%float)
            end
        end
  end.

(** ** [extract_category] *)

(** The categories that score, in the order of the table. *)
Definition category_scores (text_lower : str) : list (str * nat) :=
  List.filter (fun cs => (0 <? snd cs)%nat)
    (List.map
       (fun ck =>
          (fst ck,
           length (List.filter (fun keyword => contains keyword text_lower)
                     (snd ck))))
       category_keywords).

(** [max(scores, key=scores.get)]: the first key of the greatest score. *)
Fixpoint max_by_score (best : str * nat) (l : list (str * nat)) : str :=
  match l with
  | [] => fst best
  | cs :: r =>
      if (snd best <? snd cs)%nat then max_by_score cs r
      else max_by_score best r
  end.

Definition extract_category (text : str) : str :=
  let text_lower := str_lower text in
  match category_scores text_lower with
  | cs :: r => max_by_score cs r
  | [] => u "student_life"
  end.

(** ** [extract_title] *)

Definition extract_title (text : str) : str :=
  match split_on NL text with
  | line0 :: _ =>
      let title := strip line0 in
      if (100 <? length title)%nat then firstn 97 title ++ u "..."
      else title
  | [] => firstn 100 (join (u " ") (firstn 8 (split_ws text)))
  end.
End PlaceCategoryTitle.

(* ================================================================== *)
(** * [llm_event_extractor.py]: records, model handle and refinement *)
(* ================================================================== *)

(** A value read by [json.loads]; a number keeps its literal. *)
Inductive json :=
| JNull
| JBool (b : bool)
| JNum (literal : str)
| JStr (s : str)
| JArr (l : list json)
| JObj (items : list (str * json)).

(** [EventData]. The five descriptive fields hold whatever the refinement
    put there: a heuristic record holds strings ([JStr]), a refined one
    the values of the model's JSON object. *)
Record EventData := {
  ev_title : json;
  ev_date : json;
  ev_time : json;
  ev_location : json;
  ev_description : json;
  ev_category : str;
  ev_telegram_url : str;
  ev_confidence : float
}.

(** What the code takes from libraries other than [re]. *)
Class Lib := {
  (** [json.loads]; [None] when it raises *)
  json_loads : str -> option json;
  (** [hashlib.md5(content.encode('utf-8')).hexdigest()] *)
  md5_hexdigest : str -> str
}.

(** How a call of [HuggingFaceHandler.load_model] ends: it returns, or
    raises while loading the tokenizer or while loading the model. *)
Inductive load_outcome := LoadOk | TokenizerRaises | ModelRaises.

(** [HuggingFaceHandler]: whether [model] and [tokenizer] are set. *)
Record HuggingFaceHandler := {
  hf_model : bool;
  hf_tokenizer : bool
}.

(** The model: how the [n]-th call of [load_model] ends, and what the
    [n]-th generation decodes to for a prompt ([None] when it raises). *)
Record Model := {
  load_model_outcome : nat -> load_outcome;
  generate : nat -> str -> option str
}.

(** [RussianEventExtractor]: its attributes, and two counters that the
    code does not have: the calls of [load_model] and of the model's
    generation made so far. *)
Record Extractor := {
  use_llm : bool;
  _llm : option HuggingFaceHandler;
  _llm_loaded : bool;
  _llm_error : bool;
  load_calls : nat;
  generate_calls : nat
}.

(** [RussianEventExtractor(use_llm)] *)
Definition new_extractor (use_llm : bool) : Extractor :=
  {| use_llm := use_llm; _llm := None; _llm_loaded := false;
     _llm_error := false; load_calls := 0; generate_calls := 0 |}.

(** [RefinementState] of the specification, read off the attributes. *)
Inductive RefinementState := Unloaded | Loaded | Failed.

Definition refinement_state (self : Extractor) : RefinementState :=
  if _llm_error self then Failed
  else if _llm_loaded self then Loaded
  else Unloaded.

(** [load_model]: the handle after the call, and whether it returned. *)
Definition load_model (o : load_outcome) : HuggingFaceHandler * bool :=
  match o with
  | LoadOk => ({| hf_model := true; hf_tokenizer := true |}, true)
  | TokenizerRaises => ({| hf_model := false; hf_tokenizer := false |}, false)
  | ModelRaises => ({| hf_model := false; hf_tokenizer := true |}, false)
  end.

(** ** [_get_llm] *)

Definition _get_llm (md : Model) (self : Extractor)
  : option HuggingFaceHandler * Extractor :=
  if _llm_error self then (None, self)
  else
    match _llm_loaded self, _llm self with
    | true, Some h => (Some h, self)
    | false, _ =>
        let '(h, returned) :=
          load_model (load_model_outcome md (load_calls self)) in
        if returned then
          (Some h,
           {| use_llm := use_llm self; _llm := Some h; _llm_loaded := true;
              _llm_error := _llm_error self;
              load_calls := S (load_calls self);
              generate_calls := generate_calls self |})
        else
          (None,
           {| use_llm := false; _llm := Some h;
              _llm_loaded := _llm_loaded self; _llm_error := true;
              load_calls := S (load_calls self);
              generate_calls := generate_calls self |})
    | true, None => (None, self)
    end.

(** The text after the last occurrence of [sep]: [s.split(sep)[-1]], for
    a separator that cannot overlap itself. *)
Fixpoint after_last (sep : str) (s : str) : str :=
  match s with
  | [] => []
  | c :: r =>
      if contains sep r then after_last sep r
      else if starts_with sep s then skipn (length sep) s
      else s
  end.

Section Refinement.
Context {U : Unicode} {L : Lib}.

(** [HuggingFaceHandler.generate_response]: the answer, and whether the
    model was run. *)
Definition generate_response (md : Model) (h : HuggingFaceHandler)
    (n : nat) (prompt : str) : option str * bool :=
  if negb (hf_model h) || negb (hf_tokenizer h) then (None, false)
  else
    let formatted_prompt :=
      u "<human>: " ++ prompt ++ [NL] ++ u "<assistant>:" in
    match generate md n formatted_prompt with
    | Some response =>
        (Some (strip (after_last (u "<assistant>:") response)), true)
    | None => (None, true)
    end.

(** [extracted_info] *)
Record info := {
  i_title : str;
  i_date : str;
  i_time : str;
  i_location : str;
  i_category : str
}.

Definition prompt_of (text : str) (extracted_info : info) : str :=
  u "Проанализируй следующий текст о событии на русском языке.

Уже извлечена информация:
- Название: " ++ i_title extracted_info ++ u "
- Дата: " ++ i_date extracted_info ++ u "
- Время: " ++ i_time extracted_info ++ u "
- Место: " ++ i_location extracted_info ++ u "
- Категория: " ++ i_category extracted_info ++ u "

Текст события:
" ++ text ++ uq "

Задача: Проверь извлеченную информацию и уточни её, если необходимо.
Если информация упущена или неточна, дополни её.

Верни ТОЛЬКО JSON без дополнительного текста:
{
    `title`: `Точное название события`,
    `date`: `Дата в формате ДД.ММ.ГГГГ или описание`,
    `time`: `Время в формате ЧЧ:МММ или описание`,
    `location`: `Место проведения`,
    `description`: `Краткое описание события (2-3 предложения)`
}".

Definition json_pattern : str := u "\{[^{}]*(?:\{[^{}]*\}[^{}]*)*\}".

(** [data.get(key, default)] of a [dict]. *)
Definition data_get (items : list (str * json)) (key : str) (default : json)
  : json :=
  match dict_get items key with
  | Some v => v
  | None => default
  end.

(** [v[:n]]; [None] is the [TypeError] of a value that has no slices. *)
Definition slice_to (n : nat) (v : json) : option json :=
  match v with
  | JStr s => Some (JStr (firstn n s))
  | JArr l => Some (JArr (firstn n l))
  | _ => None
  end.

(** The record built from the parsed answer; [None] when that raises. *)
Definition refined_event (data : json) (text : str) (extracted_info : info)
  : option EventData :=
  match data with
  | JObj items =>
      match slice_to 150
              (data_get items (u "title") (JStr (i_title extracted_info)))
      with
      | Some title =>
          Some {| ev_title := title;
                  ev_date :=
                    data_get items (u "date") (JStr (i_date extracted_info));
                  ev_time :=
                    data_get items (u "time") (JStr (i_time extracted_info));
                  ev_location :=
                    data_get items (u "location")
                      (JStr (i_location extracted_info));
                  ev_description :=
                    data_get items (u "description")
                      (JStr (firstn 500 text));
                  ev_category := i_category extracted_info;
                  ev_telegram_url := [];
                  ev_confidence := 0.85%float |}
      | None => None
      end
  | _ => None
  end.

(** The part of [_refine_with_llm] that reads the model's answer. *)
Definition parse_response (response : option str) (text : str)
    (extracted_info : info) : option EventData :=
  match response with
  | None => None
  | Some [] => None
  | Some response =>
      match re_search false json_pattern response with
      | None => None
      | Some json_match =>
          match json_loads (m_text json_match) with
          | Some data => refined_event data text extracted_info
          | None => None
          end
      end
  end.

(** ** [_refine_with_llm] *)

Definition _refine_with_llm (md : Model) (self : Extractor) (text : str)
    (extracted_info : info) : option EventData * Extractor :=
  let '(llm, self) := _get_llm md self in
  match llm with
  | None => (None, self)
  | Some h =>
      let prompt := prompt_of text extracted_info in
      let '(response, ran) :=
        generate_response md h (generate_calls self) prompt in
      let self :=
        {| use_llm := use_llm self; _llm := _llm self;
           _llm_loaded := _llm_loaded self; _llm_error := _llm_error self;
           load_calls := load_calls self;
           generate_calls :=
             (if ran then S (generate_calls self)
              else generate_calls self) |} in
      (parse_response response text extracted_info, self)
  end.

(** [min(a, b)] of Python: [b] when it is less than [a], else [a]. *)
Definition py_min (a b : float) : float :=
  if PrimFloat.ltb b a then b else a.

(** ** [extract_event_info] *)

(** The record of the regular expressions alone. *)
Definition heuristic_event (now : date) (text telegram_url : str)
  : EventData :=
  let '(date, date_conf) := extract_date now text in
  let '(time, time_conf) := extract_time text in
  let '(location, location_conf) := extract_location text in
  let confidence := ((date_conf + time_conf + location_conf) / 3)%float in
  let description :=
    if (500 <? length text)%nat then firstn 500 text else text in
  {| ev_title := JStr (extract_title text);
     ev_date := JStr date;
     ev_time := JStr time;
     ev_location := JStr location;
     ev_description := JStr description;
     ev_category := extract_category text;
     ev_telegram_url := telegram_url;
     ev_confidence := py_min confidence 1 |}.

Definition extract_event_info (md : Model) (now : date) (self : Extractor)
    (text telegram_url : str) : option EventData * Extractor :=
  if negb (is_event_text text) then (None, self)
  else
    let '(date, _) := extract_date now text in
    let '(time, _) := extract_time text in
    let '(location, _) := extract_location text in
    let category := extract_category text in
    let title := extract_title text in
    let '(event_data, self) :=
      if use_llm self then
        _refine_with_llm md self text
          {| i_title := title; i_date := date; i_time := time;
             i_location := location; i_category := category |}
      else (None, self) in
    match event_data with
    | Some refined => (Some refined, self)
    | None => (Some (heuristic_event now text telegram_url), self)
    end.
End Refinement.

Section Batch.
Context {U : Unicode} {L : Lib}.

(** ** [process_batch] *)

(** [extract_event_info] over the texts in turn, threading the
    extractor. *)
Fixpoint extract_each (md : Model) (now : date) (self : Extractor)
    (texts : list (str * str)) : list (option EventData) * Extractor :=
  match texts with
  | [] => ([], self)
  | (text, url) :: r =>
      let '(result, self) := extract_event_info md now self text url in
      let '(results, self) := extract_each md now self r in
      (result :: results, self)
  end.

(** The loop that fills [batch_results], a [dict] keyed by the URL. The
    batches of five are visited in order, which makes one pass over
    [event_texts]. *)
Fixpoint fill_batch_results (md : Model) (now : date) (self : Extractor)
    (event_texts : list (str * str))
    (batch_results : gmap str (option EventData))
  : gmap str (option EventData) * Extractor :=
  match event_texts with
  | [] => (batch_results, self)
  | (text, url) :: r =>
      let '(event_data, self) := extract_event_info md now self text url in
      fill_batch_results md now self r (<[url := event_data]> batch_results)
  end.

Definition process_batch (md : Model) (now : date) (self : Extractor)
    (texts : list (str * str)) : list (option EventData) * Extractor :=
  if negb (use_llm self) then extract_each md now self texts
  else
    let event_texts :=
      List.filter (fun tu => is_event_text (fst tu)) texts in
    let results :=
      List.map (fun _ => @None EventData)
        (List.filter (fun tu => negb (is_event_text (fst tu))) texts) in
    match event_texts with
    | [] => (results, self)
    | _ :: _ =>
        let '(_, self) := _get_llm md self in
        let '(batch_results, self) :=
          fill_batch_results md now self event_texts ∅ in
        (List.map
           (fun tu =>
              if is_event_text (fst tu) then
                match batch_results !! snd tu with
                | Some event_data => event_data
                | None => None
                end
              else None)
           texts,
         self)
    end.
End Batch.

(* ================================================================== *)
(** * [telegram_parser_v2.py] *)
(* ================================================================== *)

(** ** [_fetch_page] *)

(** How one [client.get] ends: a response, a [httpx.RequestError], or an
    exception that the loop does not catch. *)
Inductive http_outcome :=
| Response (status_code : Z) (text : str)
| RequestError
| OtherError.

(** What [_fetch_page] does that can be seen from outside. *)
Inductive fetch_event :=
| Request (attempt : Z)
| Sleep (wait_time : Z).

(** What [_fetch_page] gives back: the page, [None], or the exception. *)
Inductive fetch_result :=
| Page (html : str)
| NoPage
| FetchRaised.

(** The parser's settings, [Config.PARSER_*] by default. *)
Record Settings := {
  days_back : Z;
  max_retries : Z;
  retry_delay : Z
}.

Definition default_settings : Settings :=
  {| days_back := 20; max_retries := 3; retry_delay := 2 |}.

(** The iterations [attempt], [attempt + 1], ... of the loop, [todo] of
    them; [get k] is how the request of iteration [k] ends. *)
Fixpoint fetch_loop (cfg : Settings) (get : Z -> http_outcome) (todo : nat)
    (attempt : Z) : fetch_result * list fetch_event :=
  match todo with
  | O => (NoPage, [])
  | S todo' =>
      (* what follows a request that failed *)
      let failed :=
        let '(result, evs) := fetch_loop cfg get todo' (attempt + 1) in
        if attempt <? max_retries cfg - 1 then
          let wait_time := Z.min (retry_delay cfg * 2 ^ attempt) 30 in
          (result, Request attempt :: Sleep wait_time :: evs)
        else (result, Request attempt :: evs) in
      match get attempt with
      | Response status_code text =>
          if status_code =? 200 then (Page text, [Request attempt])
          else failed
      | RequestError => failed
      | OtherError => (FetchRaised, [Request attempt])
      end
  end.

Definition _fetch_page (cfg : Settings) (get : Z -> http_outcome)
  : fetch_result * list fetch_event :=
  fetch_loop cfg get (Z.to_nat (max_retries cfg)) 0.

(** What a run meets outside the program. *)
Record World := {
  w_model : Model;
  (** [datetime.now(self.moscow_tz)]: the date in Moscow and the instant *)
  w_today : date;
  w_now : Z;
  (** how the request of an iteration of [_fetch_page] for a URL ends *)
  w_get : str -> Z -> http_outcome;
  (** whether writing the files of the events of a channel raises *)
  w_save_raises : str -> bool
}.

(** ** [_clean_text] *)

Definition skip_markers : list str :=
  [u "views"; u "forward"; u "подписаться"; u "subscribe"; u "reactions";
   u "комментарий"; u "просмотр"].

Section Parser.
Context {U : Unicode} {L : Lib}.

Definition clean_line (line : str) : option str :=
  let line := strip line in
  match line with
  | [] => None
  | _ =>
      if existsb (fun skip => contains skip (str_lower line)) skip_markers
      then None
      else Some line
  end.

Definition _clean_text (text : str) : str :=
  strip (join [NL] (omap clean_line (split_on NL text))).

(** ** Messages *)

(** [TelegramMessage]; [msg_datetime] is the instant, in microseconds. *)
Record TelegramMessage := {
  msg_id : str;
  msg_text : str;
  msg_datetime : Z;
  msg_url : str;
  msg_channel : str;
  message_hash : str
}.

(** What [parse_channel] looks up in one [div.tgme_widget_message]:
    the [datetime] attribute of its [time] tag, the text of its text
    block, and its date link with the [href] the link may have. *)
Record message_div := {
  time_tag : option str;
  text_div : option str;
  msg_link : option (option str)
}.

(** The page and the clock. *)
Record Page_lib := {
  (** the message blocks [BeautifulSoup] finds; [None] when it raises *)
  find_message_divs : str -> option (list message_div);
  (** [datetime.fromisoformat], as UTC when naive: the instant; [None]
      when it raises *)
  fromisoformat : str -> option Z;
  (** [datetime.isoformat] of an instant shown in Moscow time *)
  isoformat : Z -> str
}.

Context (P : Page_lib).

Definition _generate_message_hash (text : str) (datetime : Z)
    (channel : str) : str :=
  md5_hexdigest (text ++ u "|" ++ isoformat P datetime ++ u "|" ++ channel).

Definition microseconds_per_day : Z := 86400 * 1000000.

(** One turn of the loop over the blocks: the message the block gives,
    if it gives one. *)
Definition parse_div (cutoff_date : Z) (channel_name : str)
    (div : message_div) : option TelegramMessage :=
  match time_tag div with
  | None => None
  | Some datetime_attr =>
      match fromisoformat P datetime_attr with
      | None => None
      | Some msg_date =>
          if msg_date <? cutoff_date then None
          else
            match text_div div with
            | None => None
            | Some raw =>
                let text := _clean_text raw in
                if (length text <? 10)%nat then None
                else
                  match msg_link div with
                  | Some (Some msg_url) =>
                      Some {| msg_id := after_last (u "/") msg_url;
                              msg_text := text;
                              msg_datetime := msg_date;
                              msg_url := msg_url;
                              msg_channel := channel_name;
                              message_hash :=
                                _generate_message_hash text msg_date
                                  channel_name |}
                  | _ => None
                  end
            end
      end
  end.

(** The loop over the blocks, with the filter of duplicates. *)
Fixpoint parse_divs (cutoff_date : Z) (channel_name : str)
    (seen_messages : gset str) (divs : list message_div)
  : list TelegramMessage * gset str :=
  match divs with
  | [] => ([], seen_messages)
  | div :: r =>
      match parse_div cutoff_date channel_name div with
      | Some message =>
          if bool_decide (message_hash message ∈ seen_messages)
          then parse_divs cutoff_date channel_name seen_messages r
          else
            let '(messages, seen) :=
              parse_divs cutoff_date channel_name
                ({[message_hash message]} ∪ seen_messages) r in
            (message :: messages, seen)
      | None => parse_divs cutoff_date channel_name seen_messages r
      end
  end.

(** ** [parse_channel] *)

(** [None] stands for an exception of the fetch, which is the caller's to
    catch. *)
Definition parse_channel (cfg : Settings) (w : World)
    (seen_messages : gset str) (channel_name : str)
  : option (list TelegramMessage) * gset str :=
  let url := u "https://t.me/s/" ++ channel_name in
  let '(html, _) := _fetch_page cfg (w_get w url) in
  match html with
  | FetchRaised => (None, seen_messages)
  | NoPage => (Some [], seen_messages)
  | Page [] => (Some [], seen_messages)
  | Page html =>
      let cutoff_date := w_now w - days_back cfg * microseconds_per_day in
      match find_message_divs P html with
      | None => (Some [], seen_messages)
      | Some message_divs =>
          let '(messages, seen) :=
            parse_divs cutoff_date channel_name seen_messages
              message_divs in
          (Some messages, seen)
      end
  end.
End Parser.

(** ** [process_channel_messages] and [parse_and_process] *)

(** The statistics of one channel. *)
Record channel_stats := {
  total : nat;
  events : nat;
  skipped : nat
}.

(** The statistics of a run. *)
Record Statistics := {
  total_channels : nat;
  processed : nat;
  failed : nat;
  total_messages : nat;
  total_events : nat;
  channels_stats : gmap str channel_stats
}.

(** [TelegramParserV2]: its attributes that change, and the events that
    [_save_results] wrote, by channel. *)
Record TelegramParserV2 := {
  seen_messages : gset str;
  extractor : Extractor;
  saved : list (str * list EventData)
}.

Definition new_parser (use_llm : bool) : TelegramParserV2 :=
  {| seen_messages := ∅; extractor := new_extractor use_llm; saved := [] |}.

Section Fleet.
Context {U : Unicode} {L : Lib}.
Context (P : Page_lib) (cfg : Settings) (w : World).

(** [messages.sort(key=lambda x: x.datetime)]: ascending and stable, a
    message going before those of the same instant that came after it. *)
Fixpoint insert_by_datetime (m : TelegramMessage)
    (sorted : list TelegramMessage) : list TelegramMessage :=
  match sorted with
  | [] => [m]
  | x :: r =>
      if msg_datetime m <=? msg_datetime x then m :: sorted
      else x :: insert_by_datetime m r
  end.

Definition sort_by_datetime (messages : list TelegramMessage)
  : list TelegramMessage :=
  fold_right insert_by_datetime [] messages.

(** The events among the results, each with the URL of its message. *)
Fixpoint collect_events
    (pairs : list (TelegramMessage * option EventData)) : list EventData :=
  match pairs with
  | [] => []
  | (msg, Some event_data) :: r =>
      {| ev_title := ev_title event_data;
         ev_date := ev_date event_data;
         ev_time := ev_time event_data;
         ev_location := ev_location event_data;
         ev_description := ev_description event_data;
         ev_category := ev_category event_data;
         ev_telegram_url := msg_url msg;
         ev_confidence := ev_confidence event_data |}
        :: collect_events r
  | (_, None) :: r => collect_events r
  end.

Definition count_skipped
    (pairs : list (TelegramMessage * option EventData)) : nat :=
  length (List.filter
            (fun p => match snd p with Some _ => false | None => true end)
            pairs).

(** [_save_results] writes the files of a channel when there are events,
    and only then can it raise; [None] is its exception. *)
Definition process_channel_messages (self : TelegramParserV2)
    (messages : list TelegramMessage) (channel_name : str)
  : option channel_stats * TelegramParserV2 :=
  match messages with
  | [] => (Some {| total := 0; events := 0; skipped := 0 |}, self)
  | _ :: _ =>
      let messages := sort_by_datetime messages in
      let batch_data :=
        List.map (fun msg => (msg_text msg, msg_url msg)) messages in
      let '(batch_results, ex) :=
        process_batch (w_model w) (w_today w) (extractor self) batch_data in
      let pairs := combine messages batch_results in
      let events := collect_events pairs in
      let skipped := count_skipped pairs in
      let stats :=
        {| total := length messages; events := length events;
           skipped := skipped |} in
      match events with
      | [] =>
          (Some stats,
           {| seen_messages := seen_messages self; extractor := ex;
              saved := saved self |})
      | _ :: _ =>
          if w_save_raises w channel_name then
            (None,
             {| seen_messages := seen_messages self; extractor := ex;
                saved := saved self |})
          else
            (Some stats,
             {| seen_messages := seen_messages self; extractor := ex;
                saved := saved self ++ [(channel_name, events)] |})
      end
  end.

(** [parse_and_process_channel]: the statistics of the channel, or
    [None]. *)
Definition parse_and_process_channel (self : TelegramParserV2)
    (channel : str) : option channel_stats * TelegramParserV2 :=
  let '(messages, seen) :=
    parse_channel P cfg w (seen_messages self) channel in
  let self :=
    {| seen_messages := seen; extractor := extractor self;
       saved := saved self |} in
  match messages with
  | None => (None, self)
  | Some [] => (None, self)
  | Some messages => process_channel_messages self messages channel
  end.

(** The loop over [results] that fills [statistics]. *)
Definition count_result (statistics : Statistics)
    (result : str * option channel_stats) : Statistics :=
  match result with
  | (channel, Some stats) =>
      {| total_channels := total_channels statistics;
         processed := S (processed statistics);
         failed := failed statistics;
         total_messages := total_messages statistics + total stats;
         total_events := total_events statistics + events stats;
         channels_stats := <[channel := stats]> (channels_stats statistics) |}
  | (_, None) =>
      {| total_channels := total_channels statistics;
         processed := processed statistics;
         failed := S (failed statistics);
         total_messages := total_messages statistics;
         total_events := total_events statistics;
         channels_stats := channels_stats statistics |}
  end.

(** The channels are taken one after the other, in the order of the
    list: the order in which [asyncio.gather] returns their results. *)
Fixpoint run_channels (self : TelegramParserV2) (channels : list str)
  : list (str * option channel_stats) * TelegramParserV2 :=
  match channels with
  | [] => ([], self)
  | channel :: r =>
      let '(stats, self) := parse_and_process_channel self channel in
      let '(results, self) := run_channels self r in
      ((channel, stats) :: results, self)
  end.

Definition parse_and_process (self : TelegramParserV2)
    (channels : list str) : Statistics * TelegramParserV2 :=
  let statistics :=
    {| total_channels := length channels; processed := 0; failed := 0;
       total_messages := 0; total_events := 0; channels_stats := ∅ |} in
  let '(results, self) := run_channels self channels in
  (fold_left count_result results statistics, self).
End Fleet.

(* ================================================================== *)
(** * Definitions used to state the properties *)
(* ================================================================== *)

(** ** Instances for closed examples *)

(** A [json] that parses nothing and a digest that is the content itself:
    enough to run the parts of the pipeline that do not depend on them. *)
#[export] Instance basic_lib : Lib :=
  {| json_loads := fun _ => None; md5_hexdigest := fun s => s |}.

(** A model whose loading always raises. *)
Definition failing_model : Model :=
  {| load_model_outcome := fun _ => ModelRaises;
     generate := fun _ _ => None |}.

(** A model that loads and always gives the same answer, and a [json]
    that reads the object of that answer. *)
Definition answering_model : Model :=
  {| load_model_outcome := fun _ => LoadOk;
     generate :=
       fun _ formatted_prompt =>
         Some (formatted_prompt
                 ++ uq " Вот: {`title`: `Лекция по математике`} " ) |}.

Definition answer_lib : Lib :=
  {| json_loads :=
       fun s =>
         if str_eqb s (uq "{`title`: `Лекция по математике`}")
         then Some (JObj [(u "title", JStr (u "Лекция по математике"))])
         else None;
     md5_hexdigest := fun s => s |}.

(** ** The classifier *)

Section ClassifierSpec.
Context {U : Unicode}.

(** The number of distinct event keywords that occur in the lowered text. *)
Definition distinct_keywords_present (text : str) : nat :=
  size (list_to_set
          (List.filter (fun keyword => contains keyword (str_lower text))
             event_keywords) : gset str).

(** A pattern is found somewhere in a text, in any case of letters. *)
Definition pattern_found (pattern text : str) : Prop :=
  exists m, re_search true pattern text = Some m.

(** One of the patterns of a field is found in a text. *)
Definition field_found (patterns : list str) (text : str) : Prop :=
  exists pattern, In pattern patterns /\ pattern_found pattern text.
End ClassifierSpec.

(** ** The calls a process makes on its extractor *)

Inductive call :=
| CallGetLlm
| CallRefine (text : str) (extracted_info : info)
| CallExtract (text telegram_url : str)
| CallBatch (texts : list (str * str)).

Section Calls.
Context {U : Unicode} {L : Lib}.

Definition do_call (md : Model) (now : date) (self : Extractor) (c : call)
  : Extractor :=
  match c with
  | CallGetLlm => snd (_get_llm md self)
  | CallRefine text extracted_info =>
      snd (_refine_with_llm md self text extracted_info)
  | CallExtract text telegram_url =>
      snd (extract_event_info md now self text telegram_url)
  | CallBatch texts => snd (process_batch md now self texts)
  end.

Definition do_calls (md : Model) (now : date) (self : Extractor)
    (calls : list call) : Extractor :=
  fold_left (do_call md now) calls self.

(** A dictionary of extracted fields, and a hundred refinement calls. *)
Definition some_info : info :=
  {| i_title := u "Встреча завтра"; i_date := u "25.12.2024";
     i_time := u "Не указано"; i_location := u "Не указано";
     i_category := u "student_life" |}.

Definition hundred_calls : list call :=
  repeat (CallRefine (u "Встреча завтра") some_info) 100.

(** The dictionary [extract_event_info] hands to [_refine_with_llm]. *)
Definition extracted_info_of (now : date) (text : str) : info :=
  {| i_title := extract_title text;
     i_date := fst (extract_date now text);
     i_time := fst (extract_time text);
     i_location := fst (extract_location text);
     i_category := extract_category text |}.
End Calls.

(** ** Confidence *)

Definition mean3 (a b c : float) : float := ((a + b + c) / 3)%float.

(** Clamping to the unit interval. *)
Definition clamp01 (x : float) : float :=
  if (x <? 0)%float then 0%float
  else if (1 <? x)%float then 1%float
  else x.

Definition in_unit (x : float) : bool := ((0 <=? x) && (x <=? 1))%float.

(** What an extractor returns: its fallback with confidence 0, or a value
    with one of the confidences of its pattern classes. *)
Inductive conf_of (fallback : str) (classes : list float)
  : str * float -> Prop :=
| conf_fallback : conf_of fallback classes (fallback, 0%float)
| conf_class v c : In c classes -> conf_of fallback classes (v, c).

(** ** The page fetcher *)

(** The pause after the request of iteration [k] has failed. *)
Definition backoff (cfg : Settings) (k : Z) : Z :=
  Z.min (retry_delay cfg * 2 ^ k) 30.

(** [n] requests in a row, numbered from [first], each but the last
    followed by its pause. *)
Fixpoint attempts_trace (cfg : Settings) (first : Z) (n : nat)
  : list fetch_event :=
  match n with
  | O => []
  | S m =>
      match m with
      | O => [Request first]
      | S _ =>
          Request first :: Sleep (backoff cfg first)
            :: attempts_trace cfg (first + 1) m
      end
  end.

(** A transport failure or a status other than 200. *)
Definition request_failed (o : http_outcome) : bool :=
  match o with
  | Response status_code _ => negb (status_code =? 200)
  | RequestError => true
  | OtherError => false
  end.

(** How the fetch ended, told from the last of its [n] requests. *)
Definition fetch_ending (cfg : Settings) (get : Z -> http_outcome)
    (first : Z) (n todo : nat) (result : fetch_result) : Prop :=
  match result with
  | Page text =>
      (1 <= n)%nat /\ get (first + Z.of_nat n - 1) = Response 200 text
  | NoPage =>
      n = todo /\
      forall k, first <= k < first + Z.of_nat n -> request_failed (get k) = true
  | FetchRaised =>
      (1 <= n)%nat /\ get (first + Z.of_nat n - 1) = OtherError
  end.

(** ** The title *)

(** What precedes the first newline. *)
Fixpoint first_line (text : str) : str :=
  match text with
  | [] => []
  | c :: r => if (c =? NL)%N then [] else c :: first_line r
  end.

(** At most 100 characters, the last three an ellipsis when cut. *)
Definition ellipsize (s : str) : str :=
  if (100 <? length s)%nat then firstn 97 s ++ u "..." else s.

(** The first line that is not empty, if there is one. *)
Definition first_nonempty_line (text : str) : option str :=
  List.find (fun line => negb (str_eqb line [])) (split_on NL text).

Section TitleSpec.
Context {U : Unicode}.

(** The title as the specification words it: the first non-empty line,
    and the first eight words when there is no such line. *)
Definition spec_title (text : str) : str :=
  match first_nonempty_line text with
  | Some line => ellipsize line
  | None => firstn 100 (join (u " ") (firstn 8 (split_ws text)))
  end.
End TitleSpec.

(** ** Channels *)

Section ChannelSpec.
Context {U : Unicode}.

(** A block whose cleaned text is empty or shorter than 10 characters. *)
Definition short_text (div : message_div) : bool :=
  match text_div div with
  | Some raw => (length (_clean_text raw) <? 10)%nat
  | None => false
  end.
End ChannelSpec.

(** A block without a timestamp, a text block or a permalink. *)
Definition incomplete (div : message_div) : bool :=
  match time_tag div, text_div div, msg_link div with
  | Some _, Some _, Some (Some _) => false
  | _, _, _ => true
  end.

(** A page library for closed examples: the page [posts] holds three
    blocks, any other page holds none; a timestamp is a number of days. *)
Definition three_posts : list message_div := [
  {| time_tag := Some (u "19000");
     text_div := Some (u "Приглашаем на лекцию завтра в 18:30");
     msg_link := Some (Some (u "https://t.me/mospolytech/101")) |};
  {| time_tag := Some (u "19000");
     text_div := Some (u "Ура!
1.2K views");
     msg_link := Some (Some (u "https://t.me/mospolytech/102")) |};
  {| time_tag := Some (u "19000");
     text_div := Some (u "Состоится регистрация на турнир");
     msg_link := None |}
].

Definition example_pages : Page_lib :=
  {| find_message_divs :=
       fun html => if str_eqb html (u "posts") then Some three_posts
                   else Some [];
     fromisoformat :=
       fun s => match int_digits 0 s with
                | Some days => Some (days * microseconds_per_day)
                | None => None
                end;
     isoformat := fun t => str_of_Z (t / microseconds_per_day) |}.

(** A world in which every request fails in transport, and worlds in
    which every request is answered with a page. *)
Definition world_down : World :=
  {| w_model := failing_model; w_today := Date 2022 1 8;
     w_now := 19000 * microseconds_per_day;
     w_get := fun _ _ => RequestError;
     w_save_raises := fun _ => false |}.

Definition world_serving (html : str) : World :=
  {| w_model := failing_model; w_today := Date 2022 1 8;
     w_now := 19000 * microseconds_per_day;
     w_get := fun _ _ => Response 200 html;
     w_save_raises := fun _ => false |}.

(** A world that serves the page [posts] long after its posts were
    written. *)
Definition world_later : World :=
  {| w_model := failing_model; w_today := Date 2022 4 18;
     w_now := 19100 * microseconds_per_day;
     w_get := fun _ _ => Response 200 (u "posts");
     w_save_raises := fun _ => false |}.

(** The statistics of a run over one channel that counted it as failed. *)
Definition one_failed : Statistics :=
  {| total_channels := 1; processed := 0; failed := 1; total_messages := 0;
     total_events := 0; channels_stats := ∅ |}.

(** The statistics before any channel is counted. *)
Definition no_statistics (n : nat) : Statistics :=
  {| total_channels := n; processed := 0; failed := 0; total_messages := 0;
     total_events := 0; channels_stats := ∅ |}.

(** ** The JSON object of a model answer *)

(** Whether a nesting depth is allowed. *)
Definition within (limit : option nat) (depth : nat) : bool :=
  match limit with
  | Some n => (depth <=? n)%nat
  | None => true
  end.

(** Brace matching inside an object, at nesting [depth]: the number of
    characters up to the brace that closes the object, that brace
    included. There is none when the text ends before, or when the braces
    nest deeper than [limit]. *)
Fixpoint match_close (limit : option nat) (depth : nat) (s : str)
  : option nat :=
  match s with
  | [] => None
  | c :: r =>
      if (c =? 123)%N then
        if within limit (S depth)
        then option_map S (match_close limit (S depth) r)
        else None
      else if (c =? 125)%N then
        match depth with
        | O => None
        | S O => Some 1%nat
        | S d => option_map S (match_close limit d r)
        end
      else option_map S (match_close limit depth r)
  end.

(** The balanced object that begins at the head of the text. *)
Definition balanced_object_at (limit : option nat) (s : str) : option str :=
  match s with
  | c :: r =>
      if (c =? 123)%N
      then option_map (fun n => firstn (S n) s) (match_close limit 1 r)
      else None
  | [] => None
  end.

(** The first balanced object of the text: with no [limit], what the
    specification describes. *)
Fixpoint first_balanced_object (limit : option nat) (s : str) : option str :=
  match balanced_object_at limit s with
  | Some object => Some object
  | None =>
      match s with
      | [] => None
      | _ :: r => first_balanced_object limit r
      end
  end.

(** A character that is not a brace. *)
Definition plain (x : N) : bool := negb ((x =? 123)%N || (x =? 125)%N).

(** [json_pattern], compiled. *)
Definition not_brace : re := RSet true [CChar 123; CChar 125].

Abbreviation NBs := (RRep 0 None true not_brace).

Definition flat_group : re :=
  RCat (RLit 123)
    (RCat (RRep 0 None true not_brace)
       (RCat (RLit 125) (RRep 0 None true not_brace))).

Definition json_re : re :=
  RCat (RLit 123)
    (RCat (RRep 0 None true not_brace)
       (RCat (RRep 0 None true flat_group) (RLit 125))).

(** The position [n] characters further on. *)
Fixpoint advance (n : nat) (st : mstate) : mstate :=
  match n with
  | O => st
  | S k =>
      match ms_rest st with
      | c :: r => advance k (MState (Some c) r (ms_caps st))
      | [] => st
      end
  end.

(** The match that ends [n] characters further on, if there is an [n]. *)
Definition ending (o : option nat) (st : mstate) : list mstate :=
  match o with
  | Some n => [advance n st]
  | None => []
  end.

Section JsonLoop.
Context {U : Unicode}.

(** The groups of [json_pattern] and its closing brace, with the fuel of
    the repetition in view. *)
Definition group_loop (fuel : nat) (st : mstate) : list mstate :=
  flat_map (run false (RLit 125))
    (rep_loop (run false flat_group) fuel 0 None true st).
End JsonLoop.

(* ================================================================== *)
(** * Further definitions *)
(* ================================================================== *)

(** ** The life of an extractor *)

(** A handle whose model and tokenizer are set. *)
Definition ready_handler : HuggingFaceHandler :=
  {| hf_model := true; hf_tokenizer := true |}.

(** The attributes as the methods leave them: nothing is loaded before the
    first attempt, which either succeeds and leaves a ready handle, or
    fails and switches the refinement off; the model generates only when
    it is loaded. *)
Definition extractor_ok (self : Extractor) : Prop :=
  match refinement_state self with
  | Unloaded =>
      load_calls self = 0%nat /\ generate_calls self = 0%nat
      /\ _llm self = None
  | Loaded => load_calls self = 1%nat /\ _llm self = Some ready_handler
  | Failed =>
      load_calls self = 1%nat /\ generate_calls self = 0%nat
      /\ use_llm self = false
  end.

(** What a later state of an extractor keeps of an earlier one. *)
Definition evolves (self later : Extractor) : Prop :=
  extractor_ok later /\
  (load_calls self <= load_calls later)%nat /\
  (generate_calls self <= generate_calls later)%nat /\
  match refinement_state self with
  | Unloaded => True
  | Loaded =>
      refinement_state later = Loaded /\ use_llm later = use_llm self
  | Failed => later = self
  end.

(** ** Batches *)

Section BatchSpec.
Context {U : Unicode}.

(** What the regular expressions alone make of a text and its URL. *)
Definition heuristic_result (now : date) (tu : str * str)
  : option EventData :=
  if is_event_text (fst tu)
  then Some (heuristic_event now (fst tu) (snd tu))
  else None.

(** A result stands for an event-like text, and no result for another. *)
Definition result_fits (tu : str * str) (result : option EventData) : Prop :=
  match result with
  | Some _ => is_event_text (fst tu) = true
  | None => is_event_text (fst tu) = false
  end.
End BatchSpec.

(** Three texts with their URLs: an event, a greeting, an event. *)
Definition three_texts : list (str * str) := [
  (u "Приглашаем на лекцию завтра в 18:30", u "https://t.me/mospolytech/101");
  (u "Всем привет", u "https://t.me/mospolytech/102");
  (u "Состоится регистрация на турнир", u "https://t.me/mospolytech/103")
].

(** A model that loads and then answers nothing. *)
Definition silent_model : Model :=
  {| load_model_outcome := fun _ => LoadOk; generate := fun _ _ => None |}.

(** Two event-like texts under one URL. *)
Definition shared_texts : list (str * str) := [
  (u "Приглашаем на лекцию завтра в 18:30", u "https://t.me/mospolytech/101");
  (u "Состоится регистрация на турнир", u "https://t.me/mospolytech/101")
].

(** ** Channels *)

Section FleetSpec.
Context {U : Unicode}.

(** The messages of a channel that read like events, oldest first. *)
Definition event_like (messages : list TelegramMessage)
  : list TelegramMessage :=
  List.filter (fun msg => is_event_text (msg_text msg))
    (sort_by_datetime messages).
End FleetSpec.

(** The hashes of the messages of a list. *)
Definition hashes (messages : list TelegramMessage) : list str :=
  List.map message_hash messages.

(** A result follows the test [keep] of its message. *)
Definition follows (keep : TelegramMessage -> bool) (msg : TelegramMessage)
    (result : option EventData) : Prop :=
  match result with
  | Some _ => keep msg = true
  | None => keep msg = false
  end.

(** Two messages in the order of their instants. *)
Definition not_later (a b : TelegramMessage) : Prop :=
  msg_datetime a <= msg_datetime b.

(** The messages of one instant, in the order of a list. *)
Definition at_instant (t : Z) (messages : list TelegramMessage)
  : list TelegramMessage :=
  List.filter (fun msg => msg_datetime msg =? t) messages.

(** A world in which no file can be written, and a message that is no
    event. *)
Definition world_read_only : World :=
  {| w_model := failing_model; w_today := Date 2022 1 8;
     w_now := 19000 * microseconds_per_day;
     w_get := fun _ _ => Response 200 (u "posts");
     w_save_raises := fun _ => true |}.

Definition greeting : TelegramMessage :=
  {| msg_id := u "102"; msg_text := u "Всем привет, друзья";
     msg_datetime := 19000 * microseconds_per_day;
     msg_url := u "https://t.me/mospolytech/102";
     msg_channel := u "mospolytech"; message_hash := u "102" |}.

(** ** Runs *)

(** The statistics of a channel that was processed: its messages are
    events or skipped, and there is one at least. *)
Definition sound_stats (stats : channel_stats) : Prop :=
  (events stats + skipped stats = total stats)%nat /\ (1 <= total stats)%nat.

Definition sound_result (result : str * option channel_stats) : Prop :=
  match snd result with
  | Some stats => sound_stats stats
  | None => True
  end.

(** What the loop over the results keeps, [n] results having been
    counted, all of channels of the list [channels]. *)
Definition counted (channels : list str) (n : nat) (statistics : Statistics)
  : Prop :=
  (processed statistics + failed statistics = n)%nat /\
  (total_events statistics <= total_messages statistics)%nat /\
  (processed statistics <= total_messages statistics)%nat /\
  (size (channels_stats statistics) <= processed statistics)%nat /\
  (forall channel stats,
     channels_stats statistics !! channel = Some stats ->
     channel ∈ channels /\ sound_stats stats).

(** ** Clean texts *)

Section CleanSpec.
Context {U : Unicode}.

(** A line that [_clean_text] keeps as it is. *)
Definition clean (line : str) : Prop :=
  line <> [] /\ strip line = line /\
  forall skip, In skip skip_markers -> contains skip (str_lower line) = false.
End CleanSpec.

(** ** The pauses of a fetch *)

(** The seconds slept in a trace, and its requests. *)
Fixpoint total_sleep (trace : list fetch_event) : Z :=
  match trace with
  | [] => 0
  | Sleep wait_time :: r => wait_time + total_sleep r
  | Request _ :: r => total_sleep r
  end.

Fixpoint requests (trace : list fetch_event) : list Z :=
  match trace with
  | [] => []
  | Request attempt :: r => attempt :: requests r
  | Sleep _ :: r => requests r
  end.

Fixpoint sleeps (trace : list fetch_event) : list Z :=
  match trace with
  | [] => []
  | Sleep wait_time :: r => wait_time :: sleeps r
  | Request _ :: r => sleeps r
  end.

(** ** Messages *)

Section MessageSpec.
Context {U : Unicode} {L : Lib}.

(** A message as [parse_channel] makes it, for a channel and the instant
    before which messages are left out. *)
Definition well_formed (P : Page_lib) (cutoff_date : Z) (channel_name : str)
    (message : TelegramMessage) : Prop :=
  cutoff_date <= msg_datetime message /\
  msg_channel message = channel_name /\
  (10 <= length (msg_text message))%nat /\
  _clean_text (msg_text message) = msg_text message /\
  msg_id message = after_last (u "/") (msg_url message) /\
  message_hash message
  = _generate_message_hash P (msg_text message) (msg_datetime message)
      channel_name.
End MessageSpec.

(** ** Records and answers *)

(** The number of items of a title that has items. *)
Definition title_length (title : json) : option nat :=
  match title with
  | JStr s => Some (length s)
  | JArr l => Some (length l)
  | _ => None
  end.

(** The marker after which the answer of the model stands. *)
Definition assistant_marker : str := u "<assistant>:".

Section RecordSpec.
Context {U : Unicode} {L : Lib}.

(** A record that the model refined, for a text. *)
Definition refined_record (text : str) (ev : EventData) : Prop :=
  ev_telegram_url ev = [] /\
  ev_confidence ev = 0.85%float /\
  exists n, title_length (ev_title ev) = Some n /\ (n <= 150)%nat.
End RecordSpec.

(** ** Categories *)

Section CategorySpec.
Context {U : Unicode}.

(** The number of the keywords of a list that a text holds. *)
Definition keyword_score (text : str) (keywords : list str) : nat :=
  length (List.filter (fun keyword => contains keyword (str_lower text))
            keywords).
End CategorySpec.

(* ================================================================== *)
(** * [favorites_manager.py] *)
(* ================================================================== *)

(** The favourites of a user: a [dict] from the id of an event to its
    category and data, kept in the order of insertion. *)
Abbreviation user_favorites := (list (str * (str * json))).

(** [FavoritesManager]: [favorites], by [user_id]. *)
Record FavoritesManager := {
  favorites : gmap Z user_favorites
}.

(** [FavoritesManager()] *)
Definition new_favorites : FavoritesManager := {| favorites := ∅ |}.

(** [k in d] *)
Definition dict_has {V} (d : list (str * V)) (k : str) : bool :=
  match dict_get d k with
  | Some _ => true
  | None => false
  end.

(** [del d[k]] *)
Definition dict_del {V} (d : list (str * V)) (k : str) : list (str * V) :=
  List.filter (fun kv => negb (str_eqb k (fst kv))) d.

Definition add_favorite (self : FavoritesManager) (user_id : Z)
    (event_id category : str) (event_data : json)
  : bool * FavoritesManager :=
  let favorites :=
    match favorites self !! user_id with
    | Some _ => favorites self
    | None => <[user_id := []]> (favorites self)
    end in
  let user := default [] (favorites !! user_id) in
  if negb (dict_has user event_id) then
    (true,
     {| favorites :=
          <[user_id := user ++ [(event_id, (category, event_data))]]>
            favorites |})
  else (false, {| favorites := favorites |}).

Definition remove_favorite (self : FavoritesManager) (user_id : Z)
    (event_id : str) : bool * FavoritesManager :=
  match favorites self !! user_id with
  | Some user =>
      if dict_has user event_id then
        match dict_del user event_id with
        | [] => (true, {| favorites := delete user_id (favorites self) |})
        | rest =>
            (true, {| favorites := <[user_id := rest]> (favorites self) |})
        end
      else (false, self)
  | None => (false, self)
  end.

Definition is_favorite (self : FavoritesManager) (user_id : Z)
    (event_id : str) : bool :=
  match favorites self !! user_id with
  | Some user => dict_has user event_id
  | None => false
  end.

Definition get_favorites (self : FavoritesManager) (user_id : Z)
  : list (str * str * json) :=
  match favorites self !! user_id with
  | Some user =>
      List.map (fun kv => (fst kv, fst (snd kv), snd (snd kv))) user
  | None => []
  end.

Definition get_favorites_count (self : FavoritesManager) (user_id : Z)
  : nat :=
  match favorites self !! user_id with
  | Some user => length user
  | None => 0%nat
  end.

Definition clear_favorites (self : FavoritesManager) (user_id : Z)
  : bool * FavoritesManager :=
  match favorites self !! user_id with
  | Some _ => (true, {| favorites := delete user_id (favorites self) |})
  | None => (false, self)
  end.

Definition toggle_favorite (self : FavoritesManager) (user_id : Z)
    (event_id category : str) (event_data : json)
  : bool * FavoritesManager :=
  if is_favorite self user_id event_id then
    (false, snd (remove_favorite self user_id event_id))
  else
    (true, snd (add_favorite self user_id event_id category event_data)).

Definition get_user_ids_with_favorites (self : FavoritesManager) : gset Z :=
  dom (favorites self).

(** ** The life of a manager *)

(** A call that changes the favourites. *)
Inductive favorites_call :=
| AddFavorite (user_id : Z) (event_id category : str) (event_data : json)
| RemoveFavorite (user_id : Z) (event_id : str)
| ToggleFavorite (user_id : Z) (event_id category : str) (event_data : json)
| ClearFavorites (user_id : Z).

Definition favorites_after (self : FavoritesManager) (c : favorites_call)
  : FavoritesManager :=
  match c with
  | AddFavorite user_id event_id category event_data =>
      snd (add_favorite self user_id event_id category event_data)
  | RemoveFavorite user_id event_id =>
      snd (remove_favorite self user_id event_id)
  | ToggleFavorite user_id event_id category event_data =>
      snd (toggle_favorite self user_id event_id category event_data)
  | ClearFavorites user_id => snd (clear_favorites self user_id)
  end.

Definition favorites_after_all (calls : list favorites_call)
  : FavoritesManager :=
  fold_left favorites_after calls new_favorites.

(** The ids of the favourites of a user, in the order of the list. *)
Definition favorite_ids (self : FavoritesManager) (user_id : Z) : list str :=
  List.map (fun f => fst (fst f)) (get_favorites self user_id).

(** No user is kept without a favourite, and no id twice. *)
Definition tidy (self : FavoritesManager) : Prop :=
  forall user_id user,
    favorites self !! user_id = Some user ->
    user <> [] /\ List.NoDup (List.map fst user).

(* ================================================================== *)
(** * [events_manager.py] *)
(* ================================================================== *)

(** ** [_extract_json_objects] *)

(** The variables of the loop over the characters. *)
Record scan_state := {
  objects : list str;
  brace_count : Z;
  current_obj : str;
  in_string : bool;
  escape_next : bool
}.

Section Scan.
Context {U : Unicode}.

(** One turn of the loop. *)
Definition scan_char (st : scan_state) (char : N) : scan_state :=
  if escape_next st then
    {| objects := objects st; brace_count := brace_count st;
       current_obj := current_obj st ++ [char];
       in_string := in_string st; escape_next := false |}
  else if (char =? 92)%N && in_string st then
    {| objects := objects st; brace_count := brace_count st;
       current_obj := current_obj st ++ [char];
       in_string := in_string st; escape_next := true |}
  else if (char =? 34)%N then
    {| objects := objects st; brace_count := brace_count st;
       current_obj := current_obj st ++ [char];
       in_string := negb (in_string st); escape_next := escape_next st |}
  else if negb (in_string st) then
    if (char =? 123)%N then
      {| objects := objects st; brace_count := brace_count st + 1;
         current_obj := current_obj st ++ [char];
         in_string := in_string st; escape_next := escape_next st |}
    else if (char =? 125)%N then
      let current_obj := current_obj st ++ [char] in
      let brace_count := brace_count st - 1 in
      match brace_count =? 0, strip current_obj with
      | true, _ :: _ =>
          {| objects := objects st ++ [strip current_obj];
             brace_count := brace_count; current_obj := [];
             in_string := in_string st; escape_next := escape_next st |}
      | _, _ =>
          {| objects := objects st; brace_count := brace_count;
             current_obj := current_obj;
             in_string := in_string st; escape_next := escape_next st |}
      end
    else if 0 <? brace_count st then
      {| objects := objects st; brace_count := brace_count st;
         current_obj := current_obj st ++ [char];
         in_string := in_string st; escape_next := escape_next st |}
    else if negb (cp_space char) then
      {| objects := objects st; brace_count := brace_count st;
         current_obj := current_obj st ++ [char];
         in_string := in_string st; escape_next := escape_next st |}
    else st
  else
    {| objects := objects st; brace_count := brace_count st;
       current_obj := current_obj st ++ [char];
       in_string := in_string st; escape_next := escape_next st |}.

(** The state in which the loop starts, with the objects found so far. *)
Definition scan_start (objects : list str) : scan_state :=
  {| objects := objects; brace_count := 0; current_obj := [];
     in_string := false; escape_next := false |}.

Definition _extract_json_objects (content : str) : list str :=
  objects (fold_left scan_char content (scan_start [])).
End Scan.

(** ** The text of an object *)

(** The inside of a string literal: any characters, a quote or a
    backslash only after a backslash. *)
Inductive string_body : str -> Prop :=
| string_end : string_body []
| string_char c s :
    c <> 34%N -> c <> 92%N -> string_body s -> string_body (c :: s)
| string_escape c s : string_body s -> string_body (92%N :: c :: s).

(** The inside of an object: string literals, objects in braces, and
    other characters that are no brace and no quote. *)
Inductive object_body : str -> Prop :=
| body_end : object_body []
| body_char c s :
    c <> 123%N -> c <> 125%N -> c <> 34%N -> object_body s ->
    object_body (c :: s)
| body_string literal s :
    string_body literal -> object_body s ->
    object_body (34%N :: literal ++ 34%N :: s)
| body_object inner s :
    object_body inner -> object_body s ->
    object_body (123%N :: inner ++ 125%N :: s).

(** An object as [json.dumps] writes one. *)
Definition object_text (s : str) : Prop :=
  exists body, object_body body /\ s = 123%N :: body ++ [125%N].

(** The lines of a file of objects, as [_save_results] writes them. *)
Definition jsonl (objs : list str) : str :=
  concat (List.map (fun obj => obj ++ [NL]) objs).

(** Two objects: one with a brace in a string, one with an object
    inside. *)
Definition written_objects : list str :=
  [uq "{`a`: `b}`}"; uq "{`n`: {`k`: 1}}"].

(** ** The categories of [_load_from_parsed_events] *)

(** The keys of [self.events]. *)
Definition bot_categories : list str :=
  [u "education"; u "careers"; u "competitions"; u "exhibitions";
   u "culture"; u "volunteering"; u "student_life"].

Definition category_mapping : list (str * str) := [
  (u "career", u "careers");
  (u "education", u "education");
  (u "culture", u "culture");
  (u "competitions", u "competitions");
  (u "exhibitions", u "exhibitions");
  (u "volunteering", u "volunteering");
  (u "student_life", u "student_life")
].

(** [category_mapping.get(lowered, 'education')] *)
Definition mapped_category (lowered : str) : str :=
  match dict_get category_mapping lowered with
  | Some category => category
  | None => u "education"
  end.

Section BotCategory.
Context {U : Unicode}.

(** The category under which an event of the parser is filed:
    [category_mapping.get(event_data.get('category', '').lower(),
    'education')], for the category that the event has. *)
Definition bot_category (category : str) : str :=
  mapped_category (str_lower category).
End BotCategory.

(** The category of the parser under its name in the bot. *)
Definition renamed_category (category : str) : str :=
  if str_eqb category (u "career") then u "careers" else category.

(** Whether a name of the parser is filed under its name in the bot,
    which is a key of [self.events]. *)
Definition filed_well (category : str) : bool :=
  str_eqb (mapped_category category) (renamed_category category)
  && existsb (str_eqb (mapped_category category)) bot_categories.

(* ================================================================== *)
(** * Properties *)
(* ================================================================== *)

(** ** The circuit breaker of the refinement stage *)

Section CircuitBreaker.
Context {U : Unicode} {L : Lib}.
Variables (md : Model) (now : date).

Lemma failed_iff self :
  refinement_state self = Failed <-> _llm_error self = true.
Proof.
  unfold refinement_state.
  destruct (_llm_error self), (_llm_loaded self); split; congruence.
Qed.

Lemma get_llm_failed self :
  _llm_error self = true -> _get_llm md self = (None, self).
Proof. intros E. unfold _get_llm. rewrite E. reflexivity. Qed.

Lemma refine_failed self text extracted_info :
  _llm_error self = true ->
  _refine_with_llm md self text extracted_info = (None, self).
Proof.
  intros E. unfold _refine_with_llm. rewrite (get_llm_failed _ E).
  reflexivity.
Qed.

Lemma extract_failed self text url :
  _llm_error self = true ->
  snd (extract_event_info md now self text url) = self.
Proof.
  intros E. unfold extract_event_info.
  destruct (is_event_text text); [|reflexivity]. simpl.
  destruct (extract_date now text), (extract_time text),
    (extract_location text).
  destruct (use_llm self); [|reflexivity].
  rewrite (refine_failed _ _ _ E). reflexivity.
Qed.

Lemma extract_each_failed texts self :
  _llm_error self = true -> snd (extract_each md now self texts) = self.
Proof.
  intros E. induction texts as [|[text url] r IH]; [reflexivity|].
  simpl. pose proof (extract_failed self text url E) as H.
  destruct (extract_event_info md now self text url) as [res s1].
  simpl in H. subst s1.
  destruct (extract_each md now self r) as [rs s2]. simpl in *. exact IH.
Qed.

Lemma fill_batch_failed event_texts self acc :
  _llm_error self = true ->
  snd (fill_batch_results md now self event_texts acc) = self.
Proof.
  intros E. revert acc.
  induction event_texts as [|[text url] r IH]; intros acc; [reflexivity|].
  simpl. pose proof (extract_failed self text url E) as H.
  destruct (extract_event_info md now self text url) as [res s1].
  simpl in H. subst s1. apply IH.
Qed.

Lemma process_batch_failed texts self :
  _llm_error self = true -> snd (process_batch md now self texts) = self.
Proof.
  intros E. unfold process_batch.
  destruct (use_llm self); simpl; [|apply extract_each_failed, E].
  destruct (List.filter _ texts) as [|x xs] eqn:F; [reflexivity|].
  rewrite (get_llm_failed _ E).
  pose proof (fill_batch_failed (x :: xs) self ∅ E) as H.
  destruct (fill_batch_results md now self (x :: xs) ∅) as [br s1].
  simpl in *. exact H.
Qed.

Lemma do_call_failed self c :
  _llm_error self = true -> do_call md now self c = self.
Proof.
  intros E. destruct c; simpl.
  - rewrite (get_llm_failed _ E). reflexivity.
  - rewrite (refine_failed _ _ _ E). reflexivity.
  - apply extract_failed, E.
  - apply process_batch_failed, E.
Qed.

Lemma do_calls_failed calls self :
  _llm_error self = true -> do_calls md now self calls = self.
Proof.
  intros E. unfold do_calls. induction calls as [|c r IH]; [reflexivity|].
  simpl. rewrite (do_call_failed _ _ E). exact IH.
Qed.

(** C1: when the first attempt to load the model raises, the refinement call
    that made it returns nothing and leaves the extractor in [Failed];
    whatever calls follow, the extractor stays as it is (so [Failed] is
    final and [load_model] is never called again), and every later
    refinement call returns nothing at once. *)
Theorem circuit_breaker (self : Extractor) (text : str)
    (extracted_info : info) :
  refinement_state self = Unloaded ->
  snd (load_model (load_model_outcome md (load_calls self))) = false ->
  let first := _refine_with_llm md self text extracted_info in
  fst first = None /\
  refinement_state (snd first) = Failed /\
  load_calls (snd first) = S (load_calls self) /\
  forall (calls : list call) (text' : str) (extracted_info' : info),
    let later := do_calls md now (snd first) calls in
    later = snd first /\
    _refine_with_llm md later text' extracted_info' = (None, later).
Proof.
  intros HU HL first.
  assert (_llm_error self = false /\ _llm_loaded self = false) as [E Ld].
  { unfold refinement_state in HU.
    destruct (_llm_error self), (_llm_loaded self); split; congruence. }
  assert (first
          = (None,
             {| use_llm := false;
                _llm := Some (fst (load_model
                                     (load_model_outcome md
                                        (load_calls self))));
                _llm_loaded := false; _llm_error := true;
                load_calls := S (load_calls self);
                generate_calls := generate_calls self |})) as ->.
  { subst first. unfold _refine_with_llm, _get_llm. rewrite E, Ld.
    destruct (load_model _) as [h returned]. simpl in HL. subst returned.
    reflexivity. }
  simpl. repeat split.
  - rewrite do_calls_failed; reflexivity.
  - rewrite do_calls_failed by reflexivity. apply refine_failed. reflexivity.
Qed.

End CircuitBreaker.


(** The breaker on a model that cannot be loaded: one failed call, then a
    hundred refinement calls. *)
Lemma circuit_breaker_witness :
  let first :=
    _refine_with_llm failing_model (new_extractor true) (u "Встреча завтра")
      some_info in
  let later := do_calls failing_model (Date 2024 12 24) (snd first)
                 hundred_calls in
  fst first = None /\
  refinement_state (snd first) = Failed /\
  load_calls (snd first) = 1%nat /\
  later = snd first /\
  _refine_with_llm failing_model later (u "Встреча завтра") some_info
  = (None, later).
Proof.
  destruct (circuit_breaker failing_model (Date 2024 12 24)
              (new_extractor true) (u "Встреча завтра") some_info
              eq_refl eq_refl) as (A & B & C & D).
  destruct (D hundred_calls (u "Встреча завтра") some_info) as [E F].
  exact (conj A (conj B (conj C (conj E F)))).
Defined.
(** ** Confidence *)

Section Confidence.
Context {U : Unicode} {L : Lib}.
Local Open Scope float_scope.

Ltac class_of := apply conf_class; cbn [In]; tauto.

Lemma date_numeric_full_conf text r :
  date_numeric_full text = Some r -> snd r = 0.95.
Proof.
  unfold date_numeric_full.
  destruct (re_search _ _ _) as [m|]; [|discriminate].
  destruct (py_int _); [|discriminate].
  destruct (py_int _); [|discriminate].
  destruct (py_int _); [|discriminate].
  destruct (mk_date _ _ _); [|discriminate].
  intros [= <-]. reflexivity.
Qed.

Lemma date_numeric_short_conf now text r :
  date_numeric_short now text = Some r -> snd r = 0.85.
Proof.
  unfold date_numeric_short.
  destruct (re_search _ _ _) as [m|]; [|discriminate].
  destruct (py_int _); [|discriminate].
  destruct (py_int _); [|discriminate].
  destruct (mk_date _ _ _); [|discriminate].
  intros [= <-]. reflexivity.
Qed.

Lemma date_month_name_conf now text_lower r :
  date_month_name now text_lower = Some r -> snd r = 0.90.
Proof.
  unfold date_month_name.
  destruct (re_search _ _ _) as [m|]; [|discriminate].
  destruct (dict_get _ _); [|discriminate].
  destruct (py_int _); [|discriminate].
  destruct (py_int _); [|discriminate].
  destruct (mk_date _ _ _); [|discriminate].
  intros [= <-]. reflexivity.
Qed.

Lemma time_single_conf text r :
  time_single text = Some r -> snd r = 0.90.
Proof.
  unfold time_single.
  destruct (re_search _ _ _) as [m|]; [|discriminate].
  destruct (py_int _); [|discriminate].
  destruct (py_int _); [|discriminate].
  intros [= <-]. reflexivity.
Qed.

Lemma extract_date_conf now text :
  conf_of (u "Не указана") [0.95; 0.85; 0.90] (extract_date now text).
Proof.
  unfold extract_date.
  destruct (contains _ _); [class_of|].
  destruct (contains _ _); [class_of|].
  destruct (contains _ _); [class_of|].
  destruct (date_numeric_full text) as [[v c]|] eqn:E1.
  { apply date_numeric_full_conf in E1. cbn [snd] in E1. subst c.
    class_of. }
  destruct (date_numeric_short now text) as [[v c]|] eqn:E2.
  { apply date_numeric_short_conf in E2. cbn [snd] in E2. subst c.
    class_of. }
  destruct (date_month_name now _) as [[v c]|] eqn:E3.
  { apply date_month_name_conf in E3. cbn [snd] in E3. subst c.
    class_of. }
  apply conf_fallback.
Qed.

Lemma extract_time_conf text :
  conf_of (u "Не указано") [0.95; 0.90; 0.70] (extract_time text).
Proof.
  unfold extract_time.
  destruct (re_search _ _ _) as [m|]; [class_of|].
  destruct (time_single text) as [[v c]|] eqn:E1.
  { apply time_single_conf in E1. cbn [snd] in E1. subst c. class_of. }
  destruct (List.find _ _) as [[w t]|]; [class_of|].
  apply conf_fallback.
Qed.

Lemma extract_location_conf text :
  conf_of (u "Не указано") [0.95; 0.90; 0.85; 0.70] (extract_location text).
Proof.
  unfold extract_location.
  destruct (List.find _ _) as [p|]; [class_of|].
  destruct (_ || _); [class_of|].
  destruct (re_search _ _ _) as [m|]; [class_of|].
  destruct (List.find _ _) as [[k l]|]; [class_of|].
  destruct (_ || _); [class_of|].
  apply conf_fallback.
Qed.

Lemma conf_of_inv fallback classes r :
  conf_of fallback classes r ->
  forallb (fun x => negb (x =? 0)) classes = true ->
  In (snd r) (0 :: classes) /\
  ((snd r =? 0) = true -> r = (fallback, 0)).
Proof.
  intros H Hnz. destruct H as [|v c Hin]; cbn [snd].
  - split; [left; reflexivity | reflexivity].
  - split; [right; exact Hin|].
    intros Hz. rewrite List.forallb_forall in Hnz.
    specialize (Hnz c Hin). rewrite Hz in Hnz. discriminate Hnz.
Qed.

Lemma heuristic_confidence_eq now text url :
  ev_confidence (heuristic_event now text url)
  = py_min (mean3 (snd (extract_date now text)) (snd (extract_time text))
              (snd (extract_location text))) 1.
Proof.
  unfold heuristic_event.
  destruct (extract_date now text), (extract_time text),
    (extract_location text).
  reflexivity.
Qed.

Ltac each_class :=
  repeat match goal with
    | H : In _ (_ :: _) |- _ => destruct H as [H|H]; [symmetry in H|]
    | H : In _ [] |- _ => destruct H
    end.

Lemma heuristic_confidence now text url :
  let h := heuristic_event now text url in
  let dc := snd (extract_date now text) in
  let tc := snd (extract_time text) in
  let lc := snd (extract_location text) in
  ev_confidence h = clamp01 (mean3 dc tc lc) /\
  in_unit (ev_confidence h) = true /\
  ((ev_confidence h =? 0) = true <->
   extract_date now text = (u "Не указана", 0) /\
   extract_time text = (u "Не указано", 0) /\
   extract_location text = (u "Не указано", 0)).
Proof.
  intros h dc tc lc. subst h dc tc lc.
  rewrite heuristic_confidence_eq.
  destruct (conf_of_inv _ _ _ (extract_date_conf now text) eq_refl)
    as [Id Zd].
  destruct (conf_of_inv _ _ _ (extract_time_conf text) eq_refl)
    as [It Zt].
  destruct (conf_of_inv _ _ _ (extract_location_conf text) eq_refl)
    as [Il Zl].
  destruct (extract_date now text) as [dv dc].
  destruct (extract_time text) as [tv tc].
  destruct (extract_location text) as [lv lc].
  cbn [snd] in *.
  split; [|split; [|split]].
  - each_class; subst; vm_compute; reflexivity.
  - each_class; subst; vm_compute; reflexivity.
  - intros H.
    assert ((dc =? 0) && (tc =? 0) && (lc =? 0) = true) as Hz.
    { clear Zd Zt Zl. each_class; subst;
        first [ vm_compute; reflexivity
              | vm_compute in H; discriminate H ]. }
    apply andb_prop in Hz as [Hz Hl]. apply andb_prop in Hz as [Hd Ht].
    auto.
  - intros (A & B & C).
    injection A as _ ->. injection B as _ ->. injection C as _ ->.
    vm_compute. reflexivity.
Qed.

Lemma refined_event_confidence data text extracted_info ev :
  refined_event data text extracted_info = Some ev ->
  ev_confidence ev = 0.85.
Proof.
  unfold refined_event. destruct data; try discriminate.
  destruct (slice_to _ _); [|discriminate].
  intros [= <-]. reflexivity.
Qed.

Lemma parse_response_confidence response text extracted_info ev :
  parse_response response text extracted_info = Some ev ->
  ev_confidence ev = 0.85.
Proof.
  unfold parse_response.
  destruct response as [[|c r]|]; [intros [=]| |intros [=]].
  destruct (re_search _ _ _); [|intros [=]].
  destruct (json_loads _); [|discriminate].
  apply refined_event_confidence.
Qed.

Lemma refine_confidence md self text extracted_info ev self' :
  _refine_with_llm md self text extracted_info = (Some ev, self') ->
  ev_confidence ev = 0.85.
Proof.
  unfold _refine_with_llm.
  destruct (_get_llm md self) as [[h|] s1]; [|discriminate].
  destruct (generate_response _ _ _ _) as [response ran].
  intros [= H _]. eapply parse_response_confidence, H.
Qed.

(** The two ways [extract_event_info] ends for an event-like text. *)
Lemma extract_event_info_cases md now self text url ev self' :
  extract_event_info md now self text url = (Some ev, self') ->
  ev = heuristic_event now text url \/ ev_confidence ev = 0.85.
Proof.
  unfold extract_event_info.
  destruct (is_event_text text); [|discriminate]. cbn [negb].
  fold (heuristic_event now text url).
  destruct (extract_date now text), (extract_time text),
    (extract_location text).
  destruct (use_llm self).
  - destruct (_refine_with_llm _ _ _ _) as [[refined|] s1] eqn:R.
    + intros [= <- _]. right. eapply refine_confidence, R.
    + intros [= <- _]. left. reflexivity.
  - intros [= <- _]. left. reflexivity.
Qed.

(** C2: the confidence of every record that [extract_event_info] produces
    lies in [0, 1]; the record is the heuristic one or carries the fixed
    confidence of a refinement; the confidence of the heuristic record is
    the mean of the date, time and location confidences clamped to [0, 1],
    and it is 0 exactly when each of the three extractors returned its
    fallback. *)
Theorem confidence_in_unit md now self text url ev self' :
  extract_event_info md now self text url = (Some ev, self') ->
  in_unit (ev_confidence ev) = true /\
  (ev = heuristic_event now text url \/ ev_confidence ev = 0.85) /\
  let h := heuristic_event now text url in
  ev_confidence h
  = clamp01 (mean3 (snd (extract_date now text)) (snd (extract_time text))
               (snd (extract_location text))) /\
  ((ev_confidence h =? 0) = true <->
   extract_date now text = (u "Не указана", 0) /\
   extract_time text = (u "Не указано", 0) /\
   extract_location text = (u "Не указано", 0)).
Proof.
  intros H. apply extract_event_info_cases in H.
  destruct (heuristic_confidence now text url) as (Hm & Hu & Hz).
  split; [|split; [exact H|split; [exact Hm|exact Hz]]].
  destruct H as [->| ->]; [exact Hu|reflexivity].
Qed.
End Confidence.

(** A text with a date, a time and a room, handled without the model. *)
Lemma confidence_in_unit_witness :
  let text := u "Встреча завтра в 18:30, аудитория 305." in
  let now := Date 2024 12 24 in
  let h := heuristic_event now text (u "https://t.me/mospolytech/1") in
  in_unit (ev_confidence h) = true /\
  (h = h \/ ev_confidence h = 0.85%float) /\
  ev_confidence h
  = clamp01 (mean3 (snd (extract_date now text)) (snd (extract_time text))
               (snd (extract_location text))) /\
  ((ev_confidence h =? 0)%float = true <->
   extract_date now text = (u "Не указана", 0%float) /\
   extract_time text = (u "Не указано", 0%float) /\
   extract_location text = (u "Не указано", 0%float)).
Proof.
  intros text now h.
  apply (confidence_in_unit failing_model now (new_extractor false) text
           (u "https://t.me/mospolytech/1") h (new_extractor false)).
  vm_compute. reflexivity.
Defined.

Example heuristic_event_confidence :
  ev_confidence
    (heuristic_event (Date 2024 12 24)
       (u "Встреча завтра в 18:30, аудитория 305.")
       (u "https://t.me/mospolytech/1"))
  = ((0.95 + 0.90 + 0.90) / 3)%float.
Proof. vm_compute. reflexivity. Qed.

Example heuristic_event_unrecognised :
  ev_confidence
    (heuristic_event (Date 2024 12 24) (u "Состоится регистрация") [])
  = 0%float.
Proof. vm_compute. reflexivity. Qed.
(** ** The classifier *)

Section Classifier.
Context {U : Unicode}.

Lemma event_keywords_NoDup : NoDup event_keywords.
Proof. apply (bool_decide_unpack _). vm_compute. exact I. Qed.

Lemma event_score_distinct text :
  event_score (str_lower text) = distinct_keywords_present text.
Proof.
  unfold event_score, distinct_keywords_present.
  symmetry. apply size_list_to_set.
  apply NoDup_ListNoDup, List.NoDup_filter, NoDup_ListNoDup, event_keywords_NoDup.
Qed.

Lemma elements_found_any (d t l : bool) :
  (1 <=? b2n d + b2n t + b2n l)%nat = d || t || l.
Proof. destruct d, t, l; reflexivity. Qed.

Lemma is_event_text_eq (text : str) :
  is_event_text text
  = ((0 <? distinct_keywords_present text)%nat
     && (any_match date_patterns text || any_match time_patterns text
         || any_match location_patterns text))
    || (2 <=? distinct_keywords_present text)%nat.
Proof.
  unfold is_event_text. rewrite event_score_distinct, elements_found_any.
  reflexivity.
Qed.

Lemma any_match_found (patterns : list str) (text : str) :
  any_match patterns text = true <-> field_found patterns text.
Proof.
  unfold any_match, field_found, pattern_found, matches.
  rewrite List.existsb_exists. split.
  - intros (pattern & Hin & H). exists pattern. split; [exact Hin|].
    destruct (re_search true pattern text) as [m|]; [|discriminate H].
    exists m. reflexivity.
  - intros (pattern & Hin & m & H). exists pattern. split; [exact Hin|].
    rewrite H. reflexivity.
Qed.

(** C3: the classifier answers true exactly when some event keyword occurs
    and a date, time or location pattern is found in the text, or when at
    least two distinct event keywords occur. So a text without a keyword
    is not event-like, whatever the patterns find (and the less so when
    they find nothing), and a text with two distinct keywords is, whatever
    they find. *)
Theorem is_event_text_decision (text : str) :
  let score := distinct_keywords_present text in
  let has_date := field_found date_patterns text in
  let has_time := field_found time_patterns text in
  let has_location := field_found location_patterns text in
  (is_event_text text = true <->
   ((0 < score)%nat /\ (has_date \/ has_time \/ has_location)) \/
   (2 <= score)%nat) /\
  (score = 0%nat -> is_event_text text = false) /\
  ((2 <= score)%nat -> is_event_text text = true).
Proof.
  intros score has_date has_time has_location.
  subst score has_date has_time has_location.
  split; [|split; intros H].
  - rewrite is_event_text_eq, orb_true_iff, andb_true_iff, !orb_true_iff.
    rewrite Nat.ltb_lt, Nat.leb_le, !any_match_found. tauto.
  - rewrite is_event_text_eq, H. reflexivity.
  - rewrite is_event_text_eq. apply orb_true_iff. right.
    apply Nat.leb_le, H.
Qed.
End Classifier.

(** One keyword that contains another counts twice: a single word can make
    a text event-like. *)
Example is_event_text_one_word : is_event_text (u "проводится") = true.
Proof. vm_compute. reflexivity. Qed.

Example is_event_text_keyword_and_time :
  is_event_text (u "Встреча в 10:00") = true.
Proof. vm_compute. reflexivity. Qed.

Example is_event_text_plain : is_event_text (u "привет") = false.
Proof. vm_compute. reflexivity. Qed.



(** A keyword alone, with no date, time or place, does not make an
    event. *)
Example is_event_text_keyword_alone : is_event_text (u "Встреча") = false.
Proof. vm_compute. reflexivity. Qed.

(** [re.IGNORECASE] takes the old letter U+1C80 for the letter [в], whose
    upper case it has: the place is found. *)
Example is_event_text_old_letter :
  is_event_text (u "Встреча ᲀ театре") = true
  /\ any_match location_patterns (u "Встреча ᲀ театре") = true
  /\ any_match location_patterns (u "Встреча ж театре") = false.
Proof. repeat split; vm_compute; reflexivity. Qed.

(** ** Relative dates *)

Lemma starts_with_iff (p s : str) :
  starts_with p s = true <-> exists r, s = p ++ r.
Proof.
  revert s. induction p as [|a p IH]; intros s; simpl.
  - split; [intros _; exists s; reflexivity | reflexivity].
  - destruct s as [|b s].
    + split; [discriminate | intros [r H]; discriminate H].
    + rewrite andb_true_iff, N.eqb_eq, IH. split.
      * intros [-> [r ->]]. exists r. reflexivity.
      * intros [r [= -> ->]]. split; [reflexivity | exists r; reflexivity].
Qed.

Lemma contains_iff (p s : str) :
  contains p s = true <-> exists a b, s = a ++ p ++ b.
Proof.
  induction s as [|c s IH]; simpl.
  - rewrite orb_false_r, starts_with_iff. split.
    + intros [r H]. exists [], r. exact H.
    + intros (a & b & H). destruct a as [|x a]; [|discriminate H].
      exists b. exact H.
  - rewrite orb_true_iff, starts_with_iff, IH. split.
    + intros [[r H] | (a & b & ->)].
      * exists [], r. exact H.
      * exists (c :: a), b. reflexivity.
    + intros (a & b & H). destruct a as [|x a].
      * left. exists b. exact H.
      * right. injection H as _ ->. exists a, b. reflexivity.
Qed.

(** A text that contains a word contains every part of the word. *)
Lemma contains_part (pre word post s : str) :
  contains (pre ++ word ++ post) s = true -> contains word s = true.
Proof.
  rewrite !contains_iff. intros (a & b & ->).
  exists (a ++ pre), (post ++ b). rewrite <- !app_assoc. reflexivity.
Qed.

Section RelativeDates.
Context {U : Unicode}.

Lemma extract_date_tomorrow now text :
  contains (u "завтра") (str_lower text) = true ->
  extract_date now text = (strftime_dmy (add_days 1 now), 0.95%float).
Proof. intros H. unfold extract_date. rewrite H. reflexivity. Qed.

Lemma extract_date_today now text :
  contains (u "завтра") (str_lower text) = false ->
  contains (u "сегодня") (str_lower text) = true ->
  extract_date now text = (strftime_dmy now, 0.95%float).
Proof. intros H1 H2. unfold extract_date. rewrite H1, H2. reflexivity. Qed.

(** The word for the day after tomorrow ends in the word for tomorrow,
    which is looked for first: the answer is tomorrow, and the branch that
    adds two days is never reached. *)
Lemma extract_date_day_after_tomorrow now text :
  contains (u "послезавтра") (str_lower text) = true ->
  extract_date now text = (strftime_dmy (add_days 1 now), 0.95%float).
Proof.
  intros H. apply extract_date_tomorrow.
  apply (contains_part (u "после") (u "завтра") []). exact H.
Qed.
End RelativeDates.

Example extract_date_tomorrow_2024_12_24 :
  extract_date (Date 2024 12 24) (u "Завтра день открытых дверей")
  = (u "25.12.2024", 0.95%float).
Proof. vm_compute. reflexivity. Qed.

Example extract_date_today_2024_12_24 :
  extract_date (Date 2024 12 24) (u "Сегодня день открытых дверей")
  = (u "24.12.2024", 0.95%float).
Proof. vm_compute. reflexivity. Qed.

Example extract_date_tomorrow_new_year :
  extract_date (Date 2024 12 31) (u "завтра") = (u "01.01.2025", 0.95%float).
Proof. vm_compute. reflexivity. Qed.

(** C4, at the input where the code departs from it: on 24 December 2024 a
    text about the day after tomorrow is dated the 25th, not the 26th. *)
Theorem extract_date_poslezavtra_is_tomorrow :
  extract_date (Date 2024 12 24) (u "послезавтра встреча")
  = (u "25.12.2024", 0.95%float)
  /\ strftime_dmy (add_days 2 (Date 2024 12 24)) = u "26.12.2024".
Proof. split; vm_compute; reflexivity. Qed.

(** ** Single times *)

Example extract_time_9_05 :
  extract_time (u "встреча в 9:05") = (u "09:05", 0.90%float).
Proof. vm_compute. reflexivity. Qed.

Example extract_time_range :
  extract_time (u "с 10:00 - 12:30")
  = (u "10:00 - 12:30", 0.95%float).
Proof. vm_compute. reflexivity. Qed.

Example extract_time_none :
  extract_time (u "встреча") = (u "Не указано", 0%float).
Proof. vm_compute. reflexivity. Qed.

(** C5, at the input where the code departs from it: the digits 25:99
    come back as a single time of confidence 0.90, the hour above 23 and
    the minute above 59. *)
Theorem extract_time_out_of_range :
  extract_time (u "встреча в 25:99") = (u "25:99", 0.90%float)
  /\ time_single (u "встреча в 25:99") = Some (u "25:99", 0.90%float)
  /\ py_int (u "25") = Some 25%Z /\ py_int (u "99") = Some 99%Z.
Proof. repeat split; vm_compute; reflexivity. Qed.

(** ** The page fetcher *)

Section Fetch.
Variables (cfg : Settings) (get : Z -> http_outcome).

Lemma attempts_trace_step first n :
  (1 <= n)%nat ->
  attempts_trace cfg first (S n)
  = Request first :: Sleep (backoff cfg first)
      :: attempts_trace cfg (first + 1) n.
Proof. intros H. destruct n as [|m]; [lia | reflexivity]. Qed.

(** The loop from iteration [attempt] on, when [todo] iterations are
    left of [max_retries]. *)
Lemma fetch_loop_trace todo attempt :
  attempt + Z.of_nat todo = max_retries cfg ->
  exists n : nat,
    (n <= todo)%nat /\ ((1 <= todo)%nat -> (1 <= n)%nat) /\
    snd (fetch_loop cfg get todo attempt) = attempts_trace cfg attempt n /\
    (forall k, attempt <= k < attempt + Z.of_nat n - 1 ->
               request_failed (get k) = true) /\
    fetch_ending cfg get attempt n todo (fst (fetch_loop cfg get todo attempt)).
Proof.
  revert attempt. induction todo as [|todo IH]; intros attempt Hmax.
  - exists 0%nat. simpl. repeat split; lia.
  - assert (Hfail :
      request_failed (get attempt) = true ->
      let failed :=
        let '(result, evs) := fetch_loop cfg get todo (attempt + 1) in
        if attempt <? max_retries cfg - 1 then
          (result,
           Request attempt
             :: Sleep (Z.min (retry_delay cfg * 2 ^ attempt) 30) :: evs)
        else (result, Request attempt :: evs) in
      exists n : nat,
        (n <= S todo)%nat /\ ((1 <= S todo)%nat -> (1 <= n)%nat) /\
        snd failed = attempts_trace cfg attempt n /\
        (forall k, attempt <= k < attempt + Z.of_nat n - 1 ->
                   request_failed (get k) = true) /\
        fetch_ending cfg get attempt n (S todo) (fst failed)).
    { intros Hf failed. subst failed.
      destruct (IH (attempt + 1)) as (n & Hn & Hpos & Htr & Hbefore & Hend);
        [lia|].
      destruct (fetch_loop cfg get todo (attempt + 1)) as [result evs].
      cbn [fst snd] in *.
      assert (Hall : forall k, attempt <= k < attempt + Z.of_nat (S n) - 1 ->
                               request_failed (get k) = true).
      { intros k Hk. destruct (Z.eq_dec k attempt) as [->|Hne];
          [exact Hf | apply Hbefore; lia]. }
      assert (Hend' : fetch_ending cfg get attempt (S n) (S todo) result).
      { destruct result; cbn [fetch_ending] in *.
        - destruct Hend as [H1 H2]. split; [lia|].
          rewrite <- H2. f_equal. lia.
        - destruct Hend as [-> H2]. split; [reflexivity|].
          intros k Hk. destruct (Z.eq_dec k attempt) as [->|Hne];
            [exact Hf | apply H2; lia].
        - destruct Hend as [H1 H2]. split; [lia|].
          rewrite <- H2. f_equal. lia. }
      exists (S n). destruct (attempt <? max_retries cfg - 1) eqn:Hlt;
        cbn [fst snd].
      + apply Z.ltb_lt in Hlt.
        repeat split; try lia; try assumption.
        rewrite attempts_trace_step by (apply Hpos; lia).
        rewrite Htr. reflexivity.
      + apply Z.ltb_ge in Hlt. assert (todo = 0%nat) as -> by lia.
        assert (n = 0%nat) as -> by lia.
        repeat split; try lia; try assumption.
        rewrite Htr. reflexivity. }
    cbn [fetch_loop]. destruct (get attempt) as [status_code text| |] eqn:G.
    + destruct (status_code =? 200) eqn:S200.
      * apply Z.eqb_eq in S200. subst status_code.
        exists 1%nat. cbn [fst snd attempts_trace fetch_ending].
        repeat split; try lia.
        rewrite <- G. f_equal. lia.
      * apply Hfail. cbn [request_failed]. rewrite S200. reflexivity.
    + apply Hfail. reflexivity.
    + exists 1%nat. cbn [fst snd attempts_trace fetch_ending].
      repeat split; try lia.
      rewrite <- G. f_equal. lia.
Qed.

(** Where the requests and the pauses stand in a trace. *)
Lemma attempts_trace_nth first n (k : nat) :
  (k + 1 < n)%nat ->
  nth_error (attempts_trace cfg first n) (2 * k)
  = Some (Request (first + Z.of_nat k)) /\
  nth_error (attempts_trace cfg first n) (2 * k + 1)
  = Some (Sleep (backoff cfg (first + Z.of_nat k))) /\
  nth_error (attempts_trace cfg first n) (2 * k + 2)
  = Some (Request (first + Z.of_nat k + 1)).
Proof.
  revert first n. induction k as [|k IH]; intros first n Hk.
  - destruct n as [|[|[|n]]]; try lia; cbn;
      rewrite ?Z.add_0_r; repeat split; reflexivity.
  - destruct n as [|n]; [lia|].
    rewrite attempts_trace_step by lia.
    replace (2 * S k)%nat with (S (S (2 * k))) by lia.
    cbn [Nat.add nth_error].
    destruct (IH (first + 1) n) as (A & B & C); [lia|].
    replace (first + Z.of_nat (S k)) with (first + 1 + Z.of_nat k) by lia.
    repeat split; assumption.
Qed.

(** C6, as the code has it: the fetcher makes at most [max_retries]
    requests, one after the other, and goes on to the next only when the
    last failed in transport or with a status other than 200; the pause
    [min (retry_delay * 2 ^ k) 30] comes after the failure of request [k]
    (counted from 0), that is before request [k + 1]; nothing precedes the
    first request and nothing follows the last. *)
Theorem fetch_page_backoff :
  let result := fst (_fetch_page cfg get) in
  let trace := snd (_fetch_page cfg get) in
  exists n : nat,
    (n <= Z.to_nat (max_retries cfg))%nat /\
    trace = attempts_trace cfg 0 n /\
    (forall k : nat,
       (k + 1 < n)%nat ->
       request_failed (get (Z.of_nat k)) = true /\
       nth_error trace (2 * k) = Some (Request (Z.of_nat k)) /\
       nth_error trace (2 * k + 1)
       = Some (Sleep (Z.min (retry_delay cfg * 2 ^ Z.of_nat k) 30)) /\
       nth_error trace (2 * k + 2) = Some (Request (Z.of_nat k + 1))) /\
    fetch_ending cfg get 0 n (Z.to_nat (max_retries cfg)) result.
Proof.
  intros result trace. subst result trace. unfold _fetch_page.
  destruct (Z.le_gt_cases 0 (max_retries cfg)) as [Hpos|Hneg].
  - destruct (fetch_loop_trace (Z.to_nat (max_retries cfg)) 0)
      as (n & Hn & _ & Htr & Hbefore & Hend); [lia|].
    exists n. split; [exact Hn|]. split; [exact Htr|]. split; [|exact Hend].
    intros k Hk. split; [apply Hbefore; lia|].
    rewrite Htr. exact (attempts_trace_nth 0 n k Hk).
  - replace (Z.to_nat (max_retries cfg)) with 0%nat by lia.
    exists 0%nat. cbn. repeat split; lia.
Qed.
End Fetch.

(** C6 fails when [k] numbers the attempts from 0: with the default
    settings the pauses before attempts 1 and 2 are 2 and 4 seconds, where
    [min (retry_delay * 2 ^ k) 30] is 4 and 8, and there is no pause
    before attempt 0. *)
Lemma fetch_page_pause_before_attempt :
  _fetch_page default_settings (fun _ => RequestError)
  = (NoPage, [Request 0; Sleep 2; Request 1; Sleep 4; Request 2])
  /\ Z.min (retry_delay default_settings * 2 ^ 1) 30 = 4
  /\ Z.min (retry_delay default_settings * 2 ^ 2) 30 = 8.
Proof. repeat split; reflexivity. Qed.

Example fetch_page_second_try :
  _fetch_page default_settings
    (fun k => if k =? 1 then Response 200 (u "ok") else Response 503 [])
  = (Page (u "ok"), [Request 0; Sleep 2; Request 1]).
Proof. reflexivity. Qed.

Example fetch_page_pause_is_capped :
  snd (_fetch_page {| days_back := 20; max_retries := 6; retry_delay := 2 |}
         (fun _ => RequestError))
  = [Request 0; Sleep 2; Request 1; Sleep 4; Request 2; Sleep 8; Request 3;
     Sleep 16; Request 4; Sleep 30; Request 5].
Proof. reflexivity. Qed.

(** ** The JSON object of a model answer *)

Lemma json_pattern_compiled : re_parse json_pattern = Some json_re.
Proof. vm_compute. reflexivity. Qed.

Lemma flat_map_assoc {A B C} (f : A -> list B) (g : B -> list C) l :
  flat_map g (flat_map f l) = flat_map (fun x => flat_map g (f x)) l.
Proof.
  induction l as [|a l IH]; [reflexivity|].
  cbn [flat_map]. rewrite flat_map_app, IH. reflexivity.
Qed.

Lemma flat_map_ext_in {A B} (f g : A -> list B) l :
  (forall x, In x l -> f x = g x) -> flat_map f l = flat_map g l.
Proof.
  induction l as [|a l IH]; intros H; [reflexivity|].
  cbn [flat_map]. rewrite (H a), IH; [reflexivity| |left; reflexivity].
  intros x Hx. apply H. right. exact Hx.
Qed.

Lemma ending_S o p c r caps :
  ending (option_map S o) (MState p (c :: r) caps)
  = ending o (MState (Some c) r caps).
Proof. destruct o; reflexivity. Qed.

Section JsonSearch.
Context {U : Unicode}.

Lemma not_brace_match x : set_match false true [CChar 123; CChar 125] x = plain x.
Proof.
  unfold set_match, plain.
  cbn [single_literal forallb N.eqb Pos.eqb andb existsb item_match].
  rewrite !orb_false_r. reflexivity.
Qed.

Lemma run_cat a b st :
  run false (RCat a b) st = flat_map (run false b) (run false a st).
Proof. reflexivity. Qed.

Lemma run_star a st :
  run false (RRep 0 None true a) st
  = rep_loop (run false a) (S (length (ms_rest st))) 0 None true st.
Proof. reflexivity. Qed.

Lemma rep_loop_star step f st :
  rep_loop step (S f) 0 None true st
  = flat_map
      (fun st' =>
         if (length (ms_rest st') <? length (ms_rest st))%nat
         then rep_loop step f 0 None true st'
         else [])
      (step st)
    ++ [st].
Proof. reflexivity. Qed.

Lemma run_lit_nil c p caps : run false (RLit c) (MState p [] caps) = [].
Proof. reflexivity. Qed.

Lemma run_lit_cons c p x r caps :
  run false (RLit c) (MState p (x :: r) caps)
  = if (x =? c)%N then [MState (Some x) r caps] else [].
Proof.
  cbn [run]. unfold eat, lit_match. cbn [ms_rest ms_caps andb].
  reflexivity.
Qed.

Lemma run_not_brace_nil p caps :
  run false not_brace (MState p [] caps) = [].
Proof. reflexivity. Qed.

Lemma run_not_brace_cons p x r caps :
  run false not_brace (MState p (x :: r) caps)
  = if plain x then [MState (Some x) r caps] else [].
Proof.
  unfold not_brace. cbn [run]. unfold eat. cbn [ms_rest ms_caps].
  rewrite not_brace_match. reflexivity.
Qed.

Lemma run_NBs_nil p caps :
  run false NBs (MState p [] caps) = [MState p [] caps].
Proof. reflexivity. Qed.

Lemma run_NBs_cons p x r caps :
  run false NBs (MState p (x :: r) caps)
  = if plain x
    then run false NBs (MState (Some x) r caps) ++ [MState p (x :: r) caps]
    else [MState p (x :: r) caps].
Proof.
  rewrite run_star. cbn [ms_rest length]. rewrite rep_loop_star.
  rewrite run_not_brace_cons. destruct (plain x); [|reflexivity].
  cbn [flat_map ms_rest length].
  replace (length r <? S (length r))%nat with true
    by (symmetry; apply Nat.ltb_lt; lia).
  rewrite app_nil_r, run_star. reflexivity.
Qed.

(** The matcher of [[^{}]*] only moves forward. *)
Lemma run_NBs_le s : forall p caps x,
  In x (run false NBs (MState p s caps)) ->
  (length (ms_rest x) <= length s)%nat.
Proof.
  induction s as [|c r IH]; intros p caps x.
  - rewrite run_NBs_nil. intros [<-|[]]. reflexivity.
  - rewrite run_NBs_cons. destruct (plain c).
    + rewrite in_app_iff. intros [H|[<-|[]]].
      * apply IH in H. cbn [length]. lia.
      * reflexivity.
    + intros [<-|[]]. reflexivity.
Qed.

Lemma run_flat_group st :
  run false flat_group st
  = flat_map (run false (RCat (RLit 125) NBs))
      (flat_map (run false NBs) (run false (RLit 123) st)).
Proof.
  unfold flat_group. rewrite run_cat, flat_map_assoc.
  apply flat_map_ext. intros a. apply run_cat.
Qed.

Lemma group_loop_step f st :
  group_loop (S f) st
  = flat_map
      (fun x =>
         flat_map
           (fun st' =>
              if (length (ms_rest st') <? length (ms_rest st))%nat
              then group_loop f st'
              else [])
           (run false (RCat (RLit 125) NBs) x))
      (flat_map (run false NBs) (run false (RLit 123) st))
    ++ run false (RLit 125) st.
Proof.
  unfold group_loop. rewrite rep_loop_star, flat_map_app.
  cbn [flat_map]. rewrite app_nil_r. f_equal.
  rewrite run_flat_group, !flat_map_assoc.
  apply flat_map_ext. intros a.
  apply flat_map_ext. intros b.
  apply flat_map_ext. intros c.
  destruct (_ <? _)%nat; reflexivity.
Qed.

Lemma group_loop_nil f p caps : group_loop f (MState p [] caps) = [].
Proof.
  destruct f as [|f]; [reflexivity|].
  rewrite group_loop_step, !run_lit_nil. reflexivity.
Qed.

Lemma group_loop_plain f p x r caps :
  plain x = true -> group_loop f (MState p (x :: r) caps) = [].
Proof.
  intros H. destruct f as [|f]; [reflexivity|].
  rewrite group_loop_step, !run_lit_cons.
  unfold plain in H. apply negb_true_iff, orb_false_iff in H as [-> ->].
  reflexivity.
Qed.

Lemma plain_open : plain 123 = false.
Proof. reflexivity. Qed.

Lemma plain_close : plain 125 = false.
Proof. reflexivity. Qed.

Lemma plain_cases x :
  (x = 123%N /\ plain x = false) \/ (x = 125%N /\ plain x = false)
  \/ ((x =? 123)%N = false /\ (x =? 125)%N = false /\ plain x = true).
Proof.
  unfold plain.
  destruct (x =? 123)%N eqn:A; [left; apply N.eqb_eq in A; auto|].
  destruct (x =? 125)%N eqn:B; [right; left; apply N.eqb_eq in B; auto|].
  right. right. auto.
Qed.

(** What follows [[^{}]*] at nesting depth 1 and at depth 2: the loop of
    groups with its closing brace, and the rest of a group with the loop
    after it. *)
Lemma json_depths s :
  (forall p caps (fuel : mstate -> nat),
     (forall x, (length (ms_rest x) <= length s)%nat ->
                (length (ms_rest x) < fuel x)%nat) ->
     flat_map (fun x => group_loop (fuel x) x)
       (run false NBs (MState p s caps))
     = ending (match_close (Some 2%nat) 1 s) (MState p s caps))
  /\
  (forall p caps (f n0 : nat),
     (length s < f)%nat -> (length s < n0)%nat ->
     flat_map
       (fun x =>
          flat_map
            (fun st' =>
               if (length (ms_rest st') <? n0)%nat then group_loop f st'
               else [])
            (run false (RCat (RLit 125) NBs) x))
       (run false NBs (MState p s caps))
     = ending (match_close (Some 2%nat) 2 s) (MState p s caps)).
Proof.
  induction s as [|c r [IH1 IH2]].
  - split.
    + intros p caps fuel Hfuel. rewrite run_NBs_nil. cbn [flat_map].
      rewrite group_loop_nil. reflexivity.
    + intros p caps f n0 Hf Hn. rewrite run_NBs_nil. cbn [flat_map].
      rewrite run_cat, run_lit_nil. reflexivity.
  - split.
    + intros p caps fuel Hfuel. rewrite run_NBs_cons.
      assert (Hst : exists f, fuel (MState p (c :: r) caps) = S f
                              /\ (length r < f)%nat).
      { specialize (Hfuel (MState p (c :: r) caps) (Nat.le_refl _)).
        cbn [ms_rest length] in Hfuel.
        destruct (fuel (MState p (c :: r) caps)) as [|f]; [lia|].
        exists f. split; [reflexivity | lia]. }
      destruct Hst as (f & Ef & Hf).
      destruct (plain_cases c) as [[-> Hp]|[[-> Hp]|(Ho & Hc & Hp)]];
        rewrite Hp.
      * (* an opening brace: one level down *)
        cbn [flat_map]. rewrite app_nil_r, Ef, group_loop_step.
        rewrite !run_lit_cons. cbn [N.eqb Pos.eqb flat_map].
        rewrite !app_nil_r. cbn [ms_rest length].
        rewrite (IH2 (Some 123%N) caps f (S (length r))) by lia.
        cbn [match_close N.eqb Pos.eqb within Nat.leb].
        rewrite ending_S. reflexivity.
      * (* the closing brace of the object *)
        cbn [flat_map]. rewrite app_nil_r, Ef, group_loop_step.
        rewrite !run_lit_cons. cbn [N.eqb Pos.eqb flat_map].
        reflexivity.
      * (* any other character *)
        rewrite flat_map_app. cbn [flat_map].
        rewrite (group_loop_plain _ _ _ _ _ Hp), !app_nil_r.
        rewrite IH1.
        -- cbn [match_close]. rewrite Ho, Hc, ending_S. reflexivity.
        -- intros x Hx. apply Hfuel. cbn [length]. lia.
    + intros p caps f n0 Hf Hn. cbn [length] in Hf, Hn.
      rewrite run_NBs_cons.
      destruct (plain_cases c) as [[-> Hp]|[[-> Hp]|(Ho & Hc & Hp)]];
        rewrite Hp.
      * (* an opening brace at depth 2: too deep *)
        cbn [flat_map]. rewrite run_cat, run_lit_cons. reflexivity.
      * (* the closing brace of a group: back to depth 1 *)
        cbn [flat_map]. rewrite run_cat, run_lit_cons.
        cbn [N.eqb Pos.eqb flat_map]. rewrite !app_nil_r.
        rewrite (flat_map_ext_in _ (fun x => group_loop f x)).
        -- rewrite IH1 by (intros x Hx; lia).
           cbn [match_close N.eqb Pos.eqb]. rewrite ending_S. reflexivity.
        -- intros x Hx. apply run_NBs_le in Hx.
           replace (length (ms_rest x) <? n0)%nat with true
             by (symmetry; apply Nat.ltb_lt; lia).
           reflexivity.
      * (* any other character *)
        rewrite flat_map_app. cbn [flat_map].
        rewrite run_cat, run_lit_cons, Hc. cbn [flat_map].
        rewrite !app_nil_r, IH2 by lia.
        cbn [match_close]. rewrite Ho, Hc, ending_S. reflexivity.
Qed.

(** The matches of [json_pattern] at a position: the object that brace
    matching finds there, with one level of braces inside at most. *)
Lemma run_json_re p s caps :
  run false json_re (MState p s caps)
  = match s with
    | c :: r =>
        if (c =? 123)%N
        then ending (match_close (Some 2%nat) 1 r) (MState (Some c) r caps)
        else []
    | [] => []
    end.
Proof.
  unfold json_re. rewrite run_cat. destruct s as [|c r].
  - rewrite run_lit_nil. reflexivity.
  - rewrite run_lit_cons. destruct (c =? 123)%N; [|reflexivity].
    cbn [flat_map]. rewrite app_nil_r, run_cat.
    rewrite (flat_map_ext _ (fun x => group_loop (S (length (ms_rest x))) x))
      by reflexivity.
    apply (proj1 (json_depths r)). intros x Hx. lia.
Qed.

Lemma match_close_bound limit s : forall depth n,
  match_close limit depth s = Some n -> (1 <= n <= length s)%nat.
Proof.
  induction s as [|c r IH]; intros depth n; cbn [match_close length].
  - discriminate.
  - assert (Hrec : forall d, option_map S (match_close limit d r) = Some n ->
                             (1 <= n <= S (length r))%nat).
    { intros d H. destruct (match_close limit d r) as [k|] eqn:E;
        [|discriminate H]. injection H as <-. apply IH in E. lia. }
    destruct (c =? 123)%N.
    + destruct (within limit (S depth)); [apply Hrec | discriminate].
    + destruct (c =? 125)%N; [|apply Hrec].
      destruct depth as [|[|d]]; [discriminate| |apply Hrec].
      intros [= <-]. lia.
Qed.

Lemma advance_length n : forall st,
  (n <= length (ms_rest st))%nat ->
  length (ms_rest (advance n st)) = (length (ms_rest st) - n)%nat.
Proof.
  induction n as [|n IH]; intros st H; cbn [advance]; [lia|].
  destruct st as [p [|c r] caps]; cbn [ms_rest length] in *; [lia|].
  rewrite IH; cbn [ms_rest]; lia.
Qed.

Lemma search_json s : forall prev,
  option_map m_text (search_from false json_re prev s)
  = first_balanced_object (Some 2%nat) s.
Proof.
  induction s as [|c r IH]; intros prev.
  - reflexivity.
  - cbn [search_from first_balanced_object balanced_object_at].
    rewrite run_json_re.
    destruct (c =? 123)%N; [|apply IH].
    destruct (match_close (Some 2%nat) 1 r) as [n|] eqn:E; [|apply IH].
    cbn [ending option_map m_text]. unfold consumed. cbn [ms_rest length].
    apply match_close_bound in E.
    rewrite advance_length by (cbn [ms_rest]; lia). cbn [ms_rest].
    replace (S (length r) - (length r - n))%nat with (S n) by lia.
    reflexivity.
Qed.

(** What [re.search] finds with [json_pattern]. *)
Lemma re_search_json response :
  option_map m_text (re_search false json_pattern response)
  = first_balanced_object (Some 2%nat) response.
Proof.
  unfold re_search. rewrite json_pattern_compiled. apply search_json.
Qed.
End JsonSearch.

Lemma match_close_unbounded limit s : forall depth n,
  match_close limit depth s = Some n -> match_close None depth s = Some n.
Proof.
  induction s as [|c r IH]; intros depth n; cbn [match_close within].
  - discriminate.
  - assert (Hrec : forall d,
              option_map S (match_close limit d r) = Some n ->
              option_map S (match_close None d r) = Some n).
    { intros d H. destruct (match_close limit d r) as [k|] eqn:E;
        [|discriminate H]. rewrite (IH _ _ E). exact H. }
    destruct (c =? 123)%N.
    + destruct (within limit (S depth)); [apply Hrec | discriminate].
    + destruct (c =? 125)%N; [|apply Hrec].
      destruct depth as [|[|d]]; [discriminate|intros H; exact H|apply Hrec].
Qed.

Lemma match_close_prefix limit s : forall depth n,
  match_close limit depth s = Some n ->
  match_close limit depth (firstn n s) = Some n.
Proof.
  induction s as [|c r IH]; intros depth n; cbn [match_close].
  - discriminate.
  - assert (Hrec : forall d,
              option_map S (match_close limit d r) = Some n ->
              exists k, n = S k /\ match_close limit d (firstn k r) = Some k).
    { intros d H. destruct (match_close limit d r) as [k|] eqn:E;
        [|discriminate H]. injection H as <-. exists k.
      split; [reflexivity | apply IH, E]. }
    destruct (c =? 123)%N eqn:Ho.
    + destruct (within limit (S depth)) eqn:W; [|discriminate].
      intros H. apply Hrec in H as (k & -> & E).
      cbn [firstn match_close]. rewrite Ho, W, E. reflexivity.
    + destruct (c =? 125)%N eqn:Hc.
      * destruct depth as [|[|d]]; [discriminate| |].
        -- intros [= <-]. cbn [firstn match_close]. rewrite Ho, Hc.
           reflexivity.
        -- intros H. apply Hrec in H as (k & -> & E).
           cbn [firstn match_close]. rewrite Ho, Hc, E. reflexivity.
      * intros H. apply Hrec in H as (k & -> & E).
        cbn [firstn match_close]. rewrite Ho, Hc, E. reflexivity.
Qed.

(** What the search takes is a part of the text that is a balanced object,
    whatever the bound on the nesting. *)
Lemma first_balanced_object_part limit s object :
  first_balanced_object limit s = Some object ->
  (exists before after, s = before ++ object ++ after) /\
  balanced_object_at None object = Some object.
Proof.
  induction s as [|c r IH]; cbn [first_balanced_object balanced_object_at].
  - discriminate.
  - destruct (c =? 123)%N eqn:Ho.
    + destruct (match_close limit 1 r) as [n|] eqn:E; cbn [option_map].
      * intros [= <-]. split.
        -- exists [], (skipn n r). cbn [app firstn].
           rewrite firstn_skipn. reflexivity.
        -- cbn [firstn balanced_object_at]. rewrite Ho.
           pose proof (match_close_bound _ _ _ _ E) as Hn.
           apply match_close_prefix, match_close_unbounded in E.
           rewrite E. cbn [option_map firstn].
           rewrite firstn_firstn, Nat.min_id. reflexivity.
      * intros H. destruct (IH H) as [(before & after & ->) Hb].
        split; [|exact Hb]. exists (c :: before), after. reflexivity.
    + intros H. destruct (IH H) as [(before & after & ->) Hb].
      split; [|exact Hb]. exists (c :: before), after. reflexivity.
Qed.



Section RefinementAnswer.
Context {U : Unicode} {L : Lib}.

(** [extract_event_info], with its dictionary and its heuristic record
    named. *)
Lemma extract_event_info_eq md now self text url :
  extract_event_info md now self text url
  = if negb (is_event_text text) then (None, self)
    else
      let '(event_data, self') :=
        if use_llm self
        then _refine_with_llm md self text (extracted_info_of now text)
        else (None, self) in
      match event_data with
      | Some refined => (Some refined, self')
      | None => (Some (heuristic_event now text url), self')
      end.
Proof.
  unfold extract_event_info, extracted_info_of, heuristic_event.
  destruct (extract_date now text), (extract_time text),
    (extract_location text).
  reflexivity.
Qed.

(** The refinement returns what the answer of the loaded model parses
    to, and nothing without a model. *)
Lemma refine_is_parse md self text extracted_info :
  fst (_refine_with_llm md self text extracted_info)
  = match _get_llm md self with
    | (Some llm, loaded) =>
        parse_response
          (fst (generate_response md llm (generate_calls loaded)
                  (prompt_of text extracted_info)))
          text extracted_info
    | (None, _) => None
    end.
Proof.
  unfold _refine_with_llm.
  destruct (_get_llm md self) as [[h|] s1]; [|reflexivity].
  destruct (generate_response _ _ _ _) as [response ran]. reflexivity.
Qed.

(** What an answer gives: the record of the object it holds. *)
Lemma parse_response_object response text extracted_info :
  parse_response (Some response) text extracted_info
  = match first_balanced_object (Some 2%nat) response with
    | Some object =>
        match json_loads object with
        | Some data => refined_event data text extracted_info
        | None => None
        end
    | None => None
    end.
Proof.
  rewrite <- re_search_json. unfold parse_response.
  destruct response as [|c r]; [reflexivity|].
  destruct (re_search false json_pattern (c :: r)) as [m|]; reflexivity.
Qed.

(** The answer of a loaded handler is what the model wrote after the
    last marker, stripped. *)
Lemma generate_response_loaded md llm n prompt :
  hf_model llm = true -> hf_tokenizer llm = true ->
  fst (generate_response md llm n prompt)
  = option_map
      (fun output => strip (after_last (u "<assistant>:") output))
      (generate md n
         (u "<human>: " ++ prompt ++ [NL] ++ u "<assistant>:")).
Proof.
  intros Hm Ht. unfold generate_response. rewrite Hm, Ht. cbn [negb orb].
  destruct (generate md n _); reflexivity.
Qed.

(** C7, as the code has it: the refinement reads the answer that the
    loaded model gives to its prompt, which is what the model wrote after
    the last marker. What it takes from the answer is the first object
    whose braces are balanced with one level of braces inside at most, a
    part of the answer that is a balanced object, and it returns the
    record of what this object parses to; when there is no such object,
    or when it does not parse, the answer gives no record. When the
    refinement returns nothing (or is switched off) the caller returns
    the heuristic record. *)
Theorem refinement_object_or_draft md now self text url :
  let extracted_info := extracted_info_of now text in
  (fst (_refine_with_llm md self text extracted_info)
   = match _get_llm md self with
     | (Some llm, loaded) =>
         parse_response
           (fst (generate_response md llm (generate_calls loaded)
                   (prompt_of text extracted_info)))
           text extracted_info
     | (None, _) => None
     end) /\
  (forall llm n prompt,
     hf_model llm = true -> hf_tokenizer llm = true ->
     fst (generate_response md llm n prompt)
     = option_map
         (fun output => strip (after_last (u "<assistant>:") output))
         (generate md n
            (u "<human>: " ++ prompt ++ [NL] ++ u "<assistant>:"))) /\
  parse_response None text extracted_info = None /\
  (forall response,
     parse_response (Some response) text extracted_info
     = match first_balanced_object (Some 2%nat) response with
       | Some object =>
           match json_loads object with
           | Some data => refined_event data text extracted_info
           | None => None
           end
       | None => None
       end) /\
  (forall response,
     option_map m_text (re_search false json_pattern response)
     = first_balanced_object (Some 2%nat) response) /\
  (forall response object,
     option_map m_text (re_search false json_pattern response) = Some object ->
     (exists before after, response = before ++ object ++ after) /\
     balanced_object_at None object = Some object) /\
  (forall response,
     match first_balanced_object (Some 2%nat) response with
     | Some object => json_loads object = None
     | None => True
     end ->
     parse_response (Some response) text extracted_info = None) /\
  (is_event_text text = true ->
   use_llm self = false \/
   fst (_refine_with_llm md self text extracted_info) = None ->
   fst (extract_event_info md now self text url)
   = Some (heuristic_event now text url)).
Proof.
  intros extracted_info.
  split; [apply refine_is_parse|].
  split; [apply generate_response_loaded|].
  split; [reflexivity|].
  split; [intros response; apply parse_response_object|].
  split; [exact re_search_json|]. split; [|split].
  - intros response object H. rewrite re_search_json in H.
    exact (first_balanced_object_part _ _ _ H).
  - intros response H. rewrite parse_response_object.
    destruct (first_balanced_object (Some 2%nat) response) as [object|];
      [|reflexivity].
    rewrite H. reflexivity.
  - intros Hev H. rewrite extract_event_info_eq, Hev. cbn [negb].
    fold extracted_info.
    destruct (use_llm self).
    + destruct H as [H|H]; [discriminate H|].
      destruct (_refine_with_llm _ _ _ _) as [event_data s1].
      cbn [fst] in H. subst event_data. reflexivity.
    + reflexivity.
Qed.
End RefinementAnswer.

(** C7 fails on an answer whose braces nest three deep: the object taken
    is an inner one, not the first balanced object of the answer. *)
Lemma deep_object_not_first_balanced :
  let response := uq "{`event`: {`place`: {`room`: 305}}}" in
  option_map m_text (re_search false json_pattern response)
  = Some (uq "{`place`: {`room`: 305}}")
  /\ first_balanced_object None response = Some response.
Proof. split; vm_compute; reflexivity. Qed.

Example json_object_in_text :
  option_map m_text
    (re_search false json_pattern
       (uq "Ответ: {`title`: `Лекция`, `time`: `18:30`} Спасибо!"))
  = Some (uq "{`title`: `Лекция`, `time`: `18:30`}").
Proof. vm_compute. reflexivity. Qed.

Example json_object_one_level :
  option_map m_text
    (re_search false json_pattern
       (uq "{`title`: `Лекция`, `place`: {`room`: 305}, `time`: `18:30`}"))
  = Some (uq "{`title`: `Лекция`, `place`: {`room`: 305}, `time`: `18:30`}").
Proof. vm_compute. reflexivity. Qed.

Example json_object_unclosed :
  option_map m_text
    (re_search false json_pattern (uq "{`title`: {`a`: 1} и {`b`: 2}"))
  = Some (uq "{`a`: 1}").
Proof. vm_compute. reflexivity. Qed.

Example json_object_absent :
  re_search false json_pattern (u "Не могу ответить") = None
  /\ parse_response (Some (u "Не могу ответить")) (u "Встреча завтра")
       some_info = None.
Proof. split; vm_compute; reflexivity. Qed.

(** An answer that parses: the record is the refined one, with the title
    of the answer, the other fields of the heuristics, no URL yet and the
    confidence of a refinement; the model was loaded once. *)
Example extract_event_info_refined :
  let result :=
    @extract_event_info basic_unicode answer_lib answering_model
      (Date 2024 12 24) (new_extractor true)
      (u "Приглашаем на лекцию завтра в 18:30")
      (u "https://t.me/mospolytech/101") in
  option_map ev_title (fst result) = Some (JStr (u "Лекция по математике"))
  /\ option_map ev_date (fst result) = Some (JStr (u "25.12.2024"))
  /\ option_map ev_time (fst result) = Some (JStr (u "18:30"))
  /\ option_map ev_telegram_url (fst result) = Some []
  /\ option_map ev_confidence (fst result) = Some 0.85%float
  /\ refinement_state (snd result) = Loaded
  /\ load_calls (snd result) = 1%nat
  /\ generate_calls (snd result) = 1%nat.
Proof. repeat split; vm_compute; reflexivity. Qed.

(** ** Channels that give no messages *)

Section FailedChannels.
Context {U : Unicode} {L : Lib}.
Variables (P : Page_lib) (cfg : Settings) (w : World).

Lemma parser_eta (self : TelegramParserV2) :
  {| seen_messages := seen_messages self; extractor := extractor self;
     saved := saved self |} = self.
Proof. destruct self. reflexivity. Qed.

(** A page that gives no message leaves the hashes as they were. *)
Lemma parse_divs_nil cutoff_date channel divs : forall seen,
  fst (parse_divs P cutoff_date channel seen divs) = [] ->
  snd (parse_divs P cutoff_date channel seen divs) = seen.
Proof.
  induction divs as [|div r IH]; intros seen; cbn [parse_divs];
    [reflexivity|].
  destruct (parse_div P cutoff_date channel div) as [message|]; [|apply IH].
  destruct (bool_decide (message_hash message ∈ seen)); [apply IH|].
  destruct (parse_divs P cutoff_date channel _ r) as [messages seen'].
  cbn [fst]. discriminate.
Qed.

Lemma parse_channel_nil seen channel :
  fst (parse_channel P cfg w seen channel) = Some [] ->
  parse_channel P cfg w seen channel = (Some [], seen).
Proof.
  unfold parse_channel.
  destruct (_fetch_page cfg _) as [[[|c html]| |] trace]; cbn [fst];
    try reflexivity; [|discriminate].
  destruct (find_message_divs P (c :: html)) as [message_divs|];
    [|reflexivity].
  pose proof (parse_divs_nil
                (w_now w - days_back cfg * microseconds_per_day) channel
                message_divs seen) as H.
  destruct (parse_divs P _ channel seen message_divs) as [messages seen'].
  cbn [fst snd] in *. intros [= ->]. rewrite (H eq_refl). reflexivity.
Qed.

(** C8, as the code has it: a channel whose fetch gives no page and a
    channel whose page holds no post both give the empty list of
    messages, and every channel that gives the empty list, its posts all
    left out included, ends alike: the channel has no statistics and the
    parser is as it was; the run counts such a channel as failed, and
    nothing else of the statistics changes. *)
Theorem failed_fetch_counted_as_empty (self : TelegramParserV2)
    (channel : str) (statistics : Statistics) :
  let fetched :=
    fst (_fetch_page cfg (w_get w (u "https://t.me/s/" ++ channel))) in
  let parsed := parse_channel P cfg w (seen_messages self) channel in
  (fetched = NoPage \/
   (exists html, fetched = Page html /\ find_message_divs P html = Some []) ->
   parsed = (Some [], seen_messages self)) /\
  (fst parsed = Some [] ->
   parse_and_process_channel P cfg w self channel = (None, self) /\
   let counted := count_result statistics (channel, None) in
   failed counted = S (failed statistics) /\
   processed counted = processed statistics /\
   total_messages counted = total_messages statistics /\
   total_events counted = total_events statistics /\
   channels_stats counted = channels_stats statistics).
Proof.
  intros fetched parsed. split.
  - intros H. subst parsed. unfold parse_channel. fold fetched.
    destruct (_fetch_page cfg _) as [result trace]. cbn [fst] in fetched.
    subst fetched.
    destruct H as [->|(html & -> & Hdivs)]; [reflexivity|].
    destruct html as [|c r]; [reflexivity|].
    rewrite Hdivs. reflexivity.
  - intros H. subst parsed. split; [|repeat split].
    unfold parse_and_process_channel.
    rewrite (parse_channel_nil _ _ H), parser_eta. reflexivity.
Qed.
End FailedChannels.

(** A channel that cannot be reached, a channel whose page holds no post
    and a channel whose posts are all too old. *)
Lemma failed_fetch_counted_as_empty_witness :
  let down :=
    parse_and_process_channel example_pages default_settings world_down
      (new_parser false) (u "mospolytech") in
  let empty :=
    parse_and_process_channel example_pages default_settings
      (world_serving (u "<html></html>")) (new_parser false)
      (u "mospolytech") in
  let old :=
    parse_and_process_channel example_pages default_settings world_later
      (new_parser false) (u "mospolytech") in
  let counted := count_result (no_statistics 1) (u "mospolytech", None) in
  (down = (None, new_parser false) /\ empty = (None, new_parser false) /\
   old = (None, new_parser false)) /\
  failed counted = 1%nat /\
  processed counted = 0%nat /\
  total_messages counted = 0%nat /\
  total_events counted = 0%nat /\
  channels_stats counted = ∅.
Proof.
  intros down empty old counted.
  destruct (failed_fetch_counted_as_empty example_pages default_settings
              world_down (new_parser false) (u "mospolytech")
              (no_statistics 1)) as [_ Hdown].
  destruct (Hdown ltac:(reflexivity)) as [Hdown' Hcount].
  destruct (failed_fetch_counted_as_empty example_pages default_settings
              (world_serving (u "<html></html>")) (new_parser false)
              (u "mospolytech") (no_statistics 1)) as [_ Hempty].
  destruct (Hempty ltac:(reflexivity)) as [Hempty' _].
  destruct (failed_fetch_counted_as_empty example_pages default_settings
              world_later (new_parser false) (u "mospolytech")
              (no_statistics 1)) as [_ Hold].
  destruct (Hold ltac:(vm_compute; reflexivity)) as [Hold' _].
  exact (conj (conj Hdown' (conj Hempty' Hold')) Hcount).
Defined.

(** C8 fails: the run that cannot reach its channel and the run that is
    served a page without posts end with the same statistics, the channel
    counted as failed in both. *)
Lemma failed_fetch_same_as_empty_page :
  fst (_fetch_page default_settings
         (w_get world_down (u "https://t.me/s/mospolytech"))) = NoPage
  /\ fst (_fetch_page default_settings
            (w_get (world_serving (u "<html></html>"))
               (u "https://t.me/s/mospolytech")))
     = Page (u "<html></html>")
  /\ parse_and_process example_pages default_settings world_down
       (new_parser false) [u "mospolytech"]
     = (one_failed, new_parser false)
  /\ parse_and_process example_pages default_settings
       (world_serving (u "<html></html>")) (new_parser false)
       [u "mospolytech"]
     = (one_failed, new_parser false).
Proof. repeat split; vm_compute; reflexivity. Qed.

(** A channel with posts is counted as processed. *)
Example parse_and_process_posts :
  let statistics :=
    fst (parse_and_process example_pages default_settings
           (world_serving (u "posts")) (new_parser false)
           [u "mospolytech"]) in
  (processed statistics, failed statistics, total_messages statistics,
   total_events statistics) = (1, 0, 1, 1)%nat
  /\ channels_stats statistics !! u "mospolytech"
     = Some {| total := 1; events := 1; skipped := 0 |}.
Proof. split; vm_compute; reflexivity. Qed.

(** ** The title *)

Lemma split_on_first_line (text : str) :
  exists rest, split_on NL text = first_line text :: rest.
Proof.
  induction text as [|c r [rest IH]]; simpl.
  - exists []. reflexivity.
  - destruct (c =? NL)%N.
    + eexists. reflexivity.
    + rewrite IH. exists rest. reflexivity.
Qed.

Lemma ellipsize_length (s : str) : (length (ellipsize s) <= 100)%nat.
Proof.
  unfold ellipsize. destruct (100 <? length s)%nat eqn:H.
  - apply Nat.ltb_lt in H. rewrite length_app, firstn_length_le by lia.
    change (length (u "...")) with 3%nat. lia.
  - apply Nat.ltb_ge in H. exact H.
Qed.

Section Title.
Context {U : Unicode}.

(** C9, as the code has it: the title is the first line of the text, the
    empty line included, stripped and cut to 100 characters with an
    ellipsis; the words of the text are never used, as a text always has a
    first line. A first line that is not empty is the first non-empty
    line. *)
Theorem extract_title_first_line (text : str) :
  extract_title text = ellipsize (strip (first_line text)) /\
  (length (extract_title text) <= 100)%nat /\
  (if str_eqb (first_line text) [] then True
   else first_nonempty_line text = Some (first_line text)).
Proof.
  assert (E : extract_title text = ellipsize (strip (first_line text))).
  { unfold extract_title. destruct (split_on_first_line text) as [rest ->].
    reflexivity. }
  split; [exact E|]. split; [rewrite E; apply ellipsize_length|].
  destruct (str_eqb (first_line text) []) eqn:H; [exact I|].
  unfold first_nonempty_line.
  destruct (split_on_first_line text) as [rest ->].
  cbn [List.find]. rewrite H. reflexivity.
Qed.
End Title.

(** C9 fails on a text that begins with a blank line: the title is empty,
    although the text has a non-empty line. *)
Lemma extract_title_blank_first_line :
  extract_title (NL :: u "День открытых дверей") = []
  /\ spec_title (NL :: u "День открытых дверей") = u "День открытых дверей".
Proof. split; vm_compute; reflexivity. Qed.

Example extract_title_two_lines :
  extract_title (u "  День открытых дверей  " ++ NL :: u "в субботу")
  = u "День открытых дверей".
Proof. vm_compute. reflexivity. Qed.

Example extract_title_long :
  length (extract_title (repeat 1078%N 101)) = 100%nat
  /\ skipn 97 (extract_title (repeat 1078%N 101)) = u "...".
Proof. split; vm_compute; reflexivity. Qed.

(** ** Posts that channel parsing drops *)

Section DroppedPosts.
Context {U : Unicode} {L : Lib}.
Variable P : Page_lib.

Lemma parse_div_short cutoff channel div :
  short_text div = true -> parse_div P cutoff channel div = None.
Proof.
  unfold short_text, parse_div. intros H.
  destruct (time_tag div); [|reflexivity].
  destruct (fromisoformat P _); [|reflexivity].
  destruct (_ <? cutoff); [reflexivity|].
  destruct (text_div div); [|reflexivity].
  rewrite H. reflexivity.
Qed.

Lemma parse_div_incomplete cutoff channel div :
  incomplete div = true -> parse_div P cutoff channel div = None.
Proof.
  unfold incomplete, parse_div. intros H.
  destruct (time_tag div); [|reflexivity].
  destruct (fromisoformat P _); [|reflexivity].
  destruct (_ <? cutoff); [reflexivity|].
  destruct (text_div div); [|reflexivity].
  destruct (length _ <? 10)%nat; [reflexivity|].
  destruct (msg_link div) as [[href|]|]; [discriminate H| |]; reflexivity.
Qed.

Lemma parse_div_text cutoff channel div message :
  parse_div P cutoff channel div = Some message ->
  short_text div = false /\ incomplete div = false /\
  (10 <= length (msg_text message))%nat /\
  exists raw, text_div div = Some raw /\ msg_text message = _clean_text raw.
Proof.
  intros H.
  destruct (short_text div) eqn:S;
    [rewrite (parse_div_short _ _ _ S) in H; discriminate H|].
  destruct (incomplete div) eqn:I;
    [rewrite (parse_div_incomplete _ _ _ I) in H; discriminate H|].
  split; [reflexivity|]. split; [reflexivity|].
  unfold short_text in S. unfold parse_div in H.
  destruct (time_tag div); [|discriminate H].
  destruct (fromisoformat P _); [|discriminate H].
  destruct (_ <? cutoff); [discriminate H|].
  destruct (text_div div) as [raw|]; [|discriminate H].
  rewrite S in H.
  destruct (msg_link div) as [[href|]|]; try discriminate H.
  injection H as <-. cbn [msg_text]. apply Nat.ltb_ge in S.
  split; [exact S|]. exists raw. split; reflexivity.
Qed.

Lemma parse_divs_texts cutoff channel divs :
  forall seen message,
    In message (fst (parse_divs P cutoff channel seen divs)) ->
    (10 <= length (msg_text message))%nat.
Proof.
  induction divs as [|div r IH]; intros seen message; simpl; [tauto|].
  destruct (parse_div P cutoff channel div) as [m|] eqn:D; [|apply IH].
  destruct (bool_decide _); [apply IH|].
  specialize (IH ({[message_hash m]} ∪ seen) message).
  destruct (parse_divs P cutoff channel _ r) as [messages seen'].
  cbn [fst] in *. intros [<-|Hin]; [|exact (IH Hin)].
  apply parse_div_text in D. tauto.
Qed.

(** C10: a post whose cleaned text is empty or shorter than 10 characters,
    like a post without timestamp, text block or permalink, gives no
    message; the messages of the channel and the digests seen are what
    they are for the page without these posts, so such a post reaches
    neither the filter of duplicates nor the classifier nor the totals;
    every message that is kept has a text of 10 characters at least. *)
Theorem short_posts_dropped (cutoff_date : Z) (channel_name : str)
    (seen : gset str) (divs : list message_div) :
  let kept := fun div => negb (short_text div || incomplete div) in
  parse_divs P cutoff_date channel_name seen (List.filter kept divs)
  = parse_divs P cutoff_date channel_name seen divs /\
  Forall (fun div =>
            short_text div || incomplete div = true ->
            parse_div P cutoff_date channel_name div = None) divs /\
  Forall (fun message => (10 <= length (msg_text message))%nat)
    (fst (parse_divs P cutoff_date channel_name seen divs)).
Proof.
  intros kept. split; [|split].
  - revert seen. induction divs as [|div r IH]; intros seen; [reflexivity|].
    cbn [List.filter]. unfold kept at 1.
    destruct (short_text div) eqn:S; cbn [orb negb].
    + cbn [parse_divs]. rewrite (parse_div_short _ _ _ S). apply IH.
    + destruct (incomplete div) eqn:I; cbn [negb].
      * cbn [parse_divs]. rewrite (parse_div_incomplete _ _ _ I). apply IH.
      * cbn [parse_divs].
        destruct (parse_div P cutoff_date channel_name div); [|apply IH].
        destruct (bool_decide _); [apply IH|]. rewrite IH. reflexivity.
  - apply List.Forall_forall. intros div _ H.
    apply orb_true_iff in H as [H|H];
      [apply parse_div_short | apply parse_div_incomplete]; exact H.
  - apply List.Forall_forall. intros message.
    apply parse_divs_texts.
Qed.

Lemma insert_by_datetime_length m sorted :
  length (insert_by_datetime m sorted) = S (length sorted).
Proof.
  induction sorted as [|y s IH]; [reflexivity|].
  cbn [insert_by_datetime]. destruct (_ <=? _); cbn [length]; lia.
Qed.

Lemma sort_by_datetime_length messages :
  length (sort_by_datetime messages) = length messages.
Proof.
  induction messages as [|x l IH]; [reflexivity|].
  unfold sort_by_datetime in *. cbn [fold_right].
  rewrite insert_by_datetime_length, IH. reflexivity.
Qed.

(** The total of a channel is the number of the messages kept. *)
Lemma process_channel_total w self messages channel stats self' :
  process_channel_messages w self messages channel = (Some stats, self') ->
  total stats = length messages.
Proof.
  unfold process_channel_messages.
  destruct messages as [|m r]; [intros [= <- _]; reflexivity|].
  destruct (process_batch _ _ _ _) as [batch_results ex]. cbv zeta.
  destruct (collect_events _) as [|e es];
    [|destruct (w_save_raises w channel); [discriminate|]];
    intros [= <- _]; cbn [total];
    exact (sort_by_datetime_length (m :: r)).
Qed.
End DroppedPosts.

(** Of the three blocks of the example page, the one of two characters and
    the one without permalink are dropped. *)
Example parse_divs_three_posts :
  List.map msg_id (fst (parse_divs example_pages 0 (u "mospolytech") ∅
                          three_posts))
  = [u "101"]
  /\ List.map short_text three_posts = [false; true; false]
  /\ List.map incomplete three_posts = [false; false; true].
Proof. repeat split; vm_compute; reflexivity. Qed.

(* ================================================================== *)
(** * Further properties *)
(* ================================================================== *)

(** ** The life of an extractor *)

Section ExtractorLife.
Context {U : Unicode} {L : Lib}.
Variables (md : Model) (now : date).

Lemma evolves_refl self : extractor_ok self -> evolves self self.
Proof.
  intros H. unfold evolves. repeat split; try assumption; try lia.
  destruct (refinement_state self); auto.
Qed.

Lemma evolves_trans a b c : evolves a b -> evolves b c -> evolves a c.
Proof.
  intros (Hb & L1 & G1 & T1) (Hc & L2 & G2 & T2).
  unfold evolves. repeat split; try assumption; try lia.
  destruct (refinement_state a) eqn:E; [exact I| |].
  - destruct T1 as [E1 U1]. rewrite E1 in T2. destruct T2 as [E2 U2].
    split; congruence.
  - subst b. rewrite E in T2. exact T2.
Qed.

Lemma get_llm_evolves self :
  extractor_ok self -> evolves self (snd (_get_llm md self)).
Proof.
  intros H. unfold _get_llm.
  destruct (_llm_error self) eqn:E; [apply evolves_refl, H|].
  destruct (_llm_loaded self) eqn:Ld.
  - destruct (_llm self); apply evolves_refl, H.
  - unfold extractor_ok, refinement_state in H. rewrite E, Ld in H.
    destruct H as (Hl & Hg & Hn).
    destruct (load_model_outcome md (load_calls self));
      cbn [load_model snd];
      unfold evolves, extractor_ok, refinement_state;
      cbn [_llm_error _llm_loaded load_calls generate_calls use_llm _llm];
      rewrite ?E, ?Ld, ?Hl, ?Hg; repeat split; lia.
Qed.

(** What [_get_llm] returns is a ready handle, when it returns one. *)
Lemma get_llm_ready self h :
  extractor_ok self -> fst (_get_llm md self) = Some h -> h = ready_handler.
Proof.
  intros H. unfold _get_llm.
  destruct (_llm_error self) eqn:E; [discriminate|].
  destruct (_llm_loaded self) eqn:Ld.
  - unfold extractor_ok, refinement_state in H. rewrite E, Ld in H.
    destruct H as [_ ->]. cbn [fst]. congruence.
  - destruct (load_model_outcome md (load_calls self));
      cbn [load_model fst]; [|discriminate|discriminate].
    intros [= <-]. reflexivity.
Qed.

Lemma get_llm_loaded self h :
  fst (_get_llm md self) = Some h ->
  refinement_state (snd (_get_llm md self)) = Loaded.
Proof.
  unfold _get_llm.
  destruct (_llm_error self) eqn:E; [discriminate|].
  destruct (_llm_loaded self) eqn:Ld.
  - destruct (_llm self); [|discriminate]. intros _.
    unfold refinement_state. cbn [snd]. rewrite E, Ld. reflexivity.
  - destruct (load_model_outcome md (load_calls self));
      cbn [load_model fst snd]; [|discriminate|discriminate].
    intros _. unfold refinement_state.
    cbn [_llm_error _llm_loaded]. reflexivity.
Qed.

Lemma refine_evolves self text extracted_info :
  extractor_ok self ->
  evolves self (snd (_refine_with_llm md self text extracted_info)).
Proof.
  intros H. unfold _refine_with_llm.
  pose proof (get_llm_evolves self H) as Hev.
  pose proof (get_llm_loaded self) as Hl.
  destruct (_get_llm md self) as [[h|] s1]; cbn [fst snd] in *;
    [|exact Hev].
  specialize (Hl h eq_refl).
  destruct (generate_response md h (generate_calls s1) _) as [response ran].
  cbn [snd]. eapply evolves_trans; [exact Hev|].
  destruct Hev as (Hok & _).
  unfold extractor_ok in Hok. rewrite Hl in Hok.
  unfold refinement_state in Hl.
  destruct (_llm_error s1) eqn:E; [discriminate|].
  destruct (_llm_loaded s1) eqn:Ld; [|discriminate].
  unfold evolves, extractor_ok, refinement_state.
  cbn [_llm_error _llm_loaded load_calls generate_calls use_llm _llm].
  rewrite E, Ld. repeat split; try tauto; try lia.
  destruct ran; lia.
Qed.

Lemma extract_evolves self text url :
  extractor_ok self ->
  evolves self (snd (extract_event_info md now self text url)).
Proof.
  intros H. rewrite extract_event_info_eq.
  destruct (negb (is_event_text text)); [apply evolves_refl, H|].
  destruct (use_llm self).
  - pose proof (refine_evolves self text (extracted_info_of now text) H)
      as Hev.
    destruct (_refine_with_llm _ _ _ _) as [[refined|] s1]; exact Hev.
  - apply evolves_refl, H.
Qed.

Lemma evolves_ok a b : evolves a b -> extractor_ok b.
Proof. intros [H _]. exact H. Qed.

Lemma extract_each_evolves texts : forall self,
  extractor_ok self -> evolves self (snd (extract_each md now self texts)).
Proof.
  induction texts as [|[text url] r IH]; intros self H;
    [apply evolves_refl, H|].
  cbn [extract_each].
  pose proof (extract_evolves self text url H) as H1.
  destruct (extract_event_info md now self text url) as [res s1].
  cbn [snd] in H1. specialize (IH s1 (evolves_ok _ _ H1)).
  destruct (extract_each md now s1 r) as [rs s2]. cbn [snd] in *.
  eapply evolves_trans; eassumption.
Qed.

Lemma fill_batch_evolves event_texts : forall self acc,
  extractor_ok self ->
  evolves self (snd (fill_batch_results md now self event_texts acc)).
Proof.
  induction event_texts as [|[text url] r IH]; intros self acc H;
    [apply evolves_refl, H|].
  cbn [fill_batch_results].
  pose proof (extract_evolves self text url H) as H1.
  destruct (extract_event_info md now self text url) as [res s1].
  cbn [snd] in H1. eapply evolves_trans; [exact H1|].
  apply IH, (evolves_ok _ _ H1).
Qed.

Lemma process_batch_evolves texts self :
  extractor_ok self -> evolves self (snd (process_batch md now self texts)).
Proof.
  intros H. unfold process_batch.
  destruct (use_llm self); cbn [negb]; [|apply extract_each_evolves, H].
  destruct (List.filter _ texts) as [|x xs]; [apply evolves_refl, H|].
  pose proof (get_llm_evolves self H) as H1.
  destruct (_get_llm md self) as [llm s1]. cbn [snd] in H1.
  pose proof (fill_batch_evolves (x :: xs) s1 ∅ (evolves_ok _ _ H1)) as H2.
  destruct (fill_batch_results md now s1 (x :: xs) ∅) as [br s2].
  cbn [snd] in *. eapply evolves_trans; eassumption.
Qed.

Lemma do_call_evolves self c :
  extractor_ok self -> evolves self (do_call md now self c).
Proof.
  intros H. destruct c; cbn [do_call].
  - apply get_llm_evolves, H.
  - apply refine_evolves, H.
  - apply extract_evolves, H.
  - apply process_batch_evolves, H.
Qed.

Lemma do_calls_evolves calls : forall self,
  extractor_ok self -> evolves self (do_calls md now self calls).
Proof.
  unfold do_calls.
  induction calls as [|c r IH]; intros self H; [apply evolves_refl, H|].
  cbn [fold_left]. pose proof (do_call_evolves self c H) as H1.
  eapply evolves_trans; [exact H1|]. apply IH, (evolves_ok _ _ H1).
Qed.

(** X1: whatever calls a process makes on a new extractor, the model is
    loaded once at most: [load_model] is not called before the refinement
    is first wanted and is called once in all after; an extractor that is
    loaded stays loaded with a ready handle, one whose load failed stays as
    it is, and the model generates only on a loaded extractor. *)
Theorem model_loaded_once (use : bool) (calls more : list call) :
  let self := do_calls md now (new_extractor use) calls in
  let later := do_calls md now self more in
  (load_calls self <= 1)%nat /\
  (load_calls self = 0%nat <-> refinement_state self = Unloaded) /\
  (refinement_state self = Loaded ->
   _llm self = Some ready_handler /\ refinement_state later = Loaded
   /\ load_calls later = 1%nat) /\
  (refinement_state self = Failed ->
   use_llm self = false /\ generate_calls self = 0%nat /\ later = self) /\
  (refinement_state self = Unloaded -> generate_calls self = 0%nat).
Proof.
  intros self later.
  assert (Hnew : extractor_ok (new_extractor use)) by (repeat split).
  pose proof (evolves_ok _ _ (do_calls_evolves calls _ Hnew)) as Hok.
  fold self in Hok.
  pose proof (do_calls_evolves more self Hok) as (Hok' & _ & _ & Ht).
  fold later in Hok', Ht.
  unfold extractor_ok in Hok, Hok'.
  destruct (refinement_state self) eqn:E.
  - destruct Hok as (Hl & Hg & Hn). rewrite Hl.
    repeat split; try lia; try discriminate; auto.
  - destruct Hok as (Hl & Hh). destruct Ht as [El Eu].
    rewrite El in Hok'. destruct Hok' as [Hl' _]. rewrite Hl.
    repeat split; try lia; try discriminate; auto.
  - destruct Hok as (Hl & Hg & Hu). rewrite Hl.
    repeat split; try lia; try discriminate; auto.
Qed.
End ExtractorLife.

(** ** Batches *)

(** The two passes of a batch over its texts, for any test [keep] of a
    text. *)
Section Selection.
Context {A B : Type}.
Variables (keep : A -> bool) (fits : A -> option B -> Prop).
Hypothesis fits_none : forall a, keep a = false -> fits a None.

Lemma none_selected_fit (l : list A) :
  List.filter keep l = [] ->
  Forall2 fits l
    (List.map (fun _ => @None B) (List.filter (fun a => negb (keep a)) l)).
Proof using fits_none.
  induction l as [|a r IH]; intros F; [constructor|].
  cbn [List.filter] in F |- *.
  destruct (keep a) eqn:E; [discriminate F|].
  cbn [negb List.map]. constructor; [|exact (IH F)].
  apply fits_none, E.
Qed.

Variable found : A -> option (option B).
Hypothesis fits_some : forall a b, keep a = true -> fits a (Some b).

Lemma selected_fit (l : list A) :
  Forall (fun a => exists b, found a = Some (Some b)) (List.filter keep l) ->
  Forall2 fits l
    (List.map
       (fun a =>
          if keep a then
            match found a with
            | Some b => b
            | None => None
            end
          else None) l).
Proof using fits_none fits_some.
  induction l as [|a r IH]; intros Hnew; [constructor|].
  cbn [List.map List.filter] in Hnew |- *.
  destruct (keep a) eqn:E.
  - apply Forall_cons in Hnew as [[b Hb] Hnew].
    constructor; [|exact (IH Hnew)]. rewrite Hb.
    apply fits_some, E.
  - constructor; [|exact (IH Hnew)]. apply fits_none, E.
Qed.
End Selection.

Section BatchShape.
Context {U : Unicode} {L : Lib}.
Variables (md : Model) (now : date).

Lemma extract_event_info_fits self text url :
  result_fits (text, url) (fst (extract_event_info md now self text url)).
Proof.
  rewrite extract_event_info_eq. unfold result_fits. cbn [fst].
  destruct (is_event_text text) eqn:E; cbn [negb]; [|reflexivity].
  destruct (use_llm self); [|reflexivity].
  destruct (_refine_with_llm _ _ _ _) as [[refined|] s1]; reflexivity.
Qed.

Lemma extract_event_info_plain self text url :
  use_llm self = false ->
  extract_event_info md now self text url
  = (heuristic_result now (text, url), self).
Proof.
  intros H. rewrite extract_event_info_eq, H. unfold heuristic_result.
  cbn [fst snd]. destruct (is_event_text text); reflexivity.
Qed.

Lemma extract_each_plain texts self :
  use_llm self = false ->
  extract_each md now self texts
  = (List.map (heuristic_result now) texts, self).
Proof.
  intros H. induction texts as [|[text url] r IH]; [reflexivity|].
  cbn [extract_each List.map].
  rewrite (extract_event_info_plain _ _ _ H), IH. reflexivity.
Qed.

Lemma extract_each_fits texts : forall self,
  Forall2 result_fits texts (fst (extract_each md now self texts)).
Proof.
  induction texts as [|[text url] r IH]; intros self; [constructor|].
  cbn [extract_each].
  pose proof (extract_event_info_fits self text url) as H1.
  destruct (extract_event_info md now self text url) as [res s1].
  specialize (IH s1). destruct (extract_each md now s1 r) as [rs s2].
  cbn [fst] in *. constructor; assumption.
Qed.

(** The dictionary of the batch holds a record for each URL it was
    given. *)
Lemma fill_batch_holds event_texts : forall self acc,
  Forall (fun tu => is_event_text (fst tu) = true) event_texts ->
  let batch_results :=
    fst (fill_batch_results md now self event_texts acc) in
  (forall url ev, acc !! url = Some (Some ev) ->
                  exists ev', batch_results !! url = Some (Some ev')) /\
  Forall (fun tu => exists ev, batch_results !! snd tu = Some (Some ev))
    event_texts.
Proof.
  induction event_texts as [|[text url] r IH]; intros self acc Hall;
    cbn [fill_batch_results].
  - split; [|constructor]. intros u0 ev H. exists ev. exact H.
  - apply Forall_cons in Hall as [Hev Hall]. cbn [fst] in Hev.
    pose proof (extract_event_info_fits self text url) as Hfit.
    destruct (extract_event_info md now self text url) as [res s1].
    cbn [fst] in Hfit. unfold result_fits in Hfit. cbn [fst] in Hfit.
    destruct res as [ev|]; [|congruence].
    destruct (IH s1 (<[url := Some ev]> acc) Hall) as [Hkeep Hnew].
    split.
    + intros u0 ev0 H0. destruct (decide (url = u0)) as [->|Hne].
      * apply (Hkeep u0 ev). apply lookup_insert_eq.
      * apply (Hkeep u0 ev0). rewrite lookup_insert_ne by exact Hne.
        exact H0.
    + constructor; [|exact Hnew]. cbn [snd].
      apply (Hkeep url ev). apply lookup_insert_eq.
Qed.

Lemma result_fits_none (tu : str * str) :
  is_event_text (fst tu) = false -> result_fits tu None.
Proof. intros H. exact H. Qed.

Lemma result_fits_some (tu : str * str) (ev : EventData) :
  is_event_text (fst tu) = true -> result_fits tu (Some ev).
Proof. intros H. exact H. Qed.

Lemma no_event_texts_fit (texts : list (str * str)) :
  List.filter (fun tu => is_event_text (fst tu)) texts = [] ->
  Forall2 result_fits texts
    (List.map (fun _ => @None EventData)
       (List.filter (fun tu => negb (is_event_text (fst tu))) texts)).
Proof.
  apply (none_selected_fit (fun tu => is_event_text (fst tu)) result_fits
           result_fits_none).
Qed.

Lemma looked_up_fit (batch_results : gmap str (option EventData))
    (texts : list (str * str)) :
  Forall (fun tu => exists ev, batch_results !! snd tu = Some (Some ev))
    (List.filter (fun tu => is_event_text (fst tu)) texts) ->
  Forall2 result_fits texts
    (List.map
       (fun tu =>
          if is_event_text (fst tu) then
            match batch_results !! snd tu with
            | Some event_data => event_data
            | None => None
            end
          else None) texts).
Proof.
  apply (selected_fit (fun tu => is_event_text (fst tu)) result_fits
           result_fits_none (fun tu => batch_results !! snd tu)
           result_fits_some).
Qed.

Lemma process_batch_Forall2 (self : Extractor) (texts : list (str * str)) :
  Forall2 result_fits texts (fst (process_batch md now self texts)).
Proof.
  unfold process_batch.
  destruct (use_llm self); cbn [negb]; [|apply extract_each_fits].
  destruct (List.filter (fun tu => is_event_text (fst tu)) texts)
    as [|x xs] eqn:F.
  - cbn [fst]. apply no_event_texts_fit, F.
  - destruct (_get_llm md self) as [llm s1].
    assert (Hall : Forall (fun tu => is_event_text (fst tu) = true)
                     (x :: xs)).
    { rewrite <- F. apply List.Forall_forall. intros tu Hin.
      apply List.filter_In in Hin. tauto. }
    pose proof (fill_batch_holds (x :: xs) s1 ∅ Hall) as [_ Hnew].
    destruct (fill_batch_results md now s1 (x :: xs) ∅) as [br s2].
    cbn [fst] in Hnew |- *. apply looked_up_fit. rewrite F. exact Hnew.
Qed.

(** X2: a batch gives one result for each text, in the order of the
    texts, and a text has a record exactly when it is event-like; this
    holds with the model and without it. *)
Theorem process_batch_fits (self : Extractor) (texts : list (str * str)) :
  let results := fst (process_batch md now self texts) in
  length results = length texts /\ Forall2 result_fits texts results.
Proof.
  intros results. pose proof (process_batch_Forall2 self texts) as H.
  split; [|exact H]. symmetry. exact (Forall2_length _ _ _ H).
Qed.

(** X3: with the refinement switched off, a batch is the heuristic
    extraction of each text, and the extractor is left as it was. *)
Theorem process_batch_plain (self : Extractor) (texts : list (str * str)) :
  use_llm self = false ->
  process_batch md now self texts
  = (List.map (heuristic_result now) texts, self).
Proof.
  intros H. unfold process_batch. rewrite H. cbn [negb].
  apply extract_each_plain, H.
Qed.

(** X4: with the refinement on, the records of a batch are kept by URL:
    two event-like texts that carry the same URL get one and the same
    record, whatever their texts. *)
Theorem process_batch_shared_url (self : Extractor)
    (texts : list (str * str)) (i j : nat) (a b : str * str) :
  use_llm self = true ->
  nth_error texts i = Some a -> nth_error texts j = Some b ->
  is_event_text (fst a) = true -> is_event_text (fst b) = true ->
  snd a = snd b ->
  nth_error (fst (process_batch md now self texts)) i
  = nth_error (fst (process_batch md now self texts)) j.
Proof.
  intros Hllm Ha Hb Ea Eb Hurl. unfold process_batch. rewrite Hllm.
  cbn [negb].
  destruct (List.filter _ texts) as [|x xs] eqn:F.
  - exfalso. apply nth_error_In in Ha.
    assert (Hin : In a (List.filter (fun tu => is_event_text (fst tu)) texts))
      by (apply List.filter_In; split; assumption).
    rewrite F in Hin. destruct Hin.
  - destruct (_get_llm md self) as [llm s1].
    destruct (fill_batch_results md now s1 (x :: xs) ∅) as [br s2].
    cbn [fst]. rewrite !nth_error_map, Ha, Hb. cbn [option_map].
    rewrite Ea, Eb, Hurl. reflexivity.
Qed.
End BatchShape.

Lemma process_batch_plain_witness :
  process_batch failing_model (Date 2024 12 24) (new_extractor false)
    three_texts
  = (List.map (heuristic_result (Date 2024 12 24)) three_texts,
     new_extractor false).
Proof.
  apply (process_batch_plain failing_model (Date 2024 12 24)
           (new_extractor false) three_texts).
  reflexivity.
Defined.

Example process_batch_three_texts :
  List.map (option_map ev_date)
    (fst (process_batch failing_model (Date 2024 12 24)
            (new_extractor false) three_texts))
  = [Some (JStr (u "25.12.2024")); None; Some (JStr (u "Не указана"))].
Proof. vm_compute. reflexivity. Qed.

Lemma process_batch_shared_url_witness :
  nth_error (fst (process_batch silent_model (Date 2024 12 24)
                    (new_extractor true) shared_texts)) 0
  = nth_error (fst (process_batch silent_model (Date 2024 12 24)
                      (new_extractor true) shared_texts)) 1.
Proof.
  apply (process_batch_shared_url silent_model (Date 2024 12 24)
           (new_extractor true) shared_texts 0 1
           (u "Приглашаем на лекцию завтра в 18:30",
            u "https://t.me/mospolytech/101")
           (u "Состоится регистрация на турнир",
            u "https://t.me/mospolytech/101"));
    vm_compute; reflexivity.
Defined.

(** Under one URL the record of the later text stands for both; without
    the refinement each text has its own. *)
Example process_batch_shared_texts :
  List.map (option_map ev_date)
    (fst (process_batch silent_model (Date 2024 12 24)
            (new_extractor true) shared_texts))
  = [Some (JStr (u "Не указана")); Some (JStr (u "Не указана"))]
  /\ List.map (option_map ev_date)
       (fst (process_batch silent_model (Date 2024 12 24)
               (new_extractor false) shared_texts))
     = [Some (JStr (u "25.12.2024")); Some (JStr (u "Не указана"))].
Proof. split; vm_compute; reflexivity. Qed.

(** ** Channels *)

(** The results of a batch put beside their messages, for any test
    [keep] of a message that the results follow. *)
Section Pairs.
Variable keep : TelegramMessage -> bool.

Lemma collect_events_urls messages results :
  Forall2 (follows keep) messages results ->
  List.map ev_telegram_url (collect_events (combine messages results))
  = List.map msg_url (List.filter keep messages).
Proof.
  induction 1 as [|msg result ms rs H _ IH]; [reflexivity|].
  cbn [combine collect_events List.filter]. unfold follows in H.
  destruct result as [ev|]; rewrite H; cbn [List.map ev_telegram_url];
    rewrite IH; reflexivity.
Qed.

Lemma count_skipped_dropped messages results :
  Forall2 (follows keep) messages results ->
  (count_skipped (combine messages results)
   + length (List.filter keep messages) = length messages)%nat.
Proof.
  unfold count_skipped.
  induction 1 as [|msg result ms rs H _ IH]; [reflexivity|].
  cbn [combine List.filter snd length]. unfold follows in H.
  destruct result as [ev|]; rewrite H; cbn [length]; lia.
Qed.
End Pairs.

Lemma Forall2_map_left {A B C : Type} (f : A -> B) (R : B -> C -> Prop)
    (l : list A) : forall k : list C,
  Forall2 R (List.map f l) k -> Forall2 (fun a c => R (f a) c) l k.
Proof.
  induction l as [|a r IH]; intros k H; inversion H; subst; constructor;
    auto.
Qed.

Section Channels.
Context {U : Unicode} {L : Lib}.
Variables (P : Page_lib) (cfg : Settings) (w : World).

Lemma batch_follows ex (messages : list TelegramMessage) :
  Forall2 (follows (fun msg => is_event_text (msg_text msg))) messages
    (fst (process_batch (w_model w) (w_today w) ex
            (List.map (fun msg => (msg_text msg, msg_url msg)) messages))).
Proof.
  pose proof (process_batch_Forall2 (w_model w) (w_today w) ex
                (List.map (fun msg => (msg_text msg, msg_url msg)) messages))
    as H.
  apply Forall2_map_left in H. apply (Forall2_impl _ _ _ _ H).
  intros msg [ev|] H1; exact H1.
Qed.

Lemma sort_by_datetime_nil messages :
  sort_by_datetime messages = [] -> messages = [].
Proof.
  intros H. apply (f_equal (@length _)) in H.
  rewrite sort_by_datetime_length in H. destruct messages; [reflexivity|].
  discriminate H.
Qed.

Lemma process_channel_messages_outcome (self : TelegramParserV2)
    (messages : list TelegramMessage) (channel_name : str) :
  let found := event_like messages in
  let r := process_channel_messages w self messages channel_name in
  seen_messages (snd r) = seen_messages self /\
  (length found <= length messages)%nat /\
  (found = [] \/ w_save_raises w channel_name = false ->
   fst r = Some {| total := length messages;
                   events := length found;
                   skipped := length messages - length found |} /\
   match found with
   | [] => saved (snd r) = saved self
   | _ :: _ =>
       exists evs,
         saved (snd r) = saved self ++ [(channel_name, evs)] /\
         List.map ev_telegram_url evs = List.map msg_url found
   end) /\
  (found <> [] -> w_save_raises w channel_name = true ->
   fst r = None /\ saved (snd r) = saved self).
Proof.
  intros found r. subst found r. unfold event_like, process_channel_messages.
  destruct messages as [|m ms].
  { cbn. split; [reflexivity|]. split; [lia|].
    split; [intros _; split; reflexivity|]. intros H. congruence. }
  set (sorted := sort_by_datetime (m :: ms)).
  pose proof (batch_follows (extractor self) sorted) as H.
  pose proof (sort_by_datetime_length (m :: ms)) as Hlen.
  fold sorted in Hlen.
  destruct (process_batch _ _ _ _) as [batch_results ex]. cbn [fst] in H.
  pose proof (collect_events_urls _ _ _ H) as Hurls.
  pose proof (count_skipped_dropped _ _ _ H) as Hcount.
  set (found := List.filter _ sorted) in *.
  assert (Hev : length (collect_events (combine sorted batch_results))
                = length found).
  { rewrite <- (length_map ev_telegram_url), Hurls, length_map.
    reflexivity. }
  cbv zeta. rewrite Hev, Hlen.
  replace (count_skipped (combine sorted batch_results))
    with (length (m :: ms) - length found)%nat by lia.
  destruct (collect_events (combine sorted batch_results)) as [|e es] eqn:E.
  - destruct found as [|f fs]; [|discriminate Hev].
    cbn [fst snd seen_messages saved]. split; [reflexivity|].
    split; [cbn [length]; lia|]. split; [|congruence].
    intros _. split; reflexivity.
  - destruct found as [|f fs]; [discriminate Hev|].
    destruct (w_save_raises w channel_name);
      cbn [fst snd seen_messages saved]; (split; [reflexivity|]);
      (split; [lia|]).
    + split; [intros [H0|H0]; discriminate H0|]. intros _ _.
      split; reflexivity.
    + split; [|intros _ H0; discriminate H0]. intros _.
      split; [reflexivity|]. exists (e :: es).
      split; [reflexivity|exact Hurls].
Qed.

End Channels.

(** Without an event nothing is written: the channel has its statistics
    also where no file can be written. *)
Example process_channel_messages_no_event :
  fst (process_channel_messages world_read_only (new_parser false)
         [greeting] (u "mospolytech"))
  = Some {| total := 1; events := 0; skipped := 1 |}.
Proof. vm_compute. reflexivity. Qed.

(** ** The order of the messages *)

Lemma insert_by_datetime_perm m sorted :
  Permutation (insert_by_datetime m sorted) (m :: sorted).
Proof.
  induction sorted as [|x r IH]; [reflexivity|]. cbn [insert_by_datetime].
  destruct (msg_datetime m <=? msg_datetime x); [reflexivity|].
  rewrite IH. apply perm_swap.
Qed.

Lemma insert_by_datetime_sorted m sorted :
  StronglySorted not_later sorted ->
  StronglySorted not_later (insert_by_datetime m sorted).
Proof.
  induction 1 as [|x r Hs IH Hx]; cbn [insert_by_datetime].
  - repeat constructor.
  - destruct (msg_datetime m <=? msg_datetime x) eqn:E.
    + apply Z.leb_le in E. constructor; [constructor; assumption|].
      constructor; [exact E|].
      eapply Forall_impl; [exact Hx|]. unfold not_later. intros; lia.
    + apply Z.leb_gt in E. constructor; [exact IH|].
      rewrite insert_by_datetime_perm. constructor; [|exact Hx].
      unfold not_later. lia.
Qed.

Lemma insert_by_datetime_at_instant t m sorted :
  StronglySorted not_later sorted ->
  at_instant t (insert_by_datetime m sorted) = at_instant t (m :: sorted).
Proof.
  unfold at_instant.
  induction 1 as [|x r Hs IH Hx]; [reflexivity|].
  cbn [insert_by_datetime].
  destruct (msg_datetime m <=? msg_datetime x) eqn:E; [reflexivity|].
  apply Z.leb_gt in E. cbn [List.filter] in IH |- *. rewrite IH.
  destruct (msg_datetime x =? t) eqn:Ex; [|reflexivity].
  apply Z.eqb_eq in Ex.
  destruct (msg_datetime m =? t) eqn:Em; [|reflexivity].
  apply Z.eqb_eq in Em. lia.
Qed.

(** X6: the messages of a channel are put in the order of their
    instants before they are read: none is lost or added, a message
    stands before the later ones, and the messages of one instant keep
    the order of the page. *)
Theorem sort_by_datetime_stable (messages : list TelegramMessage) :
  Permutation (sort_by_datetime messages) messages /\
  StronglySorted not_later (sort_by_datetime messages) /\
  forall t, at_instant t (sort_by_datetime messages) = at_instant t messages.
Proof.
  unfold sort_by_datetime.
  induction messages as [|m r (Hp & Hs & Ht)]; cbn [fold_right].
  - repeat split; constructor.
  - split; [|split].
    + rewrite insert_by_datetime_perm, Hp. reflexivity.
    + apply insert_by_datetime_sorted, Hs.
    + intros t. rewrite (insert_by_datetime_at_instant _ _ _ Hs).
      unfold at_instant in *. cbn [List.filter]. rewrite Ht. reflexivity.
Qed.

(** ** Duplicates *)

Section Duplicates.
Context {U : Unicode} {L : Lib}.
Variables (P : Page_lib) (cutoff_date : Z) (channel_name : str).

Lemma parse_divs_hashes divs : forall seen,
  let r := parse_divs P cutoff_date channel_name seen divs in
  NoDup (hashes (fst r)) /\
  (forall h, h ∈ hashes (fst r) -> h ∉ seen) /\
  snd r = seen ∪ list_to_set (hashes (fst r)) /\
  (forall div message,
     div ∈ divs -> parse_div P cutoff_date channel_name div = Some message ->
     message_hash message ∈ snd r).
Proof.
  induction divs as [|div r IH]; intros seen; cbn [parse_divs].
  { cbn. repeat split.
    - constructor.
    - intros h H. inversion H.
    - symmetry. apply (right_id_L ∅ (∪)).
    - intros div message H. inversion H. }
  destruct (parse_div P cutoff_date channel_name div) as [message|] eqn:E.
  - destruct (bool_decide (message_hash message ∈ seen)) eqn:B.
    + apply bool_decide_eq_true in B.
      destruct (IH seen) as (H1 & H2 & H3 & H4).
      repeat split; try assumption.
      intros d m Hd Hm. apply elem_of_cons in Hd as [->|Hd].
      * rewrite E in Hm. injection Hm as <-. rewrite H3.
        apply elem_of_union. left. exact B.
      * exact (H4 d m Hd Hm).
    + apply bool_decide_eq_false in B.
      destruct (IH ({[message_hash message]} ∪ seen)) as (H1 & H2 & H3 & H4).
      destruct (parse_divs P cutoff_date channel_name
                  ({[message_hash message]} ∪ seen) r) as [messages seen'].
      cbn [fst snd hashes List.map] in *. fold (hashes messages) in *.
      repeat split.
      * constructor; [|exact H1]. intros Hin. apply (H2 _ Hin).
        apply elem_of_union. left. apply elem_of_singleton. reflexivity.
      * intros h Hh. apply elem_of_cons in Hh as [->|Hh]; [exact B|].
        intros Hs. apply (H2 _ Hh). apply elem_of_union. right. exact Hs.
      * rewrite H3. cbn [list_to_set].
        rewrite (comm_L (∪) {[message_hash message]} seen).
        rewrite (assoc_L (∪)). reflexivity.
      * intros d m Hd Hm. apply elem_of_cons in Hd as [->|Hd].
        -- rewrite E in Hm. injection Hm as <-. rewrite H3.
           apply elem_of_union. left. apply elem_of_union. left.
           apply elem_of_singleton. reflexivity.
        -- exact (H4 d m Hd Hm).
  - destruct (IH seen) as (H1 & H2 & H3 & H4).
    repeat split; try assumption.
    intros d m Hd Hm. apply elem_of_cons in Hd as [->|Hd].
    + rewrite E in Hm. discriminate Hm.
    + exact (H4 d m Hd Hm).
Qed.

Lemma parse_divs_all_seen divs seen :
  (forall div message,
     div ∈ divs -> parse_div P cutoff_date channel_name div = Some message ->
     message_hash message ∈ seen) ->
  parse_divs P cutoff_date channel_name seen divs = ([], seen).
Proof.
  induction divs as [|div r IH]; intros H; [reflexivity|].
  cbn [parse_divs].
  destruct (parse_div P cutoff_date channel_name div) as [message|] eqn:E.
  - rewrite bool_decide_eq_true_2
      by (apply (H div message); [left|exact E]).
    apply IH. intros d m Hd. apply H. right. exact Hd.
  - apply IH. intros d m Hd. apply H. right. exact Hd.
Qed.
End Duplicates.

Section Channel.
Context {U : Unicode} {L : Lib}.
Variables (P : Page_lib) (cfg : Settings) (w : World).

Lemma parse_channel_outcome (seen : gset str) (channel_name : str) :
  let r := parse_channel P cfg w seen channel_name in
  match fst r with
  | None => snd r = seen
  | Some messages =>
      NoDup (hashes messages) /\
      (forall h, h ∈ hashes messages -> h ∉ seen) /\
      snd r = seen ∪ list_to_set (hashes messages) /\
      parse_channel P cfg w (snd r) channel_name = (Some [], snd r)
  end.
Proof.
  cbv zeta. unfold parse_channel.
  destruct (_fetch_page cfg (w_get w (u "https://t.me/s/" ++ channel_name)))
    as [html evs].
  assert (Hnone : NoDup (hashes []) /\
                  (forall h, h ∈ hashes [] -> h ∉ seen) /\
                  seen = seen ∪ list_to_set (hashes [])).
  { cbn. repeat split; [constructor| |symmetry; apply (right_id_L ∅ (∪))].
    intros h H. inversion H. }
  destruct Hnone as (N1 & N2 & N3).
  destruct html as [[|c html]| |]; cbn [fst snd];
    [repeat split; assumption| |repeat split; assumption|reflexivity].
  destruct (find_message_divs P (c :: html)) as [message_divs|];
    [|repeat split; assumption].
  pose proof (parse_divs_hashes P
                (w_now w - days_back cfg * microseconds_per_day)
                channel_name message_divs seen) as (H1 & H2 & H3 & H4).
  destruct (parse_divs P _ channel_name seen message_divs)
    as [messages seen'].
  cbn [fst snd] in *. repeat split; try assumption.
  rewrite (parse_divs_all_seen _ _ _ _ _ H4). reflexivity.
Qed.

(** X7: a channel gives each message once. The messages of a page have
    hashes that differ from each other and from those seen before, the
    parser remembers exactly these hashes, and reading the same page
    again gives no message. *)
Theorem parse_channel_once (seen : gset str) (channel_name : str) :
  let r := parse_channel P cfg w seen channel_name in
  match fst r with
  | None => snd r = seen
  | Some messages =>
      NoDup (hashes messages) /\
      (forall h, h ∈ hashes messages -> h ∉ seen) /\
      snd r = seen ∪ list_to_set (hashes messages) /\
      parse_channel P cfg w (snd r) channel_name = (Some [], snd r)
  end.
Proof. exact (parse_channel_outcome seen channel_name). Qed.
End Channel.

(** ** Runs *)

Lemma count_result_counted channels n statistics result :
  counted channels n statistics -> fst result ∈ channels ->
  sound_result result ->
  counted channels (S n) (count_result statistics result).
Proof.
  intros (H1 & H2 & H3 & H4 & H5) Hin Hs.
  destruct result as [channel [stats|]]; unfold sound_result in Hs;
    cbn [fst snd] in Hin, Hs; unfold counted, count_result;
    cbn [processed failed total_events total_messages channels_stats].
  - destruct Hs as [Hs1 Hs2]. repeat split; try lia.
    + destruct (channels_stats statistics !! channel) as [old|] eqn:E.
      * rewrite map_size_insert_Some by (exists old; exact E). lia.
      * rewrite map_size_insert_None by exact E. lia.
    + destruct (decide (channel = channel0)) as [<-|Hne].
      * exact Hin.
      * rewrite lookup_insert_ne in H by exact Hne. apply (H5 _ _ H).
    + destruct (decide (channel = channel0)) as [<-|Hne].
      * rewrite lookup_insert_eq in H. injection H as <-. exact Hs1.
      * rewrite lookup_insert_ne in H by exact Hne. apply (H5 _ _ H).
    + destruct (decide (channel = channel0)) as [<-|Hne].
      * rewrite lookup_insert_eq in H. injection H as <-. exact Hs2.
      * rewrite lookup_insert_ne in H by exact Hne. apply (H5 _ _ H).
  - repeat split; try lia; apply (H5 _ _ H).
Qed.

Lemma fold_count_result_counted channels results : forall n statistics,
  counted channels n statistics ->
  Forall (fun result => fst result ∈ channels /\ sound_result result)
    results ->
  counted channels (n + length results)
    (fold_left count_result results statistics).
Proof.
  induction results as [|result r IH]; intros n statistics H Hall;
    cbn [fold_left length].
  - rewrite Nat.add_0_r. exact H.
  - apply Forall_cons in Hall as [[Hin Hs] Hall].
    replace (n + S (length r))%nat with (S n + length r)%nat by lia.
    apply IH; [|exact Hall]. apply count_result_counted; assumption.
Qed.

Section Runs.
Context {U : Unicode} {L : Lib}.
Variables (P : Page_lib) (cfg : Settings) (w : World).

Lemma parse_and_process_channel_sound self channel :
  let r := parse_and_process_channel P cfg w self channel in
  seen_messages self ⊆ seen_messages (snd r) /\
  sound_result (channel, fst r).
Proof.
  cbv zeta. unfold parse_and_process_channel.
  pose proof (parse_channel_outcome P cfg w (seen_messages self) channel)
    as H. cbv zeta in H.
  destruct (parse_channel P cfg w (seen_messages self) channel)
    as [messages seen]. cbn [fst snd] in H.
  destruct messages as [[|m ms]|]; cbn [fst snd seen_messages].
  - destruct H as (_ & _ & -> & _). split; [|exact I].
    apply union_subseteq_l.
  - destruct H as (_ & _ & Hseen & _).
    set (self1 := {| seen_messages := seen; extractor := extractor self;
                     saved := saved self |}).
    pose proof (process_channel_messages_outcome w self1 (m :: ms) channel)
      as H. cbv zeta in H.
    destruct (process_channel_messages w self1 (m :: ms) channel)
      as [stats self2]. cbn [fst snd] in H |- *.
    destruct H as (H1 & Hle & H2 & H3).
    rewrite H1. cbn [seen_messages self1]. split.
    + rewrite Hseen. apply union_subseteq_l.
    + unfold sound_result. cbn [snd]. destruct stats as [stats|]; [|exact I].
      assert (Hs : event_like (m :: ms) = [] \/
                   w_save_raises w channel = false).
      { destruct (event_like (m :: ms)) as [|f fs] eqn:F;
          [left; reflexivity|].
        destruct (w_save_raises w channel); [|right; reflexivity].
        destruct (H3 ltac:(discriminate) eq_refl) as [[=] _]. }
      destruct (H2 Hs) as ([= ->] & _).
      unfold sound_stats. cbn [events skipped total length] in *. lia.
  - rewrite H. split; [reflexivity|exact I].
Qed.

Lemma run_channels_sound channels : forall self,
  let r := run_channels P cfg w self channels in
  List.map fst (fst r) = channels /\
  Forall sound_result (fst r) /\
  seen_messages self ⊆ seen_messages (snd r).
Proof.
  induction channels as [|channel rest IH]; intros self; cbn [run_channels].
  { cbn. split; [reflexivity|]. split; [constructor|reflexivity]. }
  pose proof (parse_and_process_channel_sound self channel) as H.
  cbv zeta in H.
  destruct (parse_and_process_channel P cfg w self channel) as [stats self1].
  specialize (IH self1). cbv zeta in IH.
  destruct (run_channels P cfg w self1 rest) as [results self2].
  cbn [fst snd List.map] in *. destruct H as [H1 H2].
  destruct IH as (I1 & I2 & I3). repeat split.
  - rewrite I1. reflexivity.
  - constructor; assumption.
  - etransitivity; eassumption.
Qed.

(** X8: the statistics of a run add up. Each channel is counted once,
    as processed or as failed; the events are not more than the
    messages; each processed channel has a message at least; the
    statistics by channel are those of channels of the list, at most
    one for each processed channel, with [events + skipped = total];
    and the parser forgets no message it has seen. *)
Theorem parse_and_process_statistics (self : TelegramParserV2)
    (channels : list str) :
  let r := parse_and_process P cfg w self channels in
  let statistics := fst r in
  total_channels statistics = length channels /\
  (processed statistics + failed statistics = length channels)%nat /\
  (total_events statistics <= total_messages statistics)%nat /\
  (processed statistics <= total_messages statistics)%nat /\
  (size (channels_stats statistics) <= processed statistics)%nat /\
  (forall channel stats,
     channels_stats statistics !! channel = Some stats ->
     channel ∈ channels /\ sound_stats stats) /\
  seen_messages self ⊆ seen_messages (snd r).
Proof.
  cbv zeta. unfold parse_and_process.
  pose proof (run_channels_sound channels self) as H. cbv zeta in H.
  destruct (run_channels P cfg w self channels) as [results self1].
  cbn [fst snd] in *. destruct H as (H1 & H2 & H3).
  set (statistics := {| total_channels := length channels; processed := 0;
                        failed := 0; total_messages := 0; total_events := 0;
                        channels_stats := ∅ |}).
  assert (H0 : counted channels 0 statistics).
  { unfold counted, statistics.
    cbn [processed failed total_events total_messages channels_stats].
    split; [reflexivity|]. split; [lia|]. split; [lia|].
    split; [rewrite map_size_empty; lia|].
    intros channel stats H. rewrite lookup_empty in H. discriminate H. }
  assert (Hall : Forall (fun result => fst result ∈ channels /\
                                       sound_result result) results).
  { apply Forall_forall. intros result Hin. split.
    - rewrite <- H1. exact (list_elem_of_fmap_2 fst results result Hin).
    - rewrite Forall_forall in H2. exact (H2 _ Hin). }
  pose proof (fold_count_result_counted channels results 0 statistics H0
                Hall) as (C1 & C2 & C3 & C4 & C5).
  assert (Hlen : length results = length channels)
    by (rewrite <- H1, length_map; reflexivity).
  assert (Htc : forall rs st, total_channels (fold_left count_result rs st)
                              = total_channels st).
  { induction rs as [|[c [s|]] rs IHrs]; intros st; cbn [fold_left];
      [reflexivity| |]; rewrite IHrs; reflexivity. }
  rewrite Htc. cbn [total_channels statistics].
  repeat split; try assumption; try lia; apply (C5 _ _ H).
Qed.

Lemma process_channel_messages_extractor self messages channel :
  let later := extractor (snd (process_channel_messages w self messages
                                 channel)) in
  (extractor_ok (extractor self) -> evolves (extractor self) later) /\
  (use_llm (extractor self) = false -> later = extractor self).
Proof.
  cbv zeta. unfold process_channel_messages.
  destruct messages as [|m ms].
  { cbn [snd]. split; [apply evolves_refl|reflexivity]. }
  set (batch := List.map _ (sort_by_datetime (m :: ms))).
  pose proof (process_batch_evolves (w_model w) (w_today w) batch
                (extractor self)) as H1.
  pose proof (extract_each_plain (w_model w) (w_today w) batch
                (extractor self)) as H2.
  destruct (process_batch (w_model w) (w_today w) (extractor self) batch)
    as [batch_results ex] eqn:E.
  cbn [snd] in H1.
  assert (H3 : use_llm (extractor self) = false -> ex = extractor self).
  { intros Hu. unfold process_batch in E. rewrite Hu in E. cbn [negb] in E.
    rewrite (H2 Hu) in E. injection E as _ <-. reflexivity. }
  cbv zeta. destruct (collect_events _) as [|e es];
    [|destruct (w_save_raises w channel)]; cbn [snd extractor];
    split; assumption.
Qed.

Lemma parse_and_process_channel_extractor self channel :
  let later := extractor (snd (parse_and_process_channel P cfg w self
                                 channel)) in
  (extractor_ok (extractor self) -> evolves (extractor self) later) /\
  (use_llm (extractor self) = false -> later = extractor self).
Proof.
  cbv zeta. unfold parse_and_process_channel.
  destruct (parse_channel P cfg w (seen_messages self) channel)
    as [messages seen].
  destruct messages as [[|m ms]|]; cbn [snd extractor];
    [split; [apply evolves_refl|reflexivity]|
    |split; [apply evolves_refl|reflexivity]].
  exact (process_channel_messages_extractor
           {| seen_messages := seen; extractor := extractor self;
              saved := saved self |} (m :: ms) channel).
Qed.

Lemma run_channels_extractor channels : forall self,
  let later := extractor (snd (run_channels P cfg w self channels)) in
  (extractor_ok (extractor self) -> evolves (extractor self) later) /\
  (use_llm (extractor self) = false -> later = extractor self).
Proof.
  induction channels as [|channel rest IH]; intros self; cbn [run_channels].
  { cbn [snd]. split; [apply evolves_refl|reflexivity]. }
  pose proof (parse_and_process_channel_extractor self channel) as H.
  cbv zeta in H.
  destruct (parse_and_process_channel P cfg w self channel) as [stats self1].
  specialize (IH self1). cbv zeta in IH.
  destruct (run_channels P cfg w self1 rest) as [results self2].
  cbn [snd] in *. destruct H as [H1 H2]. destruct IH as [I1 I2]. split.
  - intros Hok. specialize (H1 Hok).
    exact (evolves_trans _ _ _ H1 (I1 (evolves_ok _ _ H1))).
  - intros Hu. pose proof (H2 Hu) as E1. rewrite <- E1 in Hu.
    rewrite (I2 Hu). exact E1.
Qed.

Lemma parse_and_process_extractor self channels :
  let later := extractor (snd (parse_and_process P cfg w self channels)) in
  (extractor_ok (extractor self) -> evolves (extractor self) later) /\
  (use_llm (extractor self) = false -> later = extractor self).
Proof.
  cbv zeta. unfold parse_and_process.
  pose proof (run_channels_extractor channels self) as H. cbv zeta in H.
  destruct (run_channels P cfg w self channels) as [results self1].
  exact H.
Qed.

(** X9: over the runs of a parser the model is loaded once at most.
    With the refinement switched off the extractor stays as it was made,
    and once the loading has failed a further run leaves it as it is. *)
Theorem runs_load_model_once (use : bool) (channels more : list str) :
  let self := snd (parse_and_process P cfg w (new_parser use) channels) in
  let later := snd (parse_and_process P cfg w self more) in
  (load_calls (extractor self) <= load_calls (extractor later) <= 1)%nat /\
  (use = false -> extractor later = new_extractor false) /\
  (refinement_state (extractor self) = Failed ->
   extractor later = extractor self).
Proof.
  intros self later.
  assert (Hnew : extractor_ok (new_extractor use)) by (repeat split).
  destruct (parse_and_process_extractor (new_parser use) channels)
    as [H1 H2].
  destruct (parse_and_process_extractor self more) as [H3 H4].
  fold self in H1, H2. fold later in H3, H4.
  cbn [new_parser extractor] in H1, H2. specialize (H1 Hnew).
  specialize (H3 (evolves_ok _ _ H1)).
  pose proof (evolves_ok _ _ H3) as Hok.
  destruct H3 as (_ & Hl & _ & Hst). split; [|split].
  - split; [exact Hl|]. unfold extractor_ok in Hok.
    destruct (refinement_state (extractor later)); lia.
  - intros ->. specialize (H2 eq_refl). rewrite H2 in H4.
    exact (H4 eq_refl).
  - intros E. rewrite E in Hst. exact Hst.
Qed.
End Runs.

(** ** Clean texts *)

Section Strings.
Context {U : Unicode}.

Lemma lstrip_length s : (length (lstrip s) <= length s)%nat.
Proof.
  induction s as [|c r IH]; cbn [lstrip]; [lia|].
  destruct (cp_space c); cbn [length]; lia.
Qed.

Lemma lstrip_fixed c r : lstrip (c :: r) = c :: r <-> cp_space c = false.
Proof.
  cbn [lstrip]. destruct (cp_space c); split; intros H;
    try reflexivity; try discriminate H.
  pose proof (lstrip_length r) as Hl. rewrite H in Hl. cbn [length] in Hl.
  lia.
Qed.

Lemma lstrip_idem s : lstrip (lstrip s) = lstrip s.
Proof.
  induction s as [|c r IH]; [reflexivity|]. cbn [lstrip].
  destruct (cp_space c) eqn:E; [exact IH|]. cbn [lstrip]. rewrite E.
  reflexivity.
Qed.

Lemma lstrip_app s t : s <> [] -> lstrip s = s -> lstrip (s ++ t) = s ++ t.
Proof.
  destruct s as [|c r]; [congruence|]. intros _ H.
  apply lstrip_fixed in H. cbn [app lstrip]. rewrite H. reflexivity.
Qed.

Lemma lstrip_snoc a c :
  cp_space c = false -> lstrip (a ++ [c]) = lstrip a ++ [c].
Proof.
  intros H. induction a as [|x a IH]; cbn [app lstrip].
  - rewrite H. reflexivity.
  - destruct (cp_space x); [exact IH|reflexivity].
Qed.

Lemma rstrip_cons c r : cp_space c = false -> rstrip (c :: r) = c :: rstrip r.
Proof.
  intros H. unfold rstrip. cbn [rev]. rewrite (lstrip_snoc _ _ H).
  rewrite rev_app_distr. reflexivity.
Qed.

Lemma lstrip_strip s : lstrip (strip s) = strip s.
Proof.
  unfold strip. destruct (lstrip s) as [|c r] eqn:E; [reflexivity|].
  assert (H : cp_space c = false).
  { apply (proj1 (lstrip_fixed c r)). rewrite <- E. apply lstrip_idem. }
  rewrite (rstrip_cons _ _ H). cbn [lstrip]. rewrite H. reflexivity.
Qed.

Lemma rstrip_idem s : rstrip (rstrip s) = rstrip s.
Proof. unfold rstrip. rewrite rev_involutive, lstrip_idem. reflexivity. Qed.

Lemma strip_idem s : strip (strip s) = strip s.
Proof.
  unfold strip at 1. rewrite lstrip_strip. unfold strip.
  apply rstrip_idem.
Qed.

Lemma strip_fixed s :
  strip s = s <-> lstrip s = s /\ lstrip (rev s) = rev s.
Proof.
  split.
  - intros H. split.
    + rewrite <- H. apply lstrip_strip.
    + rewrite <- H at 1 2. unfold strip, rstrip. rewrite rev_involutive.
      apply lstrip_idem.
  - intros [H1 H2]. unfold strip, rstrip. rewrite H1, H2.
    apply rev_involutive.
Qed.

(** ** Lines *)

Lemma split_on_cons sep s : exists l ls, split_on sep s = l :: ls.
Proof.
  induction s as [|c r (l & ls & IH)]; cbn [split_on]; [eauto|].
  destruct (c =? sep)%N; [eauto|]. rewrite IH. eauto.
Qed.

Lemma split_on_without sep s :
  Forall (fun l => ~ In sep l) (split_on sep s).
Proof.
  induction s as [|c r IH]; cbn [split_on].
  - repeat constructor. intros [].
  - destruct (c =? sep)%N eqn:E.
    + constructor; [intros []|exact IH].
    + apply N.eqb_neq in E. destruct (split_on sep r) as [|l ls].
      * repeat constructor. intros [H|[]]. congruence.
      * apply Forall_cons in IH as [H1 H2]. constructor; [|exact H2].
        intros [H|H]; [congruence|exact (H1 H)].
Qed.

Lemma split_on_app sep l s :
  ~ In sep l ->
  split_on sep (l ++ sep :: s) = l :: split_on sep s.
Proof.
  intros H. induction l as [|c l IH]; cbn [app split_on].
  - rewrite N.eqb_refl. reflexivity.
  - destruct (c =? sep)%N eqn:E.
    + apply N.eqb_eq in E. exfalso. apply H. left. exact E.
    + rewrite IH by (intros Hin; apply H; right; exact Hin). reflexivity.
Qed.

Lemma split_on_whole sep l : ~ In sep l -> split_on sep l = [l].
Proof.
  intros H. induction l as [|c l IH]; [reflexivity|]. cbn [split_on].
  destruct (c =? sep)%N eqn:E.
  - apply N.eqb_eq in E. exfalso. apply H. left. exact E.
  - rewrite IH by (intros Hin; apply H; right; exact Hin). reflexivity.
Qed.

(** Splitting undoes joining, for lines without the separator. *)
Lemma split_on_join sep ls :
  ls <> [] -> Forall (fun l => ~ In sep l) ls ->
  split_on sep (join [sep] ls) = ls.
Proof.
  intros Hne H. induction H as [|l r Hl Hr IH]; [congruence|].
  destruct r as [|l' r']; cbn [join].
  - apply split_on_whole, Hl.
  - cbn [app]. rewrite (split_on_app _ _ _ Hl). f_equal.
    apply IH. discriminate.
Qed.

Lemma join_head sep l ls : exists t, join sep (l :: ls) = l ++ t.
Proof.
  destruct ls as [|l' r]; cbn [join]; [exists []|eauto].
  symmetry. apply app_nil_r.
Qed.

Lemma join_last sep ls l : exists t, join sep (ls ++ [l]) = t ++ l.
Proof.
  induction ls as [|x r (t & IH)]; cbn [app]; [exists []; reflexivity|].
  destruct (r ++ [l]) as [|y r'] eqn:E.
  - destruct r; discriminate E.
  - cbn [join]. cbn [join] in IH. rewrite IH.
    exists (x ++ sep ++ t). rewrite <- !app_assoc. reflexivity.
Qed.

Lemma lstrip_without sep s : ~ In sep s -> ~ In sep (lstrip s).
Proof.
  induction s as [|c r IH]; cbn [lstrip]; [auto|].
  destruct (cp_space c); [|auto]. intros H. apply IH. intros Hin. apply H.
  right. exact Hin.
Qed.

Lemma strip_without sep s : ~ In sep s -> ~ In sep (strip s).
Proof.
  intros H. unfold strip, rstrip. rewrite <- in_rev.
  apply lstrip_without. rewrite <- in_rev. apply lstrip_without, H.
Qed.

(** Joined lines that are stripped stay so. *)
Lemma strip_join sep ls :
  Forall (fun l => l <> [] /\ strip l = l) ls ->
  strip (join sep ls) = join sep ls.
Proof.
  intros H. destruct ls as [|l r]; [reflexivity|].
  apply strip_fixed. split.
  - apply Forall_cons in H as [[Hne Hs] _]. apply strip_fixed in Hs.
    destruct (join_head sep l r) as [t ->]. apply lstrip_app; tauto.
  - destruct (exists_last (l := l :: r)) as (r' & x & E); [discriminate|].
    rewrite E in H |- *. apply Forall_app in H as [_ H].
    apply Forall_cons in H as [[Hne Hs] _]. apply strip_fixed in Hs.
    destruct (join_last sep r' x) as [t ->]. rewrite rev_app_distr.
    apply lstrip_app; [|tauto]. intros Hr. apply Hne.
    apply (f_equal (@rev _)) in Hr. rewrite rev_involutive in Hr.
    exact Hr.
Qed.
End Strings.

Section CleanText.
Context {U : Unicode}.

Lemma clean_line_Some line l :
  clean_line line = Some l -> l = strip line /\ clean l.
Proof.
  unfold clean_line.
  destruct (strip line) as [|c r] eqn:E; [discriminate|].
  destruct (existsb _ skip_markers) eqn:B; [discriminate|].
  intros [= <-]. split; [reflexivity|]. split; [discriminate|]. split.
  - rewrite <- E. apply strip_idem.
  - intros skip Hin.
    destruct (contains skip (str_lower (c :: r))) eqn:C; [|reflexivity].
    rewrite <- B. symmetry. apply existsb_exists. exists skip.
    split; assumption.
Qed.

Lemma clean_line_clean l : clean l -> clean_line l = Some l.
Proof.
  intros (Hne & Hs & Hm). unfold clean_line. rewrite Hs.
  destruct l as [|c r]; [congruence|].
  destruct (existsb _ skip_markers) eqn:B; [|reflexivity].
  apply existsb_exists in B as (skip & Hin & C).
  rewrite (Hm skip Hin) in C. discriminate C.
Qed.

Lemma omap_clean_lines ls :
  Forall (fun l => ~ In NL l) ls ->
  Forall (fun l => clean l /\ ~ In NL l) (omap clean_line ls).
Proof.
  induction 1 as [|l r Hl _ IH]; [constructor|]. cbn [omap list_omap].
  destruct (clean_line l) as [l'|] eqn:E; [|exact IH].
  apply clean_line_Some in E as [-> Hc]. constructor; [|exact IH].
  split; [exact Hc|]. apply strip_without, Hl.
Qed.

Lemma omap_clean_fixed ls : Forall clean ls -> omap clean_line ls = ls.
Proof.
  induction 1 as [|l r Hl _ IH]; [reflexivity|]. cbn [omap list_omap].
  rewrite (clean_line_clean _ Hl). fold (omap clean_line r). rewrite IH.
  reflexivity.
Qed.

Lemma clean_text_lines text :
  let lines := omap clean_line (split_on NL text) in
  _clean_text text = join [NL] lines /\
  Forall clean lines /\
  (lines <> [] -> split_on NL (_clean_text text) = lines).
Proof.
  intros lines.
  pose proof (omap_clean_lines _ (split_on_without NL text)) as H.
  fold lines in H.
  assert (Hc : Forall clean lines)
    by (eapply Forall_impl; [exact H|]; cbv beta; tauto).
  assert (Hn : Forall (fun l => ~ In NL l) lines)
    by (eapply Forall_impl; [exact H|]; cbv beta; tauto).
  assert (E : _clean_text text = join [NL] lines).
  { unfold _clean_text. fold lines. apply strip_join.
    eapply Forall_impl; [exact Hc|]. unfold clean. cbv beta. tauto. }
  split; [exact E|]. split; [exact Hc|]. intros Hne. rewrite E.
  apply split_on_join; assumption.
Qed.

(** X10: cleaning a text a second time changes nothing. The clean text
    has no blank at either end, and each of its lines is not empty, has
    no blank at either end and holds none of the markers, in any case of
    letters. *)
Theorem clean_text_idempotent (text : str) :
  let cleaned := _clean_text text in
  _clean_text cleaned = cleaned /\
  strip cleaned = cleaned /\
  (cleaned = [] \/ Forall clean (split_on NL cleaned)).
Proof.
  intros cleaned. subst cleaned.
  destruct (clean_text_lines text) as (E & Hc & Hs).
  destruct (omap clean_line (split_on NL text)) as [|l r] eqn:El.
  - rewrite E. cbn [join]. split; [reflexivity|]. split; [reflexivity|].
    left. reflexivity.
  - specialize (Hs ltac:(discriminate)). split; [|split].
    + unfold _clean_text at 1. rewrite Hs, (omap_clean_fixed _ Hc).
      unfold _clean_text. rewrite El. reflexivity.
    + unfold _clean_text. apply strip_idem.
    + right. rewrite Hs. exact Hc.
Qed.
End CleanText.

(** ** Messages *)

Section Messages.
Context {U : Unicode} {L : Lib}.
Variables (P : Page_lib).

Lemma clean_text_fixed text : _clean_text (_clean_text text) = _clean_text text.
Proof.
  destruct (clean_text_lines text) as (E & Hc & Hs).
  destruct (omap clean_line (split_on NL text)) as [|l r] eqn:El.
  - rewrite E. reflexivity.
  - specialize (Hs ltac:(discriminate)).
    unfold _clean_text at 1. rewrite Hs, (omap_clean_fixed _ Hc).
    unfold _clean_text. rewrite El. reflexivity.
Qed.

Lemma parse_div_well_formed cutoff_date channel_name div message :
  parse_div P cutoff_date channel_name div = Some message ->
  well_formed P cutoff_date channel_name message.
Proof.
  unfold parse_div.
  destruct (time_tag div) as [datetime_attr|]; [|discriminate].
  destruct (fromisoformat P datetime_attr) as [msg_date|]; [|discriminate].
  destruct (msg_date <? cutoff_date) eqn:Ed; [discriminate|].
  apply Z.ltb_ge in Ed.
  destruct (text_div div) as [raw|]; [|discriminate].
  destruct (length (_clean_text raw) <? 10)%nat eqn:El; [discriminate|].
  apply Nat.ltb_ge in El.
  destruct (msg_link div) as [[url|]|]; [|discriminate|discriminate].
  intros [= <-]. unfold well_formed.
  cbn [msg_datetime msg_channel msg_text msg_id msg_url message_hash].
  repeat split; try assumption. apply clean_text_fixed.
Qed.

Lemma parse_divs_well_formed cutoff_date channel_name divs : forall seen,
  Forall (well_formed P cutoff_date channel_name)
    (fst (parse_divs P cutoff_date channel_name seen divs)).
Proof.
  induction divs as [|div r IH]; intros seen; cbn [parse_divs];
    [constructor|].
  destruct (parse_div P cutoff_date channel_name div) as [message|] eqn:E;
    [|apply IH].
  destruct (bool_decide (message_hash message ∈ seen)); [apply IH|].
  specialize (IH ({[message_hash message]} ∪ seen)).
  destruct (parse_divs P cutoff_date channel_name _ r) as [messages seen'].
  cbn [fst] in *. constructor; [|exact IH].
  exact (parse_div_well_formed _ _ _ _ E).
Qed.

(** X11: the messages that a channel gives are not older than
    [days_back] days, belong to the channel, have a clean text of ten
    characters at least, an id that is the end of their URL, and the
    hash of their text, instant and channel. *)
Theorem parse_channel_well_formed (cfg : Settings) (w : World)
    (seen : gset str) (channel_name : str) :
  match fst (parse_channel P cfg w seen channel_name) with
  | Some messages =>
      Forall (well_formed P
                (w_now w - days_back cfg * microseconds_per_day)
                channel_name) messages
  | None => True
  end.
Proof.
  unfold parse_channel.
  destruct (_fetch_page cfg (w_get w (u "https://t.me/s/" ++ channel_name)))
    as [html evs].
  destruct html as [[|c html]| |]; cbn [fst]; [constructor| |constructor|exact I].
  destruct (find_message_divs P (c :: html)) as [message_divs|];
    [|constructor].
  pose proof (parse_divs_well_formed
                (w_now w - days_back cfg * microseconds_per_day)
                channel_name message_divs seen) as H.
  destruct (parse_divs P _ channel_name seen message_divs)
    as [messages seen'].
  exact H.
Qed.
End Messages.

(** ** The pauses of a fetch *)

Section Pauses.
Variables (cfg : Settings) (get : Z -> http_outcome).

Lemma backoff_bounds k :
  backoff cfg k <= 30 /\
  (0 <= retry_delay cfg -> 0 <= k ->
   0 <= backoff cfg k <= retry_delay cfg * 2 ^ k).
Proof.
  unfold backoff. split; [lia|]. intros Hd Hk.
  assert (0 < 2 ^ k) by (apply Z.pow_pos_nonneg; lia). nia.
Qed.

Lemma attempts_trace_pauses n : forall first,
  let trace := attempts_trace cfg first n in
  length (requests trace) = n /\
  length (sleeps trace) = (n - 1)%nat /\
  Forall (fun wait_time => wait_time <= 30) (sleeps trace) /\
  total_sleep trace <= 30 * Z.of_nat (n - 1) /\
  (0 <= retry_delay cfg -> 0 <= first ->
   0 <= total_sleep trace
   <= retry_delay cfg * 2 ^ first * (2 ^ Z.of_nat (n - 1) - 1)).
Proof.
  induction n as [|m IH]; intros first.
  { cbn. repeat split; try constructor; try lia. }
  destruct m as [|m'].
  { cbn. repeat split; try constructor; try lia. }
  specialize (IH (first + 1)). cbv zeta in IH.
  destruct IH as (I1 & I2 & I3 & I4 & I5).
  cbv zeta. rewrite attempts_trace_step by lia.
  cbn [requests sleeps total_sleep length].
  destruct (backoff_bounds first) as [B1 B2].
  replace (S (S m') - 1)%nat with (S m') by lia.
  replace (S m' - 1)%nat with m' in * by lia.
  split; [lia|]. split; [lia|]. split; [constructor; assumption|].
  split; [lia|].
  intros Hd Hf. specialize (I5 Hd ltac:(lia)). specialize (B2 Hd Hf).
  split; [lia|].
  - replace (Z.of_nat (S m')) with (Z.of_nat m' + 1) by lia.
    rewrite Z.pow_add_r in * by lia.
    replace (2 ^ 1) with 2 in * by reflexivity.
    assert (0 < 2 ^ first) by (apply Z.pow_pos_nonneg; lia).
    assert (0 < 2 ^ Z.of_nat m') by (apply Z.pow_pos_nonneg; lia).
    nia.
Qed.

(** X12: a fetch makes [max_retries] requests at most, and none when
    [max_retries] is not positive; it pauses between two requests only,
    never more than 30 seconds at a time, and with a delay that is not
    negative the pauses of [n] requests add up to
    [retry_delay * (2 ^ (n - 1) - 1)] seconds at most. *)
Theorem fetch_page_pauses :
  let trace := snd (_fetch_page cfg get) in
  let n := length (requests trace) in
  (n <= Z.to_nat (max_retries cfg))%nat /\
  length (sleeps trace) = (n - 1)%nat /\
  Forall (fun wait_time => wait_time <= 30) (sleeps trace) /\
  total_sleep trace <= 30 * Z.of_nat (n - 1) /\
  (0 <= retry_delay cfg ->
   0 <= total_sleep trace
   <= retry_delay cfg * (2 ^ Z.of_nat (n - 1) - 1)) /\
  (max_retries cfg <= 0 -> _fetch_page cfg get = (NoPage, [])).
Proof.
  cbv zeta. unfold _fetch_page.
  destruct (Z_le_gt_dec (max_retries cfg) 0) as [Hle|Hgt].
  - replace (Z.to_nat (max_retries cfg)) with 0%nat by lia.
    cbn. repeat split; try constructor; lia.
  - destruct (fetch_loop_trace cfg get (Z.to_nat (max_retries cfg)) 0)
      as (n & Hn & _ & -> & _); [lia|].
    destruct (attempts_trace_pauses n 0) as (H1 & H2 & H3 & H4 & H5).
    rewrite H1. split; [exact Hn|]. split; [exact H2|].
    split; [exact H3|]. split; [exact H4|]. split; [|lia].
    intros Hd. specialize (H5 Hd ltac:(lia)).
    replace (retry_delay cfg * 2 ^ 0) with (retry_delay cfg) in H5 by lia.
    exact H5.
Qed.
End Pauses.

Example fetch_page_default_pauses :
  total_sleep (snd (_fetch_page default_settings (fun _ => RequestError))) = 6.
Proof. reflexivity. Qed.

(** ** Records and answers *)

Section Records.
Context {U : Unicode} {L : Lib}.
Variables (md : Model) (now : date).

Lemma heuristic_event_category text url :
  ev_category (heuristic_event now text url) = extract_category text.
Proof.
  unfold heuristic_event.
  destruct (extract_date now text), (extract_time text),
    (extract_location text).
  reflexivity.
Qed.

Lemma refined_event_record data text extracted_info ev :
  refined_event data text extracted_info = Some ev ->
  refined_record text ev /\ ev_category ev = i_category extracted_info.
Proof.
  unfold refined_event. destruct data as [| | | | |items]; try discriminate.
  destruct (data_get items (u "title") (JStr (i_title extracted_info)))
    as [| | |s|l|]; cbn [slice_to]; try discriminate; intros [= <-];
    (split; [|reflexivity]); unfold refined_record;
    cbn [ev_telegram_url ev_confidence ev_title title_length];
    (split; [reflexivity|]); (split; [reflexivity|]);
    eexists; (split; [reflexivity|]); rewrite length_firstn; lia.
Qed.

Lemma parse_response_record response text extracted_info ev :
  parse_response response text extracted_info = Some ev ->
  refined_record text ev /\ ev_category ev = i_category extracted_info.
Proof.
  unfold parse_response.
  destruct response as [[|c r]|]; [intros [=]| |intros [=]].
  destruct (re_search _ _ _); [|intros [=]].
  destruct (json_loads _); [|discriminate].
  apply refined_event_record.
Qed.

Lemma refine_record self text extracted_info ev :
  fst (_refine_with_llm md self text extracted_info) = Some ev ->
  refined_record text ev /\ ev_category ev = i_category extracted_info /\
  refinement_state (snd (_refine_with_llm md self text extracted_info))
  = Loaded.
Proof.
  pose proof (get_llm_loaded md self) as Hl. unfold _refine_with_llm.
  destruct (_get_llm md self) as [[h|] s1]; [|discriminate].
  specialize (Hl h eq_refl). cbn [snd] in Hl.
  destruct (generate_response _ _ _ _) as [response ran].
  cbn [fst snd]. intros H.
  destruct (parse_response_record _ _ _ _ H) as [H1 H2].
  split; [exact H1|]. split; [exact H2|]. exact Hl.
Qed.

(** X13: what [extract_event_info] gives. A text that is not event-like
    gives nothing and leaves the extractor as it is. An event-like text
    gives a record of the category that the keywords give: either the
    record of the regular expressions, with the URL of the message, or,
    with the refinement on and the model loaded, a refined record, which
    has an empty URL, the confidence 0.85 and a title of 150 items at
    most. *)
Theorem extract_event_info_record (self : Extractor) (text url : str) :
  let r := extract_event_info md now self text url in
  match fst r with
  | None => is_event_text text = false /\ snd r = self
  | Some ev =>
      is_event_text text = true /\
      ev_category ev = extract_category text /\
      (ev = heuristic_event now text url \/
       use_llm self = true /\ refinement_state (snd r) = Loaded /\
       refined_record text ev)
  end.
Proof.
  cbv zeta. rewrite extract_event_info_eq.
  destruct (is_event_text text); cbn [negb fst snd]; [|split; reflexivity].
  destruct (use_llm self).
  - pose proof (refine_record self text (extracted_info_of now text)) as H.
    destruct (_refine_with_llm md self text (extracted_info_of now text))
      as [[refined|] s1]; cbn [fst snd] in *.
    + destruct (H refined eq_refl) as (H1 & H2 & H3).
      split; [reflexivity|]. split; [exact H2|]. right. tauto.
    + split; [reflexivity|]. split; [apply heuristic_event_category|].
      left. reflexivity.
  - cbn [fst]. split; [reflexivity|].
    split; [apply heuristic_event_category|]. left. reflexivity.
Qed.
End Records.

(** ** The answer of the model *)

Section Answers.
Context {U : Unicode}.

Lemma contains_suffix sep a s :
  contains sep s = true -> contains sep (a ++ s) = true.
Proof.
  rewrite !contains_iff. intros (x & y & ->). exists (a ++ x), y.
  rewrite <- app_assoc. reflexivity.
Qed.

Lemma contains_skipn sep n s :
  contains sep (skipn n s) = true -> contains sep s = true.
Proof.
  intros H. rewrite <- (firstn_skipn n s). apply contains_suffix, H.
Qed.

Lemma after_last_without sep s :
  sep <> [] -> contains sep (after_last sep s) = false.
Proof.
  intros Hne. induction s as [|c r IH].
  - destruct sep; [congruence|reflexivity].
  - cbn [after_last]. destruct (contains sep r) eqn:C; [exact IH|].
    destruct (starts_with sep (c :: r)) eqn:S.
    + destruct sep as [|x sep']; [congruence|]. cbn [length skipn].
      destruct (contains (x :: sep') (skipn (length sep') r)) eqn:C2;
        [|reflexivity].
      apply contains_skipn in C2. congruence.
    + cbn [contains]. rewrite S, C. reflexivity.
Qed.

Lemma lstrip_suffix s : exists a, s = a ++ lstrip s.
Proof.
  induction s as [|c r (a & IH)]; [exists []; reflexivity|].
  cbn [lstrip]. destruct (cp_space c); [|exists []; reflexivity].
  exists (c :: a). cbn [app]. rewrite <- IH. reflexivity.
Qed.

Lemma strip_part s : exists a b, s = a ++ strip s ++ b.
Proof.
  unfold strip, rstrip. destruct (lstrip_suffix s) as [a Ha].
  destruct (lstrip_suffix (rev (lstrip s))) as [b Hb].
  exists a, (rev b). rewrite Ha at 1. f_equal.
  rewrite <- rev_app_distr, <- Hb, rev_involutive. reflexivity.
Qed.

Lemma strip_contains sep s :
  contains sep s = false -> contains sep (strip s) = false.
Proof.
  intros H. destruct (contains sep (strip s)) eqn:C; [|reflexivity].
  rewrite <- H. symmetry. apply contains_iff.
  apply contains_iff in C as (x & y & E).
  destruct (strip_part s) as (a & b & Hs). exists (a ++ x), (y ++ b).
  rewrite Hs at 1. rewrite E. rewrite <- !app_assoc. reflexivity.
Qed.

(** X14: a handler without model or tokenizer answers nothing and does
    not run the model; an answer is what follows the last
    [<assistant>:] of what the model wrote, without blanks at its ends:
    it does not hold that marker, and stripping it changes nothing. *)
Theorem generate_response_answer (md : Model) (h : HuggingFaceHandler)
    (n : nat) (prompt : str) :
  let r := generate_response md h n prompt in
  (hf_model h && hf_tokenizer h = false -> r = (None, false)) /\
  (hf_model h && hf_tokenizer h = true -> snd r = true) /\
  match fst r with
  | Some answer =>
      contains assistant_marker answer = false /\ strip answer = answer /\
      exists response,
        generate md n
          (u "<human>: " ++ prompt ++ [NL] ++ assistant_marker)
        = Some response /\
        answer = strip (after_last assistant_marker response)
  | None => True
  end.
Proof.
  cbv zeta. unfold generate_response.
  fold assistant_marker.
  destruct (hf_model h), (hf_tokenizer h); cbn [negb orb andb fst snd];
    try (split; [reflexivity|]; split; [discriminate|exact I]).
  split; [discriminate|].
  destruct (generate md n _) as [response|] eqn:G; cbn [fst snd];
    [|split; [reflexivity|exact I]].
  split; [reflexivity|]. split; [|split].
  - apply strip_contains, after_last_without. discriminate.
  - apply strip_idem.
  - exists response. split; reflexivity.
Qed.
End Answers.

(** ** Categories *)

(** The greatest score of a list, and the first that has it. *)
Lemma max_by_score_first l : forall best,
  exists before s after,
    best :: l = before ++ (max_by_score best l, s) :: after /\
    Forall (fun cs => (snd cs <= s)%nat) (best :: l) /\
    Forall (fun cs => (snd cs < s)%nat) before.
Proof.
  induction l as [|cs r IH]; intros best; cbn [max_by_score].
  { exists [], (snd best), []. destruct best as [c s].
    repeat split; repeat constructor. }
  destruct (snd best <? snd cs)%nat eqn:E.
  - apply Nat.ltb_lt in E.
    destruct (IH cs) as (b & s & a & H1 & H2 & H3).
    exists (best :: b), s, a. pose proof H2 as H2'.
    apply Forall_cons in H2' as [Hcs _]. split; [|split].
    + cbn [app]. f_equal. exact H1.
    + constructor; [lia|exact H2].
    + constructor; [lia|exact H3].
  - apply Nat.ltb_ge in E.
    destruct (IH best) as (b & s & a & H1 & H2 & H3).
    apply Forall_cons in H2 as [Hb Hr].
    destruct b as [|x b'].
    + cbn [app] in H1. injection H1 as H1 Ha. subst a.
      assert (Hs : snd best = s) by (rewrite H1; reflexivity).
      exists [], s, (cs :: r). split; [|split].
      * cbn [app]. rewrite <- H1. reflexivity.
      * constructor; [lia|]. constructor; [lia|exact Hr].
      * constructor.
    + cbn [app] in H1. injection H1 as <- Hr'.
      apply Forall_cons in H3 as [Hx H3].
      exists (best :: cs :: b'), s, a. split; [|split].
      * cbn [app]. do 2 f_equal. exact Hr'.
      * constructor; [lia|]. constructor; [lia|exact Hr].
      * constructor; [exact Hx|]. constructor; [lia|exact H3].
Qed.

(** Where an element that passed a filter after a map comes from. *)
Lemma filter_map_split {A B : Type} (g : A -> B) (keep : B -> bool)
    (table : list A) : forall before x after,
  List.filter keep (List.map g table) = before ++ x :: after ->
  exists tb t ta,
    table = tb ++ t :: ta /\ g t = x /\ keep x = true /\
    before = List.filter keep (List.map g tb).
Proof.
  induction table as [|t0 r IH]; intros before x after H.
  { destruct before; discriminate H. }
  cbn [List.map List.filter] in H. destruct (keep (g t0)) eqn:E.
  - destruct before as [|y b'].
    + cbn [app] in H. injection H as H1 H2. exists [], t0, r.
      rewrite <- H1. repeat split; [exact E].
    + cbn [app] in H. injection H as H1 H2.
      destruct (IH _ _ _ H2) as (tb & t & ta & -> & Hg & Hk & Hb).
      exists (t0 :: tb), t, ta. cbn [List.map List.filter app].
      rewrite E, <- Hb, H1. repeat split; assumption.
  - destruct (IH _ _ _ H) as (tb & t & ta & -> & Hg & Hk & Hb).
    exists (t0 :: tb), t, ta. cbn [List.map List.filter app].
    rewrite E. repeat split; assumption.
Qed.

Section Categories.
Context {U : Unicode}.

Lemma category_scores_eq text :
  category_scores (str_lower text)
  = List.filter (fun cs => (0 <? snd cs)%nat)
      (List.map (fun ck => (fst ck, keyword_score text (snd ck)))
         category_keywords).
Proof. reflexivity. Qed.

Lemma student_life_last :
  exists before keywords,
    category_keywords = before ++ [(u "student_life", keywords)].
Proof.
  exists (firstn 6 category_keywords),
    (snd (nth 6 category_keywords ([], []))).
  reflexivity.
Qed.

(** X15: the category of a text is one of the table: the first of
    those whose keywords occur most in the text, and [student_life]
    when no keyword of the table occurs. *)
Theorem extract_category_best (text : str) :
  exists before keywords after,
    category_keywords
    = before ++ (extract_category text, keywords) :: after /\
    Forall (fun ck => (keyword_score text (snd ck)
                       <= keyword_score text keywords)%nat)
      category_keywords /\
    (0 < keyword_score text keywords ->
     Forall (fun ck => (keyword_score text (snd ck)
                        < keyword_score text keywords)%nat) before)%nat /\
    (keyword_score text keywords = 0%nat ->
     extract_category text = u "student_life").
Proof.
  unfold extract_category. rewrite category_scores_eq.
  set (g := fun ck : str * list str =>
              (fst ck, keyword_score text (snd ck))).
  set (keep := fun cs : str * nat => (0 <? snd cs)%nat).
  assert (Hall : forall s,
            Forall (fun cs => (snd cs <= s)%nat)
              (List.filter keep (List.map g category_keywords)) ->
            Forall (fun ck => (keyword_score text (snd ck) <= s)%nat)
              category_keywords).
  { intros s H. rewrite List.Forall_forall in H.
    apply List.Forall_forall. intros ck Hin.
    destruct (keep (g ck)) eqn:E.
    - apply (H (g ck)). apply List.filter_In. split; [|exact E].
      apply List.in_map, Hin.
    - unfold keep, g in E. cbn [snd] in E. apply Nat.ltb_ge in E. lia. }
  destruct (List.filter keep (List.map g category_keywords))
    as [|cs r] eqn:F.
  - specialize (Hall 0%nat ltac:(constructor)).
    destruct student_life_last as (before & keywords & E).
    assert (H0 : keyword_score text keywords = 0%nat).
    { pose proof Hall as H. rewrite E in H. apply Forall_app in H as [_ H].
      apply Forall_cons in H as [H _]. cbn [snd] in H. lia. }
    exists before, keywords, []. split; [exact E|]. rewrite H0.
    split; [exact Hall|]. split; [lia|reflexivity].
  - destruct (max_by_score_first r cs) as (b & s & a & H1 & H2 & H3).
    pose proof (Hall s H2) as Hmax. rewrite <- F in H1.
    destruct (filter_map_split g keep category_keywords _ _ _ H1)
      as (tb & [category keywords] & ta & E & Hg & Hk & Hb).
    unfold g in Hg. cbn [fst snd] in Hg. injection Hg as Hc Hs.
    unfold keep in Hk. cbn [snd] in Hk. apply Nat.ltb_lt in Hk.
    exists tb, keywords, ta. rewrite <- Hc, Hs. split; [exact E|].
    split; [exact Hmax|]. split; [|lia].
    intros _. apply List.Forall_forall. intros ck Hin.
    destruct (keep (g ck)) eqn:Ek.
    + rewrite List.Forall_forall in H3. apply (H3 (g ck)). rewrite Hb.
      apply List.filter_In. split; [|exact Ek]. apply List.in_map, Hin.
    + unfold keep, g in Ek. cbn [snd] in Ek. apply Nat.ltb_ge in Ek. lia.
Qed.
End Categories.

(** ** Places *)

Section Places.
Context {U : Unicode}.

Lemma youtube_live_has_youtube s :
  contains (u "youtube") s = false -> contains (u "youtube live") s = false.
Proof.
  intros H. destruct (contains (u "youtube live") s) eqn:E; [|reflexivity].
  rewrite <- H. symmetry.
  exact (contains_part [] (u "youtube") (u " live") s E).
Qed.

(** X16: an online platform named in a text decides the place, before
    anything else in the text, and the first of the list that is named
    decides. The last entry of the list, [youtube live], never does:
    what holds it holds [youtube]. Without a platform, a word for a
    broadcast gives the place [Онлайн]. *)
Theorem extract_location_online (text : str) :
  let text_lower := str_lower text in
  match List.find (fun platform => contains platform text_lower)
          (firstn 5 online_platforms) with
  | Some platform =>
      extract_location text
      = (u "Онлайн (" ++ str_upper platform ++ u ")", 0.95%float)
  | None =>
      Forall (fun platform => contains platform text_lower = false)
        online_platforms /\
      (contains (u "онлайн") text_lower
       || contains (u "трансляция") text_lower
       || contains (u "вебинар") text_lower = true ->
       extract_location text = (u "Онлайн", 0.90%float))
  end.
Proof.
  cbv zeta. unfold extract_location, online_platforms.
  cbn [firstn List.find].
  destruct (contains (u "zoom") (str_lower text)) eqn:E1; [reflexivity|].
  destruct (contains (u "teams") (str_lower text)) eqn:E2; [reflexivity|].
  destruct (contains (u "skype") (str_lower text)) eqn:E3; [reflexivity|].
  destruct (contains (u "discord") (str_lower text)) eqn:E4; [reflexivity|].
  destruct (contains (u "youtube") (str_lower text)) eqn:E5; [reflexivity|].
  rewrite (youtube_live_has_youtube _ E5). split.
  - repeat constructor; try assumption. apply youtube_live_has_youtube, E5.
  - intros ->. reflexivity.
Qed.
End Places.

Example extract_location_youtube_live :
  fst (extract_location (u "Трансляция на YouTube Live в 19:00"))
  = u "Онлайн (YOUTUBE)".
Proof. vm_compute. reflexivity. Qed.

(* ================================================================== *)
(** * Favourites *)
(* ================================================================== *)

Section Dicts.
Context {V : Type}.
Implicit Types (d : list (str * V)) (k : str).

Lemma str_eqb_true k k' : str_eqb k k' = true <-> k = k'.
Proof. unfold str_eqb. apply bool_decide_eq_true. Qed.

Lemma str_eqb_false k k' : str_eqb k k' = false <-> k <> k'.
Proof. unfold str_eqb. apply bool_decide_eq_false. Qed.

Lemma str_eqb_refl k : str_eqb k k = true.
Proof. apply str_eqb_true. reflexivity. Qed.

Lemma dict_has_In d k : dict_has d k = true <-> In k (List.map fst d).
Proof.
  unfold dict_has. induction d as [|[k' v] r IH]; cbn [dict_get List.map In].
  - split; [discriminate|intros []].
  - cbn [fst]. destruct (str_eqb k k') eqn:E.
    + apply str_eqb_true in E. split; [intros _; left; congruence|reflexivity].
    + apply str_eqb_false in E. rewrite IH. split; [tauto|].
      intros [H|H]; [congruence|exact H].
Qed.

Lemma dict_has_app d k k' v :
  dict_has (d ++ [(k', v)]) k = dict_has d k || str_eqb k k'.
Proof.
  unfold dict_has. induction d as [|[k0 v0] r IH]; cbn [app dict_get].
  - destruct (str_eqb k k'); reflexivity.
  - destruct (str_eqb k k0); [reflexivity|exact IH].
Qed.

Lemma dict_has_del d k k' :
  dict_has (dict_del d k') k = dict_has d k && negb (str_eqb k' k).
Proof.
  unfold dict_has, dict_del.
  induction d as [|[k0 v0] r IH]; cbn [List.filter dict_get fst];
    [reflexivity|].
  destruct (str_eqb k' k0) eqn:E0; cbn [negb].
  - apply str_eqb_true in E0. subst k0. rewrite IH.
    destruct (str_eqb k k') eqn:E.
    + apply str_eqb_true in E. subst k'. rewrite str_eqb_refl. cbn [negb].
      rewrite andb_false_r. reflexivity.
    + reflexivity.
  - cbn [dict_get]. destruct (str_eqb k k0) eqn:E; [|exact IH].
    apply str_eqb_true in E. subst k0. rewrite E0. reflexivity.
Qed.

Lemma dict_del_keys d k :
  List.map fst (dict_del d k)
  = List.filter (fun k' => negb (str_eqb k k')) (List.map fst d).
Proof.
  unfold dict_del. induction d as [|[k0 v0] r IH]; [reflexivity|].
  cbn [List.filter List.map fst]. destruct (str_eqb k k0); cbn [negb];
    [exact IH|]. cbn [List.map fst]. rewrite IH. reflexivity.
Qed.

Lemma dict_del_absent d k : dict_has d k = false -> dict_del d k = d.
Proof.
  unfold dict_has, dict_del.
  induction d as [|[k0 v0] r IH]; [reflexivity|].
  cbn [dict_get List.filter fst]. destruct (str_eqb k k0); [discriminate|].
  intros H. cbn [negb]. rewrite (IH H). reflexivity.
Qed.

Lemma dict_del_app d k v :
  dict_has d k = false -> dict_del (d ++ [(k, v)]) k = d.
Proof.
  intros H. unfold dict_del. rewrite List.filter_app.
  fold (dict_del d k). rewrite (dict_del_absent _ _ H).
  cbn [List.filter fst]. rewrite str_eqb_refl. apply app_nil_r.
Qed.
End Dicts.

Section Favourites.
Implicit Types (self : FavoritesManager) (user_id : Z) (event_id : str).

Lemma add_favorite_lookup self user_id event_id category event_data :
  let r := add_favorite self user_id event_id category event_data in
  let user := default [] (favorites self !! user_id) in
  fst r = negb (dict_has user event_id) /\
  favorites (snd r) !! user_id
  = Some (if dict_has user event_id then user
          else user ++ [(event_id, (category, event_data))]) /\
  (forall other, other <> user_id ->
                 favorites (snd r) !! other = favorites self !! other).
Proof.
  cbv zeta. unfold add_favorite.
  destruct (favorites self !! user_id) as [user|] eqn:E;
    cbv beta iota zeta.
  - rewrite E. change (default [] (Some user)) with user.
    destruct (dict_has user event_id); cbn [negb fst snd favorites].
    + split; [reflexivity|]. split; [exact E|]. reflexivity.
    + split; [reflexivity|]. split; [apply lookup_insert_eq|].
      intros other H. apply lookup_insert_ne. congruence.
  - rewrite lookup_insert_eq.
    change (default [] (Some [])) with (@nil (str * (str * json))).
    change (default [] None) with (@nil (str * (str * json))).
    cbn [dict_has dict_get negb fst snd favorites app].
    split; [reflexivity|]. split; [apply lookup_insert_eq|].
    intros other H. rewrite !lookup_insert_ne by congruence. reflexivity.
Qed.

Lemma remove_favorite_lookup self user_id event_id :
  let r := remove_favorite self user_id event_id in
  let user := default [] (favorites self !! user_id) in
  fst r = dict_has user event_id /\
  default [] (favorites (snd r) !! user_id) = dict_del user event_id /\
  (favorites (snd r) !! user_id = Some [] -> fst r = false) /\
  (forall other, other <> user_id ->
                 favorites (snd r) !! other = favorites self !! other).
Proof.
  cbv zeta. unfold remove_favorite.
  destruct (favorites self !! user_id) as [user|] eqn:E;
    [change (default [] (Some user)) with user
    |change (default [] None) with (@nil (str * (str * json)))].
  - destruct (dict_has user event_id) eqn:H.
    + destruct (dict_del user event_id) as [|x rest] eqn:D;
        cbn [fst snd favorites].
      * rewrite lookup_delete_eq. cbn [default from_option id]. repeat split;
          try discriminate.
        intros other Ho. apply lookup_delete_ne. congruence.
      * rewrite lookup_insert_eq. cbn [default from_option id]. repeat split;
          try discriminate.
        intros other Ho. apply lookup_insert_ne. congruence.
    + cbn [fst snd]. rewrite E. cbn [default from_option id].
      rewrite (dict_del_absent _ _ H). repeat split.
  - cbn [fst snd dict_has dict_get dict_del List.filter]. rewrite E.
    repeat split.
Qed.

Lemma is_favorite_eq self user_id event_id :
  is_favorite self user_id event_id
  = dict_has (default [] (favorites self !! user_id)) event_id.
Proof.
  unfold is_favorite. destruct (favorites self !! user_id); reflexivity.
Qed.

Lemma get_favorites_eq self user_id :
  get_favorites self user_id
  = List.map (fun kv => (fst kv, fst (snd kv), snd (snd kv)))
      (default [] (favorites self !! user_id)).
Proof.
  unfold get_favorites. destruct (favorites self !! user_id); reflexivity.
Qed.

(** X17: adding and removing a favourite. [add_favorite] tells whether
    the event was not a favourite yet; then it puts the event last in
    the list of the user, else it changes nothing, so that the category
    and data first given stay. [remove_favorite] tells whether the event
    was a favourite, and takes it off the list. After the one the event
    is a favourite, after the other it is not, and no other event or
    user is touched. *)
Theorem add_remove_favorite (self : FavoritesManager) (user_id : Z)
    (event_id category : str) (event_data : json) :
  let added := add_favorite self user_id event_id category event_data in
  let removed := remove_favorite self user_id event_id in
  (fst added = negb (is_favorite self user_id event_id) /\
   is_favorite (snd added) user_id event_id = true /\
   get_favorites (snd added) user_id
   = (if fst added
      then get_favorites self user_id ++ [(event_id, category, event_data)]
      else get_favorites self user_id)) /\
  (fst removed = is_favorite self user_id event_id /\
   is_favorite (snd removed) user_id event_id = false /\
   get_favorites (snd removed) user_id
   = List.filter (fun f => negb (str_eqb event_id (fst (fst f))))
       (get_favorites self user_id)) /\
  (forall other_user other_event,
     other_user <> user_id \/ other_event <> event_id ->
     is_favorite (snd added) other_user other_event
     = is_favorite self other_user other_event /\
     is_favorite (snd removed) other_user other_event
     = is_favorite self other_user other_event) /\
  (forall other_user,
     other_user <> user_id ->
     get_favorites (snd added) other_user = get_favorites self other_user /\
     get_favorites (snd removed) other_user
     = get_favorites self other_user).
Proof.
  intros added removed.
  destruct (add_favorite_lookup self user_id event_id category event_data)
    as (A1 & A2 & A3).
  destruct (remove_favorite_lookup self user_id event_id)
    as (R1 & R2 & _ & R3).
  fold added in A1, A2, A3. fold removed in R1, R2, R3.
  set (user := default [] (favorites self !! user_id)) in *.
  split; [|split; [|split]].
  - rewrite !is_favorite_eq, !get_favorites_eq, A1, A2. fold user.
    cbn [default from_option id]. split; [reflexivity|].
    destruct (dict_has user event_id) eqn:H; cbn [negb].
    + split; [exact H|reflexivity].
    + split.
      * rewrite dict_has_app, str_eqb_refl. apply orb_true_r.
      * rewrite List.map_app. reflexivity.
  - rewrite !is_favorite_eq, !get_favorites_eq, R1, R2. fold user.
    split; [reflexivity|]. split.
    + rewrite dict_has_del, str_eqb_refl. apply andb_false_r.
    + unfold dict_del. clear. induction user as [|[k v] r IH];
        [reflexivity|]. cbn [List.filter List.map fst].
      destruct (str_eqb event_id k); cbn [negb List.map]; rewrite IH;
        reflexivity.
  - intros other_user other_event H. rewrite !is_favorite_eq.
    destruct (decide (other_user = user_id)) as [->|Hne].
    + destruct H as [H|H]; [congruence|].
      rewrite A2, R2. fold user. cbn [default from_option id]. split.
      * destruct (dict_has user event_id); [reflexivity|].
        rewrite dict_has_app.
        replace (str_eqb other_event event_id) with false
          by (symmetry; apply str_eqb_false; exact H).
        apply orb_false_r.
      * rewrite dict_has_del.
        replace (str_eqb event_id other_event) with false
          by (symmetry; apply str_eqb_false; congruence).
        apply andb_true_r.
    + rewrite (A3 _ Hne), (R3 _ Hne). split; reflexivity.
  - intros other_user Hne. rewrite !get_favorites_eq.
    rewrite (A3 _ Hne), (R3 _ Hne). split; reflexivity.
Qed.
End Favourites.

Section Tidy.
Implicit Types (self : FavoritesManager) (user_id : Z) (event_id : str).

Lemma dict_has_keys {V} (d : list (str * V)) k :
  dict_has d k = false -> ~ In k (List.map fst d).
Proof.
  intros H Hin. apply dict_has_In in Hin. congruence.
Qed.

Lemma add_favorite_tidy self user_id event_id category event_data :
  tidy self ->
  tidy (snd (add_favorite self user_id event_id category event_data)).
Proof.
  intros Ht.
  destruct (add_favorite_lookup self user_id event_id category event_data)
    as (_ & A2 & A3).
  intros other user H. destruct (decide (other = user_id)) as [->|Hne].
  - rewrite A2 in H. injection H as <-.
    destruct (favorites self !! user_id) as [user0|] eqn:E;
      cbn [default from_option id].
    + destruct (Ht _ _ E) as [Hn Hd].
      destruct (dict_has user0 event_id) eqn:Hh; [split; assumption|].
      split; [destruct user0; discriminate|].
      rewrite List.map_app. cbn [List.map fst].
      apply NoDup_ListNoDup, NoDup_app. split; [|split].
      * apply NoDup_ListNoDup, Hd.
      * intros k Hk Hk'. apply list_elem_of_singleton in Hk'. subst k.
        apply list_elem_of_In in Hk. exact (dict_has_keys _ _ Hh Hk).
      * apply NoDup_singleton.
    + cbn [dict_has dict_get app List.map fst]. split; [discriminate|].
      repeat constructor. intros [].
  - rewrite (A3 _ Hne) in H. exact (Ht _ _ H).
Qed.

Lemma remove_favorite_tidy self user_id event_id :
  tidy self -> tidy (snd (remove_favorite self user_id event_id)).
Proof.
  intros Ht. unfold remove_favorite.
  destruct (favorites self !! user_id) as [user0|] eqn:E; [|exact Ht].
  destruct (dict_has user0 event_id); [|exact Ht].
  destruct (Ht _ _ E) as [Hn Hd].
  assert (Hdel : List.NoDup (List.map fst (dict_del user0 event_id))).
  { rewrite dict_del_keys. apply List.NoDup_filter, Hd. }
  destruct (dict_del user0 event_id) as [|x rest]; cbn [snd];
    intros other user H; cbn [favorites] in H.
  - destruct (decide (other = user_id)) as [->|Hne].
    + rewrite lookup_delete_eq in H. discriminate H.
    + rewrite lookup_delete_ne in H by congruence. exact (Ht _ _ H).
  - destruct (decide (other = user_id)) as [->|Hne].
    + rewrite lookup_insert_eq in H. injection H as <-.
      split; [discriminate|exact Hdel].
    + rewrite lookup_insert_ne in H by congruence. exact (Ht _ _ H).
Qed.

Lemma clear_favorites_tidy self user_id :
  tidy self -> tidy (snd (clear_favorites self user_id)).
Proof.
  intros Ht. unfold clear_favorites.
  destruct (favorites self !! user_id) as [user0|] eqn:E; [|exact Ht].
  cbn [snd]. intros other user H. cbn [favorites] in H.
  destruct (decide (other = user_id)) as [->|Hne].
  - rewrite lookup_delete_eq in H. discriminate H.
  - rewrite lookup_delete_ne in H by congruence. exact (Ht _ _ H).
Qed.

Lemma favorites_after_tidy self c : tidy self -> tidy (favorites_after self c).
Proof.
  intros Ht. destruct c; cbn [favorites_after].
  - apply add_favorite_tidy, Ht.
  - apply remove_favorite_tidy, Ht.
  - unfold toggle_favorite. destruct (is_favorite self user_id event_id);
      cbn [snd]; [apply remove_favorite_tidy|apply add_favorite_tidy];
      exact Ht.
  - apply clear_favorites_tidy, Ht.
Qed.

Lemma favorites_after_all_tidy calls : tidy (favorites_after_all calls).
Proof.
  unfold favorites_after_all.
  assert (H : tidy new_favorites).
  { intros user_id user H. cbn in H. rewrite lookup_empty in H.
    discriminate H. }
  revert H. generalize new_favorites.
  induction calls as [|c r IH]; intros self H; cbn [fold_left];
    [exact H|]. apply IH, favorites_after_tidy, H.
Qed.

(** X18: whatever calls were made on a new manager, no user is kept
    without a favourite: the users with favourites are those whose count
    is positive. The count of a user is the length of the list, the ids
    of the list differ from each other, and an event is a favourite
    exactly when its id is in the list. *)
Theorem favorites_kept_tidy (calls : list favorites_call) (user_id : Z) :
  let self := favorites_after_all calls in
  (user_id ∈ get_user_ids_with_favorites self <->
   (0 < get_favorites_count self user_id)%nat) /\
  get_favorites_count self user_id = length (get_favorites self user_id) /\
  List.NoDup (favorite_ids self user_id) /\
  (forall event_id,
     is_favorite self user_id event_id = true <->
     In event_id (favorite_ids self user_id)).
Proof.
  intros self. pose proof (favorites_after_all_tidy calls) as Ht.
  fold self in Ht. unfold get_user_ids_with_favorites, get_favorites_count,
    favorite_ids, get_favorites, is_favorite.
  rewrite elem_of_dom.
  destruct (favorites self !! user_id) as [user|] eqn:E.
  - destruct (Ht _ _ E) as [Hn Hd]. rewrite List.map_map. cbn [fst].
    split; [|split; [|split]].
    + split; [intros _|eauto]. destruct user; [congruence|cbn; lia].
    + rewrite length_map. reflexivity.
    + exact Hd.
    + intros event_id. apply dict_has_In.
  - split; [|split; [|split]].
    + split; [intros [x H]; discriminate H|cbn; lia].
    + reflexivity.
    + constructor.
    + intros event_id. split; [discriminate|intros []].
Qed.

(** X19: [toggle_favorite] tells whether the event is a favourite
    afterwards, which it is exactly when it was not before; no other
    event or user is touched, and a second toggle makes every event what
    it was. *)
Theorem toggle_favorite_flips (self : FavoritesManager) (user_id : Z)
    (event_id category category' : str) (event_data event_data' : json) :
  let r := toggle_favorite self user_id event_id category event_data in
  let again :=
    toggle_favorite (snd r) user_id event_id category' event_data' in
  fst r = negb (is_favorite self user_id event_id) /\
  is_favorite (snd r) user_id event_id = fst r /\
  (forall other_user other_event,
     other_user <> user_id \/ other_event <> event_id ->
     is_favorite (snd r) other_user other_event
     = is_favorite self other_user other_event) /\
  fst again = negb (fst r) /\
  (forall any_user any_event,
     is_favorite (snd again) any_user any_event
     = is_favorite self any_user any_event).
Proof.
  assert (Hone : forall s c d,
    let r := toggle_favorite s user_id event_id c d in
    fst r = negb (is_favorite s user_id event_id) /\
    is_favorite (snd r) user_id event_id = fst r /\
    (forall other_user other_event,
       other_user <> user_id \/ other_event <> event_id ->
       is_favorite (snd r) other_user other_event
       = is_favorite s other_user other_event)).
  { intros s c d. cbv zeta. unfold toggle_favorite.
    destruct (add_favorite_lookup s user_id event_id c d) as (A1 & A2 & A3).
    destruct (remove_favorite_lookup s user_id event_id)
      as (R1 & R2 & _ & R3).
    destruct (is_favorite s user_id event_id) eqn:F; cbn [fst snd negb].
    - split; [reflexivity|]. rewrite !is_favorite_eq, R2. split.
      + rewrite dict_has_del, str_eqb_refl. apply andb_false_r.
      + intros ou oe H. rewrite !is_favorite_eq.
        destruct (decide (ou = user_id)) as [->|Hne].
        * destruct H as [H|H]; [congruence|]. rewrite R2, dict_has_del.
          replace (str_eqb event_id oe) with false
            by (symmetry; apply str_eqb_false; congruence).
          apply andb_true_r.
        * rewrite (R3 _ Hne). reflexivity.
    - split; [reflexivity|]. rewrite is_favorite_eq in F.
      rewrite !is_favorite_eq, A2, F. cbn [default from_option id]. split.
      + rewrite dict_has_app, str_eqb_refl. apply orb_true_r.
      + intros ou oe H. rewrite !is_favorite_eq.
        destruct (decide (ou = user_id)) as [->|Hne].
        * destruct H as [H|H]; [congruence|]. rewrite A2, F.
          cbn [default from_option id]. rewrite dict_has_app.
          replace (str_eqb oe event_id) with false
            by (symmetry; apply str_eqb_false; exact H).
          apply orb_false_r.
        * rewrite (A3 _ Hne). reflexivity. }
  intros r again.
  destruct (Hone self category event_data) as (H1 & H2 & H3).
  destruct (Hone (snd r) category' event_data') as (G1 & G2 & G3).
  fold r in H1, H2, H3. fold again in G1, G2, G3.
  split; [exact H1|]. split; [exact H2|]. split; [exact H3|].
  split; [rewrite G1, H2; reflexivity|].
  intros au ae.
  destruct (decide (au = user_id)) as [->|Hu];
    [destruct (decide (ae = event_id)) as [->|He]|].
  - rewrite G2, G1, H2, H1. apply negb_involutive.
  - rewrite G3, H3 by (right; exact He). reflexivity.
  - rewrite G3, H3 by (left; exact Hu). reflexivity.
Qed.
End Tidy.

(* ================================================================== *)
(** * Reading the events back *)
(* ================================================================== *)

Section ReadBack.
Context {U : Unicode}.

Lemma scan_string_body literal : string_body literal ->
  forall os n cur rest,
    fold_left scan_char (literal ++ 34%N :: rest)
      {| objects := os; brace_count := n; current_obj := cur;
         in_string := true; escape_next := false |}
    = fold_left scan_char rest
        {| objects := os; brace_count := n;
           current_obj := cur ++ literal ++ [34%N];
           in_string := false; escape_next := false |}.
Proof.
  induction 1 as [|c s Hq Hb _ IH|c s _ IH]; intros os n cur rest.
  - reflexivity.
  - cbn [app fold_left]. unfold scan_char at 2.
    cbn [escape_next in_string objects brace_count current_obj].
    apply N.eqb_neq in Hq, Hb. rewrite Hq, Hb. cbn [andb negb].
    rewrite IH, <- app_assoc. reflexivity.
  - cbn [app fold_left]. unfold scan_char at 2 3.
    cbn [escape_next in_string objects brace_count current_obj andb].
    rewrite N.eqb_refl. cbn [andb].
    cbn [escape_next in_string objects brace_count current_obj].
    rewrite IH, <- !app_assoc. reflexivity.
Qed.

Lemma scan_object_body body : object_body body ->
  forall os n cur rest,
    0 < n ->
    fold_left scan_char (body ++ rest)
      {| objects := os; brace_count := n; current_obj := cur;
         in_string := false; escape_next := false |}
    = fold_left scan_char rest
        {| objects := os; brace_count := n; current_obj := cur ++ body;
           in_string := false; escape_next := false |}.
Proof.
  induction 1 as [|c s Ho Hc Hq _ IH|literal s Hl _ IH
                  |inner s _ IHi _ IH]; intros os n cur rest Hn.
  - rewrite app_nil_r. reflexivity.
  - cbn [app fold_left]. unfold scan_char at 2.
    cbn [escape_next in_string objects brace_count current_obj].
    apply N.eqb_neq in Ho, Hc, Hq. rewrite Ho, Hc, Hq.
    rewrite andb_false_r. cbn [negb].
    replace (0 <? n) with true by (symmetry; apply Z.ltb_lt; exact Hn).
    rewrite (IH _ _ _ _ Hn), <- app_assoc. reflexivity.
  - cbn [app fold_left]. unfold scan_char at 2.
    cbn [escape_next in_string objects brace_count current_obj].
    rewrite andb_false_r. cbn [N.eqb Pos.eqb negb].
    rewrite <- app_assoc. cbn [app].
    rewrite (scan_string_body _ Hl), (IH _ _ _ _ Hn), <- !app_assoc.
    reflexivity.
  - cbn [app fold_left]. unfold scan_char at 2.
    cbn [escape_next in_string objects brace_count current_obj].
    rewrite andb_false_r. cbn [N.eqb Pos.eqb negb].
    rewrite <- app_assoc. cbn [app].
    rewrite IHi by lia. cbn [fold_left].
    unfold scan_char at 2.
    cbn [escape_next in_string objects brace_count current_obj].
    rewrite andb_false_r. cbn [N.eqb Pos.eqb negb].
    replace (n + 1 - 1 =? 0) with false by (symmetry; apply Z.eqb_neq; lia).
    replace (n + 1 - 1) with n by lia.
    rewrite (IH _ _ _ _ Hn), <- !app_assoc. reflexivity.
Qed.

Hypothesis newline_is_space : cp_space NL = true.
Hypothesis braces_are_no_space :
  cp_space 123%N = false /\ cp_space 125%N = false.

Lemma strip_object_text obj : object_text obj -> strip obj = obj.
Proof using braces_are_no_space.
  intros (body & _ & ->). destruct braces_are_no_space as [Ho Hc].
  apply strip_fixed. split.
  - apply lstrip_fixed, Ho.
  - change (123%N :: body ++ [125%N]) with ([123%N] ++ body ++ [125%N]).
    rewrite !rev_app_distr. cbn [rev app]. apply lstrip_fixed, Hc.
Qed.

Lemma scan_object_text obj os rest :
  object_text obj ->
  fold_left scan_char (obj ++ NL :: rest) (scan_start os)
  = fold_left scan_char rest (scan_start (os ++ [obj])).
Proof using newline_is_space braces_are_no_space.
  intros Hobj. pose proof (strip_object_text _ Hobj) as Hs.
  destruct Hobj as (body & Hb & ->).
  unfold scan_start. cbn [app fold_left]. unfold scan_char at 2.
  cbn [escape_next in_string objects brace_count current_obj andb].
  rewrite andb_false_r. cbn [N.eqb Pos.eqb negb app Z.add].
  rewrite <- app_assoc.
  rewrite (scan_object_body _ Hb) by lia.
  cbn [app fold_left]. unfold scan_char at 3.
  cbn [escape_next in_string objects brace_count current_obj andb].
  rewrite andb_false_r. cbn [N.eqb Pos.eqb negb Z.sub Z.add Z.opp
    Z.pos_sub Z.eqb].
  change ([123%N] ++ body ++ [125%N]) with (123%N :: body ++ [125%N]).
  cbn [app]. rewrite Hs.
  unfold scan_char at 2.
  cbn [escape_next in_string objects brace_count current_obj andb].
  rewrite andb_false_r. change (NL =? 34)%N with false.
  change (NL =? 123)%N with false. change (NL =? 125)%N with false.
  cbn [negb Z.ltb Z.compare]. rewrite newline_is_space. reflexivity.
Qed.

Lemma scan_jsonl objs : forall os,
  Forall object_text objs ->
  fold_left scan_char (jsonl objs) (scan_start os) = scan_start (os ++ objs).
Proof using newline_is_space braces_are_no_space.
  unfold jsonl.
  induction objs as [|obj r IH]; intros os Hall; cbn [List.map concat].
  - rewrite app_nil_r. reflexivity.
  - apply Forall_cons in Hall as [Hobj Hall].
    rewrite <- app_assoc. cbn [app].
    rewrite (scan_object_text _ _ _ Hobj), (IH _ Hall), <- app_assoc.
    reflexivity.
Qed.

(** X20: what is written is read back. From a file that holds objects,
    each followed by a newline, [_extract_json_objects] gives these
    objects, as they are and in their order; an object has string
    literals, objects in braces and other characters inside, as
    [json.dumps] writes it. *)
Theorem extract_json_objects_jsonl (objs : list str) :
  Forall object_text objs ->
  _extract_json_objects (jsonl objs) = objs.
Proof using newline_is_space braces_are_no_space.
  intros Hall. unfold _extract_json_objects.
  rewrite (scan_jsonl _ [] Hall). reflexivity.
Qed.
End ReadBack.

Ltac string_chars :=
  repeat (apply string_char; [discriminate|discriminate|]);
  apply string_end.

Ltac body_chars :=
  repeat (apply body_char; [discriminate|discriminate|discriminate|]).

Lemma written_objects_are_objects : Forall object_text written_objects.
Proof.
  repeat constructor.
  - exists (uq "`a`: `b}`"). split; [|reflexivity].
    apply (body_string (u "a") (uq ": `b}`")); [string_chars|].
    body_chars.
    apply (body_string (u "b}") []); [string_chars|apply body_end].
  - exists (uq "`n`: {`k`: 1}"). split; [|reflexivity].
    apply (body_string (u "n") (uq ": {`k`: 1}")); [string_chars|].
    body_chars.
    apply (body_object (uq "`k`: 1") []); [|apply body_end].
    apply (body_string (u "k") (u ": 1")); [string_chars|].
    body_chars. apply body_end.
Qed.

Lemma extract_json_objects_jsonl_witness :
  _extract_json_objects (jsonl written_objects) = written_objects.
Proof.
  apply (extract_json_objects_jsonl (U := basic_unicode)).
  - reflexivity.
  - split; reflexivity.
  - exact written_objects_are_objects.
Defined.

(** A closing brace too many, and nothing more is read. *)
Example extract_json_objects_stray_brace :
  _extract_json_objects (uq "}
{`a`: 1}
{`b`: 2}
") = [].
Proof. vm_compute. reflexivity. Qed.

(** ** Categories *)

Lemma max_by_score_In l : forall best,
  In (max_by_score best l) (List.map fst (best :: l)).
Proof.
  induction l as [|cs r IH]; intros best; cbn [max_by_score].
  - left. reflexivity.
  - destruct (snd best <? snd cs)%nat.
    + right. apply IH.
    + destruct (IH best) as [H|H]; [left; exact H|right; right; exact H].
Qed.

Lemma category_names_filed_well :
  forallb filed_well (List.map fst category_keywords) = true.
Proof. vm_compute. reflexivity. Qed.

Section Filing.
Context {U : Unicode}.

Lemma extract_category_In text :
  In (extract_category text) (List.map fst category_keywords).
Proof.
  unfold extract_category. rewrite category_scores_eq.
  set (g := fun ck : str * list str =>
              (fst ck, keyword_score text (snd ck))).
  set (keep := fun cs : str * nat => (0 <? snd cs)%nat).
  destruct (List.filter keep (List.map g category_keywords))
    as [|cs r] eqn:F.
  - destruct student_life_last as (before & keywords & E). rewrite E.
    rewrite List.map_app. apply in_or_app. right. left. reflexivity.
  - pose proof (max_by_score_In r cs) as H. rewrite <- F in H.
    apply List.in_map_iff in H as ([c s] & Hc & Hin).
    apply List.filter_In in Hin as [Hin _].
    apply List.in_map_iff in Hin as ([c' kws] & Hg & Hin).
    unfold g in Hg. cbn [fst snd] in Hg, Hc. injection Hg as -> _.
    rewrite <- Hc. apply (List.in_map fst _ _ Hin).
Qed.

(** X21: every category that the parser gives is filed by the bot under
    a category it has, the same name but for [career], which becomes
    [careers]; the default of the mapping is not used. This holds when
    lowering leaves the names of the table as they are. *)
Theorem parser_categories_filed (text : str) :
  (forall name, In name (List.map fst category_keywords) ->
                str_lower name = name) ->
  bot_category (extract_category text)
  = renamed_category (extract_category text) /\
  In (bot_category (extract_category text)) bot_categories.
Proof.
  intros Hlower. pose proof (extract_category_In text) as Hin.
  unfold bot_category. rewrite (Hlower _ Hin).
  pose proof category_names_filed_well as H.
  rewrite List.forallb_forall in H. specialize (H _ Hin).
  unfold filed_well in H. apply andb_true_iff in H as [H1 H2].
  apply str_eqb_true in H1. split; [exact H1|].
  apply List.existsb_exists in H2 as (c & Hc & Heq).
  apply str_eqb_true in Heq. rewrite Heq. exact Hc.
Qed.
End Filing.

Lemma basic_lower_names name :
  In name (List.map fst category_keywords) ->
  str_lower (Unicode := basic_unicode) name = name.
Proof.
  intros H.
  assert (Hall : forallb (fun n => str_eqb (List.map basic_lower n) n)
                   (List.map fst category_keywords) = true)
    by (vm_compute; reflexivity).
  rewrite List.forallb_forall in Hall. apply str_eqb_true, Hall, H.
Qed.

Lemma parser_categories_filed_witness :
  bot_category (extract_category (u "Стажировка и карьера: встреча"))
  = renamed_category
      (extract_category (u "Стажировка и карьера: встреча")) /\
  In (bot_category (extract_category (u "Стажировка и карьера: встреча")))
    bot_categories.
Proof.
  apply (parser_categories_filed (U := basic_unicode)
           (u "Стажировка и карьера: встреча")).
  exact basic_lower_names.
Defined.

Example bot_category_career :
  bot_category (extract_category (u "Стажировка и карьера: встреча"))
  = u "careers".
Proof. vm_compute. reflexivity. Qed.
